(** * API scenarios: the scenario loader (compiler) and the scenario runner

    A shallow embedding of [lib/apiScenario]: the data shapes of
    [apiScenarioTypes.ts], the runner class [ApiScenarioRunner] and the loader
    class [ApiScenarioLoader], followed by the properties established about
    them.

    Conventions of the embedding.
    - A JavaScript object used as a dictionary is an association list of
      its own properties in insertion order (the order [Object.entries] walks
      it); a [Map] that is only probed and updated is a [gmap]. A plain
      object also answers to the names of [Object.prototype]: [readProp],
      [hasProp] and [writeProp] are the read, the test against [undefined]
      and the write under a name that comes from the input.
    - Objects that the code mutates and shares (the runner's [Scope] objects
      and the step objects) live in explicit heaps and are named by their
      index; everything else is passed by value. The Variable objects of a
      step are shared with the environment of the step: a value assigned to
      one of them is written to the step object.
    - Asynchronous functions are always awaited to completion by their caller,
      so a call is a state transformer that returns either a value or the
      thrown error; a settled promise is the [Result] it settled with. *)

From stdpp Require Import gmap strings list pretty.
From Stdlib Require Import ZArith.
From Stdlib Require Import Ascii.

Local Open Scope string_scope.
Local Open Scope list_scope.
Set Warnings "-register-all".

(** ** JavaScript values, objects and errors *)

Module Js.

(** The values of type [any] / [VarValue]. Numbers are integers here: no
    property below computes with them. An object is the list of its own
    properties; [JsInherited name] is [Object.prototype[name]], the member
    that a plain object without an own property [name] answers with (a
    function, or [Object.prototype] itself for [__proto__]). *)
Inductive JsValue : Type :=
| JsUndefined
| JsNull
| JsBool (b : bool)
| JsNumber (n : Z)
| JsString (s : string)
| JsArray (items : list JsValue)
| JsObject (props : list (string * JsValue))
| JsInherited (name : string).

(** [if (v)]: the falsy values are undefined, null, false, 0 and the empty
    string. *)
Definition truthy (v : JsValue) : bool :=
  match v with
  | JsUndefined | JsNull => false
  | JsBool b => b
  | JsNumber n => negb (n =? 0)%Z
  | JsString s => negb (String.eqb s "")
  | JsArray _ | JsObject _ | JsInherited _ => true
  end.

(** [o[k]] on a dictionary whose values are objects: [None] is
    [undefined]. *)
Fixpoint lookupKey {A : Type} (o : list (string * A)) (k : string) : option A :=
  match o with
  | [] => None
  | (k', v) :: o' => if String.eqb k' k then Some v else lookupKey o' k
  end.

(** [o[k] = v]: an existing key keeps its place, a new key goes last. *)
Fixpoint setKey {A : Type} (o : list (string * A)) (k : string) (v : A)
  : list (string * A) :=
  match o with
  | [] => [(k, v)]
  | (k', v') :: o' =>
      if String.eqb k' k then (k', v) :: o' else (k', v') :: setKey o' k v
  end.

(** [Object.keys(o)]. *)
Definition keys {A : Type} (o : list (string * A)) : list string := o.*1.

(** [o[k]] on a dictionary of [any]. *)
Definition getProp (o : list (string * JsValue)) (k : string) : JsValue :=
  default JsUndefined (lookupKey o k).

(** [xs.includes(x)] on an array of strings. *)
Definition includes (xs : list string) (x : string) : bool :=
  existsb (String.eqb x) xs.

(** The property names of [Object.prototype]: a plain object ([{}], an
    object literal, the result of [JSON.parse]) answers to them whether it has
    them as own properties or not. *)
Definition objectPrototypeNames : list string :=
  ["constructor"; "__defineGetter__"; "__defineSetter__"; "hasOwnProperty";
   "__lookupGetter__"; "__lookupSetter__"; "isPrototypeOf"; "propertyIsEnumerable";
   "toString"; "valueOf"; "__proto__"; "toLocaleString"].

Definition inherited (k : string) : bool := includes objectPrototypeNames k.

(** [o[k]] read on a plain object of [any]: the own property, else the
    inherited member, else [undefined]. *)
Definition readProp (o : list (string * JsValue)) (k : string) : JsValue :=
  match lookupKey o k with
  | Some v => v
  | None => if inherited k then JsInherited k else JsUndefined
  end.

(** [o[k] !== undefined] on a plain object whose own properties are
    objects. *)
Definition hasProp {A : Type} (o : list (string * A)) (k : string) : bool :=
  bool_decide (is_Some (lookupKey o k)) || inherited k.

(** [o[k] = v] on a plain object. A write to [__proto__] goes to the
    accessor of [Object.prototype] and creates no own property (the
    prototype that it may install is not among the own properties that the
    list holds). *)
Definition writeProp {A : Type} (o : list (string * A)) (k : string) (v : A)
  : list (string * A) :=
  if String.eqb k "__proto__" then o else setKey o k v.

(** An [Error] object: its message and the engine's rendering of its
    stack. *)
Record JsError : Type := mkError { message : string; stack : string }.

(** The [stack] the engine attaches to [new Error(message)]. *)
Class Engine : Type := { errorStack : string -> string }.

(** [new Error(message)] *)
Definition newError `{Engine} (message : string) : JsError :=
  mkError message (errorStack message).

(** The outcome of a call: a returned value or a thrown error; also the
    state of a settled promise. *)
Inductive Result (A : Type) : Type :=
| Ok (a : A)
| Throw (e : JsError).
Arguments Ok {A} a.
Arguments Throw {A} e.

Definition isOk {A : Type} (r : Result A) : bool :=
  match r with Ok _ => true | Throw _ => false end.

(** ASCII [toUpperCase] (HTTP method names are ASCII). *)
Definition upperAscii (c : ascii) : ascii :=
  let n := nat_of_ascii c in
  if ((97 <=? n) && (n <=? 122))%nat then ascii_of_nat (n - 32) else c.

Fixpoint toUpperCase (s : string) : string :=
  match s with
  | EmptyString => EmptyString
  | String c s' => String (upperAscii c) (toUpperCase s')
  end.

(** The character classes of the two regular expressions of the source. *)
Definition isAlpha (c : ascii) : bool :=
  let n := nat_of_ascii c in
  (((65 <=? n) && (n <=? 90)) || ((97 <=? n) && (n <=? 122)))%nat.

Definition isDigit (c : ascii) : bool :=
  let n := nat_of_ascii c in ((48 <=? n) && (n <=? 57))%nat.

(** [[A-Za-z0-9_]] *)
Definition isWordChar (c : ascii) : bool :=
  isAlpha c || isDigit c || Ascii.eqb c "_".

(** [[A-Za-z_$]] *)
Definition isIdentStart (c : ascii) : bool :=
  isAlpha c || Ascii.eqb c "_" || Ascii.eqb c "$".

(** [[a-z0-9_$]] with the [i] flag *)
Definition isPathVarChar (c : ascii) : bool :=
  isWordChar c || Ascii.eqb c "$".

(** [s.endsWith(suffix)] *)
Definition endsWith (s suffix : string) : bool :=
  let n := String.length s in
  let m := String.length suffix in
  (m <=? n)%nat && String.eqb (String.substring (n - m) m s) suffix.

End Js.
Export Js.

(** ** The data model ([apiScenarioTypes.ts]) *)

Module Types.

Inductive JsonPatchOp : Type :=
| JsonPatchOpAdd (add : string) (value : JsValue)
| JsonPatchOpRemove (remove : string) (oldValue : option JsValue)
| JsonPatchOpReplace (replace : string) (value : JsValue) (oldValue : option JsValue)
| JsonPatchOpCopy (copy : string) (from : string)
| JsonPatchOpMove (move : string) (from : string)
| JsonPatchOpTest (test : string) (value : option JsValue) (expression : option string).

(** [Variable] (a reserved word here, hence the underscore): the tagged
    union, as the object the code inspects: a [type]
    tag and the optional [value], [prefix] and [patches] properties. The
    tag is a string because [declareOutputVariables] copies the type names
    of ARM templates (such as [securestring]) into it. *)
Record Variable_ : Type := mkVariable {
  v_type : string;
  v_value : option JsValue;
  v_prefix : option string;
  v_patches : option (list JsonPatchOp);
}.

(** [RawVariableScope["variables"]]: a string shorthand or a variable. *)
Inductive RawVariable : Type :=
| RawString (s : string)
| RawTyped (v : Variable_).

Record VariableScope : Type := mkVariableScope {
  variables : list (string * Variable_);
  requiredVariables : list string;
  secretVariables : list string;
}.

Record OutputVariable : Type := mkOutputVariable {
  ov_type : option string;
  fromRequest : string;
  fromResponse : string;
}.

Definition OutputVariables : Type := list (string * OutputVariable).

(** [swaggerTypes]: the parts of [Parameter] (also a reserved word) and
    [Operation] that the loader and the runner read. *)
Record Parameter_ : Type := mkParameter {
  p_name : string;
  p_in : string;
  p_required : bool;
}.

Record Operation : Type := mkOperation {
  operationId : option string;
  _method : string;
  _pathTemplate : string;
  op_parameters : option (list Parameter_);
  op_responses : list (string * JsValue);
}.

(** [ArmTemplate] and its resources. A resource is the object the loader
    updates for a deployment script: the common properties, and the script
    properties when present. *)
Record ArmParameter : Type := mkArmParameter {
  ap_type : string;
  defaultValue : option JsValue;
}.

Record ArmOutput : Type := mkArmOutput {
  condition : option string;
  ao_type : string;
}.

Record ScriptEnvironmentVariable : Type := mkScriptEnvironmentVariable {
  ev_name : string;
  ev_value : option string;
  ev_secureValue : option string;
}.

Record ArmResourceProperties : Type := mkArmResourceProperties {
  arguments : option string;
  azPowerShellVersion : option string;
  azCliVersion : option string;
  scriptContent : option string;
  environmentVariables : option (list ScriptEnvironmentVariable);
  otherProperties : list (string * JsValue);
}.

Record ArmResource : Type := mkArmResource {
  r_name : string;
  r_apiVersion : string;
  r_type : string;
  r_location : option string;
  r_kind : option string;
  r_properties : option ArmResourceProperties;
}.

Record ArmTemplate : Type := mkArmTemplate {
  at_parameters : option (list (string * ArmParameter));
  at_outputs : option (list (string * ArmOutput));
  at_resources : option (list ArmResource);
}.

Definition emptyArmTemplate : ArmTemplate :=
  {| at_parameters := None; at_outputs := None; at_resources := None |}.

(** [StepRestCall]. [rc_operation] is [None] for the placeholder [{}] the
    loader leaves when it is told not to include operations. *)
Record StepRestCall : Type := mkStepRestCall {
  rc_step : string;
  rc_description : option string;
  rc_operationId : string;
  rc_operation : option Operation;
  rc_exampleFile : option string;
  rc_parameters : list (string * JsValue);
  rc_responses : list (string * JsValue);
  rc_responseAssertion : option JsValue;
  rc_outputVariables : option OutputVariables;
  rc_externalReference : option bool;
  rc_resolvedParameters : option (list (string * JsValue));
  rc_scope : VariableScope;
  rc_isPrepareStep : option bool;
  rc_isCleanUpStep : option bool;
}.

Record StepArmTemplate : Type := mkStepArmTemplate {
  arm_step : string;
  arm_outputVariables : option OutputVariables;
  arm_armTemplate : string;
  arm_armTemplatePayload : ArmTemplate;
  arm_scope : VariableScope;
  arm_isPrepareStep : option bool;
  arm_isCleanUpStep : option bool;
}.

(** [Step], discriminated by its [type] tag. *)
Inductive Step : Type :=
| restCall (s : StepRestCall)
| armTemplateDeployment (s : StepArmTemplate).

Definition step_name (s : Step) : string :=
  match s with
  | restCall s => rc_step s
  | armTemplateDeployment s => arm_step s
  end.

Definition step_variables (s : Step) : list (string * Variable_) :=
  match s with
  | restCall s => variables (rc_scope s)
  | armTemplateDeployment s => variables (arm_scope s)
  end.

Definition step_scope (s : Step) : VariableScope :=
  match s with
  | restCall s => rc_scope s
  | armTemplateDeployment s => arm_scope s
  end.

Definition step_outputVariables (s : Step) : option OutputVariables :=
  match s with
  | restCall s => rc_outputVariables s
  | armTemplateDeployment s => arm_outputVariables s
  end.

Inductive ScopeType : Type := ResourceGroup | Subscription | Tenant | NoScope.

#[global] Instance ScopeType_eq_dec : EqDecision ScopeType.
Proof. solve_decision. Defined.

Definition scopeTypeName (t : ScopeType) : string :=
  match t with
  | ResourceGroup => "ResourceGroup"
  | Subscription => "Subscription"
  | Tenant => "Tenant"
  | NoScope => "None"
  end.

(** [Scenario] and [ScenarioDefinition], over the representation [S] of a
    step: the step itself in the loader's output, a reference to the step
    object for the runner, which mutates steps. The back reference
    [_scenarioDef] of a scenario is not a property here (the two records
    would contain each other): a function that follows it takes the
    definition as an argument next to the scenario. *)
Record Scenario (S : Type) : Type := mkScenario {
  scenario : string;
  description : string;
  shareScope : bool;
  steps : list S;
  sc_scope : VariableScope;
}.
Arguments mkScenario {S}.
Arguments scenario {S}.
Arguments description {S}.
Arguments shareScope {S}.
Arguments steps {S}.
Arguments sc_scope {S}.

Record ScenarioDefinition (S : Type) : Type := mkScenarioDefinition {
  scope : ScopeType;
  prepareSteps : list S;
  scenarios : list (Scenario S);
  cleanUpSteps : list S;
  _filePath : string;
  _swaggerFilePaths : list string;
  def_scope : VariableScope;
}.
Arguments mkScenarioDefinition {S}.
Arguments scope {S}.
Arguments prepareSteps {S}.
Arguments scenarios {S}.
Arguments cleanUpSteps {S}.
Arguments _filePath {S}.
Arguments _swaggerFilePaths {S}.
Arguments def_scope {S}.

End Types.
Export Types.

(** ** The variable environment ([variableEnv]) *)

Module Env.

(** Modelled from the spec: the class [VariableEnv] of [./variableEnv], which
    is not among the sources. Section 4.1 of the specification: an
    environment is a layer with a reference to its parent; [get] walks from
    the current layer to the root; [set] binds or overwrites in the current
    layer only and a child never changes an ancestor. *)
Inductive VariableEnv : Type :=
| mkVariableEnv (data : list (string * Variable_)) (baseEnv : option VariableEnv).

Definition data (e : VariableEnv) : list (string * Variable_) :=
  match e with mkVariableEnv d _ => d end.

Definition baseEnv (e : VariableEnv) : option VariableEnv :=
  match e with mkVariableEnv _ b => b end.

(** [new VariableEnv(baseEnv)] *)
Definition newVariableEnv (base : option VariableEnv) : VariableEnv :=
  mkVariableEnv [] base.

Fixpoint get (e : VariableEnv) (key : string) : option Variable_ :=
  match e with
  | mkVariableEnv d b =>
      match lookupKey d key with
      | Some v => Some v
      | None => match b with Some b' => get b' key | None => None end
      end
  end.

Definition set (e : VariableEnv) (key : string) (v : Variable_) : VariableEnv :=
  mkVariableEnv (setKey (data e) key v) (baseEnv e).

(** [setBatch(values)] binds every entry of [values], in order, and returns
    the environment. *)
Definition setBatch (e : VariableEnv) (values : list (string * Variable_))
  : VariableEnv :=
  fold_left (fun e' kv => set e' kv.1 kv.2) values e.

(** The caller's top-level variables ([EnvironmentVariables]). *)
Definition EnvironmentVariables : Type := list (string * Variable_).

Definition setBatchEnv (e : VariableEnv) (vars : EnvironmentVariables)
  : VariableEnv :=
  setBatch e vars.

(** [getVariables()]: the entries of the current layer. *)
Definition getVariables (e : VariableEnv) : list (string * Variable_) := data e.

(** The layer after its variable objects were updated in place. *)
Definition withVariables (e : VariableEnv) (d : list (string * Variable_))
  : VariableEnv :=
  mkVariableEnv d (baseEnv e).

End Env.
Export Env.

(** ** Calls: a state transformer that returns or throws *)

Module Calls.

(** A call of a method on an object of state [S]: it returns or throws, and
    leaves the object in a new state either way. *)
Definition Call (S A : Type) : Type := S -> Result A * S.

Section Call.
Context {S : Type}.

Definition ret {A : Type} (a : A) : Call S A := fun st => (Ok a, st).

Definition throw {A : Type} (e : JsError) : Call S A := fun st => (Throw e, st).

Definition bind {A B : Type} (m : Call S A) (k : A -> Call S B) : Call S B :=
  fun st =>
    match m st with
    | (Ok a, st') => k a st'
    | (Throw e, st') => (Throw e, st')
    end.

(** [try { m } catch (e) { h e }] *)
Definition tryCatch {A : Type} (m : Call S A) (h : JsError -> Call S A) : Call S A :=
  fun st =>
    match m st with
    | (Ok a, st') => (Ok a, st')
    | (Throw e, st') => h e st'
    end.

(** [try { m } finally { f }]: [f] runs whatever [m] did, and an error
    thrown by [f] replaces the outcome of [m]. *)
Definition tryFinally {A : Type} (m : Call S A) (f : Call S unit) : Call S A :=
  fun st =>
    match m st with
    | (r, st') =>
        match f st' with
        | (Ok _, st'') => (r, st'')
        | (Throw e, st'') => (Throw e, st'')
        end
    end.

Definition liftResult {A : Type} (r : Result A) : Call S A := fun st => (r, st).

Definition this : Call S S := fun st => (Ok st, st).

Definition update (f : S -> S) : Call S unit := fun st => (Ok tt, f st).

End Call.

Declare Scope call_scope.
Delimit Scope call_scope with call.
Notation "'let*' x ':=' m 'in' k" := (bind m (fun x => k))
  (at level 10, x name, m at level 100, k at level 200) : call_scope.
Notation "m ';;' k" := (bind m (fun _ => k))
  (at level 100, k at level 200, right associativity) : call_scope.
Local Open Scope call_scope.

(** [for (const x of xs) { await f(x) }] *)
Fixpoint forOf {S A : Type} (xs : list A) (f : A -> Call S unit) : Call S unit :=
  match xs with
  | [] => ret tt
  | x :: xs' => f x ;; forOf xs' f
  end.

End Calls.
Export Calls.

(** ** The scenario runner ([ApiScenarioRunner]) *)

Module Runner.

(** References into the two heaps of the runner's state. *)
Abbreviation StepRef := nat.
Abbreviation ScopeRef := nat.

(** [Scope]. The TypeScript type gives [provisioned] as a boolean; what
    [doProvisionScope] stores there is the promise of the asynchronous
    builder, modelled by what it settled with. *)
Record Scope : Type := mkScope {
  provisioned : option (Result bool);
  scope_type : ScopeType;
  scope_prepareSteps : list StepRef;
  scope_cleanUpSteps : list StepRef;
  scope_env : VariableEnv;
}.

Definition set_provisioned (s : Scope) (p : Result bool) : Scope :=
  {| provisioned := Some p;
     scope_type := scope_type s;
     scope_prepareSteps := scope_prepareSteps s;
     scope_cleanUpSteps := scope_cleanUpSteps s;
     scope_env := scope_env s |}.

Record ApiScenarioClientRequest : Type := mkRequest {
  method : string;
  path : string;
  pathVariables : option (list (string * JsValue));
  headers : list (string * JsValue);
  query : list (string * JsValue);
  body : option JsValue;
}.

Record ArmDeploymentDetails : Type := mkArmDeploymentDetails {
  details_scope : string;
  subscriptionId : string;
  resourceGroupName : string;
}.

Record ArmDeployment : Type := mkArmDeployment {
  deploymentName : string;
  deployment_step : StepArmTemplate;
  details : ArmDeploymentDetails;
}.

(** A call of one of the five operations of [ApiScenarioRunnerClient], with
    its arguments. *)
Inductive ClientCall : Type :=
| prepareScenario (scenario : Scenario StepRef) (env : VariableEnv)
| createResourceGroup (subscriptionId resourceGroupName location : string)
| deleteResourceGroup (subscriptionId resourceGroupName : string)
| sendRestCallRequest (request : ApiScenarioClientRequest) (step : StepRestCall)
    (env : VariableEnv)
| sendArmTemplateDeployment (armTemplate : ArmTemplate)
    (armDeployment : ArmDeployment) (step : StepArmTemplate) (env : VariableEnv).

(** The log of a run: the entries into [executeStep] and [cleanUpScope], and
    the calls made to the client. The log is observation only; the runner
    never reads it. *)
Inductive Event : Type :=
| Enter_executeStep (step : StepRef)
| Enter_cleanUpScope (scope : ScopeRef)
| Client (call : ClientCall).

(** The collaborators of the runner that are not among the sources.
    - [client]: the [ApiScenarioRunnerClient] given to the constructor. A
      call is fulfilled ([None]) or rejected with an error; the answer may
      depend on everything that happened before. The client is taken not to
      change the objects it is handed.
    - [resolveRefObj]: [JsonLoader.resolveRefObj].
    - [getRandomString]: [getRandomString] of [../util/utils]; the argument
      counts the strings drawn before.
    - [getRequiredString], [resolve] and [resolveObjectValues] (one instance
      for each type it is applied at): methods of [VariableEnv] that look into
      the values of variables. *)
Class Collaborators : Type := {
  client : list Event -> ClientCall -> option JsError;
  resolveRefObj : Parameter_ -> Parameter_;
  getRandomString : nat -> string;
  getRequiredString : VariableEnv -> string -> Result string;
  resolve : VariableEnv -> Result VariableEnv;
  resolveRequest : VariableEnv -> ApiScenarioClientRequest -> Result ApiScenarioClientRequest;
  resolveParameters : VariableEnv -> list (string * JsValue) -> Result (list (string * JsValue));
  resolveArmTemplate : VariableEnv -> ArmTemplate -> Result ArmTemplate;
}.

(** The runner object: the private fields of the class (the client and the
    JSON loader are in [Collaborators]), then the state of the model: the two
    heaps, the number of random strings drawn, and the log. *)
Record ApiScenarioRunner : Type := mkRunner {
  env : EnvironmentVariables;
  scopeTracking : gmap string ScopeRef;
  resolveVariables : bool;
  skipCleanUp : bool;
  scopes : list Scope;
  stepObjects : list Step;
  randomCount : nat;
  trace : list Event;
}.

Definition with_scopeTracking (t : gmap string ScopeRef) (r : ApiScenarioRunner) :=
  mkRunner (env r) t (resolveVariables r) (skipCleanUp r) (scopes r)
    (stepObjects r) (randomCount r) (trace r).

Definition with_skipCleanUp (b : bool) (r : ApiScenarioRunner) :=
  mkRunner (env r) (scopeTracking r) (resolveVariables r) b (scopes r)
    (stepObjects r) (randomCount r) (trace r).

Definition with_scopes (h : list Scope) (r : ApiScenarioRunner) :=
  mkRunner (env r) (scopeTracking r) (resolveVariables r) (skipCleanUp r) h
    (stepObjects r) (randomCount r) (trace r).

Definition with_stepObjects (h : list Step) (r : ApiScenarioRunner) :=
  mkRunner (env r) (scopeTracking r) (resolveVariables r) (skipCleanUp r)
    (scopes r) h (randomCount r) (trace r).

Definition with_randomCount (n : nat) (r : ApiScenarioRunner) :=
  mkRunner (env r) (scopeTracking r) (resolveVariables r) (skipCleanUp r)
    (scopes r) (stepObjects r) n (trace r).

Definition with_trace (t : list Event) (r : ApiScenarioRunner) :=
  mkRunner (env r) (scopeTracking r) (resolveVariables r) (skipCleanUp r)
    (scopes r) (stepObjects r) (randomCount r) t.

(** The options of the constructor, without the collaborators. *)
Record ApiScenarioRunnerOption : Type := mkOption {
  opt_env : EnvironmentVariables;
  opt_resolveVariables : option bool;
  opt_skipCleanUp : option bool;
}.

(** The constructor; [steps] are the step objects that exist. *)
Definition constructor (opts : ApiScenarioRunnerOption) (steps : list Step)
  : ApiScenarioRunner :=
  {| env := opt_env opts;
     scopeTracking := ∅;
     resolveVariables := default true (opt_resolveVariables opts);
     skipCleanUp := default false (opt_skipCleanUp opts);
     scopes := [];
     stepObjects := steps;
     randomCount := 0;
     trace := [] |}.

Abbreviation M := (Call ApiScenarioRunner).
Local Open Scope call_scope.

Definition log (e : Event) : M unit :=
  update (fun st => with_trace (trace st ++ [e]) st).

(** *** The heaps *)

Definition readScope `{Engine} (l : ScopeRef) : M Scope :=
  fun st =>
    match scopes st !! l with
    | Some s => (Ok s, st)
    | None => (Throw (newError "no such scope object"), st)
    end.

Definition allocScope (s : Scope) : M ScopeRef :=
  fun st => (Ok (length (scopes st)), with_scopes (scopes st ++ [s]) st).

Definition readStep `{Engine} (l : StepRef) : M Step :=
  fun st =>
    match stepObjects st !! l with
    | Some s => (Ok s, st)
    | None => (Throw (newError "no such step object"), st)
    end.

Definition writeStep (l : StepRef) (s : Step) : M unit :=
  update (fun st => with_stepObjects (<[l := s]> (stepObjects st)) st).

Section Methods.
Context `{Engine} `{Collaborators}.

(** [await this.client.<operation>(...)]: the call is logged, and the client
    answers from what happened before it. *)
Definition await (call : ClientCall) : M unit :=
  fun st =>
    let st' := with_trace (trace st ++ [Client call]) st in
    match client (trace st) call with
    | None => (Ok tt, st')
    | Some e => (Throw e, st')
    end.

(** [getRandomString()] *)
Definition randomString : M string :=
  fun st => (Ok (getRandomString (randomCount st)),
             with_randomCount (S (randomCount st)) st).

(** [v === undefined] for an optional property. *)
Definition isUndefined (v : option JsValue) : bool :=
  match v with
  | None | Some JsUndefined => true
  | Some _ => false
  end.

Definition with_value (v : Variable_) (value : JsValue) : Variable_ :=
  {| v_type := v_type v; v_value := Some value; v_prefix := v_prefix v;
     v_patches := v_patches v |}.

(** The body of the loop of [generateValueFromPrefix], for one variable. *)
Definition generateValue (v : Variable_) : M Variable_ :=
  if String.eqb (v_type v) "string" || String.eqb (v_type v) "secureString" then
    match v_prefix v with
    | Some prefix =>
        if isUndefined (v_value v) then
          let* r := randomString in
          ret (with_value v (JsString (prefix +:+ r)))
        else ret v
    | None => ret v
    end
  else ret v.

Fixpoint generateValues (vars : list (string * Variable_))
  : M (list (string * Variable_)) :=
  match vars with
  | [] => ret []
  | (k, v) :: vars' =>
      let* v' := generateValue v in
      let* rest := generateValues vars' in
      ret ((k, v') :: rest)
  end.

(** [generateValueFromPrefix(env)]: the variables of the current layer are
    updated in place; the result is the environment that holds them. *)
Definition generateValueFromPrefix (env : VariableEnv) : M VariableEnv :=
  let* vars := generateValues (getVariables env) in
  ret (withVariables env vars).

(** [path.replace(/{([a-z0-9_$]+)}/gi, (_, p1) => `$(${p1})`)]: every
    [{name}] becomes [$(name)]. [pending] holds the characters read since an
    opening brace that may still start a match. *)
Fixpoint rewritePathFrom (pending : option string) (s : string) : string :=
  match s with
  | EmptyString =>
      match pending with
      | None => ""
      | Some run => "{" +:+ run
      end
  | String c s' =>
      match pending with
      | None =>
          if Ascii.eqb c "{" then rewritePathFrom (Some "") s'
          else String c (rewritePathFrom None s')
      | Some run =>
          if isPathVarChar c then rewritePathFrom (Some (run +:+ String c "")) s'
          else if Ascii.eqb c "}" && negb (String.eqb run "") then
            "$(" +:+ run +:+ ")" +:+ rewritePathFrom None s'
          else
            "{" +:+ run +:+
              (if Ascii.eqb c "{" then rewritePathFrom (Some "") s'
               else String c (rewritePathFrom None s'))
      end
  end.

Definition rewritePathTemplate (pathTemplate : string) : string :=
  rewritePathFrom None pathTemplate.

Definition with_pathVariables (r : ApiScenarioClientRequest) v :=
  mkRequest (method r) (path r) v (headers r) (query r) (body r).
Definition with_headers (r : ApiScenarioClientRequest) v :=
  mkRequest (method r) (path r) (pathVariables r) v (query r) (body r).
Definition with_query (r : ApiScenarioClientRequest) v :=
  mkRequest (method r) (path r) (pathVariables r) (headers r) v (body r).
Definition with_body (r : ApiScenarioClientRequest) v :=
  mkRequest (method r) (path r) (pathVariables r) (headers r) (query r) v.

(** The loop of [executeRestCallStep] over the parameters of the operation.
    [step.parameters] and the three dictionaries of the request are plain
    objects: a parameter that the step has no own value for is read from
    [Object.prototype] when it is named like one of its members. *)
Fixpoint fillRequest (step : StepRestCall) (params : list Parameter_)
    (req : ApiScenarioClientRequest) : M ApiScenarioClientRequest :=
  match params with
  | [] => ret req
  | p :: params' =>
      let param := resolveRefObj p in
      match readProp (rc_parameters step) (p_name param) with
      | JsUndefined =>
          if p_required param then
            throw (newError ("Parameter value for " +:+ String "034" (p_name param)
                             +:+ String "034" (" is not found in step: " +:+ rc_step step)))
          else fillRequest step params' req
      | paramVal =>
          if String.eqb (p_in param) "path" then
            match pathVariables req with
            | Some vars =>
                fillRequest step params'
                  (with_pathVariables req (Some (writeProp vars (p_name param) paramVal)))
            | None =>
                throw (newError "Cannot set properties of undefined")
            end
          else if String.eqb (p_in param) "query" then
            fillRequest step params'
              (with_query req (writeProp (query req) (p_name param) paramVal))
          else if String.eqb (p_in param) "header" then
            fillRequest step params'
              (with_headers req (writeProp (headers req) (p_name param) paramVal))
          else if String.eqb (p_in param) "body" then
            fillRequest step params' (with_body req (Some paramVal))
          else
            throw (newError ("Parameter " +:+ String "034" ("in" +:+ String "034"
                             (" not supported: " +:+ p_in param))))
      end
  end.

Definition with_resolvedParameters (s : StepRestCall) (v : list (string * JsValue))
  : StepRestCall :=
  mkStepRestCall (rc_step s) (rc_description s) (rc_operationId s)
    (rc_operation s) (rc_exampleFile s) (rc_parameters s) (rc_responses s)
    (rc_responseAssertion s) (rc_outputVariables s) (rc_externalReference s)
    (Some v) (rc_scope s) (rc_isPrepareStep s) (rc_isCleanUpStep s).

(** [executeRestCallStep(step, env)]; [ref] is the step object. *)
Definition executeRestCallStep (ref : StepRef) (step : StepRestCall)
    (env : VariableEnv) : M unit :=
  match rc_operation step with
  | None =>
      throw (newError "Cannot read properties of undefined (reading 'toUpperCase')")
  | Some operation =>
      let req :=
        {| method := toUpperCase (_method operation);
           path := rewritePathTemplate (_pathTemplate operation);
           pathVariables := Some [];
           headers := [];
           query := [];
           body := None |} in
      let* req := fillRequest step (default [] (op_parameters operation)) req in
      let* self := this in
      let* req :=
        (if resolveVariables self then liftResult (resolveRequest env req)
         else ret req) in
      await (sendRestCallRequest req step env) ;;
      if resolveVariables self && negb (bool_decide (is_Some (rc_resolvedParameters step)))
      then
        let* resolved := liftResult (resolveParameters env (rc_parameters step)) in
        writeStep ref (restCall (with_resolvedParameters step resolved))
      else ret tt
  end.

Definition with_armTemplatePayload (s : StepArmTemplate) (v : ArmTemplate)
  : StepArmTemplate :=
  mkStepArmTemplate (arm_step s) (arm_outputVariables s) (arm_armTemplate s) v
    (arm_scope s) (arm_isPrepareStep s) (arm_isCleanUpStep s).

(** [executeArmTemplateStep(step, env, scope)]. The deployment holds the step
    object itself, so the client sees in it the payload that was resolved
    after the deployment was built. *)
Definition executeArmTemplateStep (ref : StepRef) (step : StepArmTemplate)
    (env : VariableEnv) (scope : ScopeRef) : M unit :=
  let* subscriptionId := liftResult (getRequiredString env "subscriptionId") in
  let* resourceGroupName := liftResult (getRequiredString env "resourceGroupName") in
  let* r := randomString in
  let* sc := readScope scope in
  let* self := this in
  let* step :=
    (if resolveVariables self then
       let* payload := liftResult (resolveArmTemplate env (arm_armTemplatePayload step)) in
       let step' := with_armTemplatePayload step payload in
       writeStep ref (armTemplateDeployment step') ;;
       ret step'
     else ret step) in
  let armDeployment :=
    {| deploymentName := resourceGroupName +:+ "-deploy-" +:+ r;
       deployment_step := step;
       details :=
         {| details_scope := scopeTypeName (scope_type sc);
            subscriptionId := subscriptionId;
            resourceGroupName := resourceGroupName |} |} in
  await (sendArmTemplateDeployment (arm_armTemplatePayload step) armDeployment step env).

(** The line feed of the template string in [executeStep]. *)
Definition newline : string := String "010" "".

(** The step object with [vars] as its variables. *)
Definition with_step_variables (s : Step) (vars : list (string * Variable_)) : Step :=
  match s with
  | restCall rc =>
      restCall
        (mkStepRestCall (rc_step rc) (rc_description rc) (rc_operationId rc)
           (rc_operation rc) (rc_exampleFile rc) (rc_parameters rc) (rc_responses rc)
           (rc_responseAssertion rc) (rc_outputVariables rc) (rc_externalReference rc)
           (rc_resolvedParameters rc)
           (mkVariableScope vars (requiredVariables (rc_scope rc))
              (secretVariables (rc_scope rc)))
           (rc_isPrepareStep rc) (rc_isCleanUpStep rc))
  | armTemplateDeployment arm =>
      armTemplateDeployment
        (mkStepArmTemplate (arm_step arm) (arm_outputVariables arm) (arm_armTemplate arm)
           (arm_armTemplatePayload arm)
           (mkVariableScope vars (requiredVariables (arm_scope arm))
              (secretVariables (arm_scope arm)))
           (arm_isPrepareStep arm) (arm_isCleanUpStep arm))
  end.

(** The Variable objects [vars] after the layer that holds them was
    assigned values: the layer has each of them under its name. *)
Definition assigned (vars layer : list (string * Variable_))
  : list (string * Variable_) :=
  map (fun kv => (kv.1, default kv.2 (lookupKey layer kv.1))) vars.

(** [executeStep(step, env, scope)]. [setBatch(step.variables)] puts the
    Variable objects of the step themselves into the layer of the step, and
    [generateValueFromPrefix] assigns their [value] in place: the step object
    has the generated values from then on, and the client and a later
    execution of the step see them. *)
Definition executeStep (step : StepRef) (env : VariableEnv) (scope : ScopeRef)
  : M unit :=
  log (Enter_executeStep step) ;;
  let* s := readStep step in
  let stepEnv := setBatch (newVariableEnv (Some env)) (step_variables s) in
  let* stepEnv := generateValueFromPrefix stepEnv in
  let s := with_step_variables s (assigned (step_variables s) (getVariables stepEnv)) in
  writeStep step s ;;
  let* self := this in
  let* stepEnv :=
    (if resolveVariables self then liftResult (resolve stepEnv) else ret stepEnv) in
  tryCatch
    (match s with
     | restCall rc => executeRestCallStep step rc stepEnv
     | armTemplateDeployment arm => executeArmTemplateStep step arm stepEnv scope
     end)
    (fun error =>
       throw (newError ("Failed to execute step " +:+ step_name s +:+ ": "
                        +:+ message error +:+ " " +:+ newline +:+ stack error))).

(** Modelled from the spec: [getLazyBuilder] of [../util/lazyBuilder], which
    is not among the sources. Section 4.3 of the specification: the routine
    it returns runs the builder at most once for an object, however often it
    is invoked (idempotent by memoization); section 9: run once, remember the
    result, by checking and then setting a property of the object. Here the
    property is [provisioned] of a [Scope]: when it is undefined the builder
    runs and what it settles with is stored; otherwise the stored result is
    returned. *)
Definition getLazyBuilder (builder : ScopeRef -> M bool) (entity : ScopeRef)
  : M bool :=
  let* e := readScope entity in
  match provisioned e with
  | Some settled => liftResult settled
  | None =>
      fun st =>
        match builder entity st with
        | (r, st') =>
            (r, with_scopes (alter (fun e' => set_provisioned e' r) entity (scopes st')) st')
        end
  end.

(** The builder given to [getLazyBuilder] in [doProvisionScope]. *)
Definition provisionScope (scope : ScopeRef) : M bool :=
  let* sc := readScope scope in
  (if bool_decide (scope_type sc = ResourceGroup) then
     let* subscriptionId := liftResult (getRequiredString (scope_env sc) "subscriptionId") in
     let* resourceGroupName := liftResult (getRequiredString (scope_env sc) "resourceGroupName") in
     let* location := liftResult (getRequiredString (scope_env sc) "location") in
     await (createResourceGroup subscriptionId resourceGroupName location)
   else ret tt) ;;
  forOf (scope_prepareSteps sc) (fun step => executeStep step (scope_env sc) scope) ;;
  ret true.

Definition doProvisionScope : ScopeRef -> M bool := getLazyBuilder provisionScope.

(** The first line of [prepareScope]. *)
Definition scopeName (shared : bool) : M string :=
  if shared then ret "_defaultScope"
  else
    let* r := randomString in
    ret ("_randomScope_" +:+ r).

Definition with_scope_env (s : Scope) (e : VariableEnv) : Scope :=
  mkScope (provisioned s) (scope_type s) (scope_prepareSteps s)
    (scope_cleanUpSteps s) e.

(** The scope object that [prepareScope] builds for a name that is not
    tracked. *)
Definition newScope (self : ApiScenarioRunner)
    (scenarioDef : ScenarioDefinition StepRef) : Scope :=
  {| provisioned := None;
     scope_type := scope scenarioDef;
     scope_prepareSteps := prepareSteps scenarioDef;
     scope_cleanUpSteps := cleanUpSteps scenarioDef;
     scope_env :=
       setBatchEnv
         (newVariableEnv
            (Some (setBatch (newVariableEnv None) (variables (def_scope scenarioDef)))))
         (env self) |}.

(** The default of [resourceGroupName] in the environment of a new scope. *)
Definition defaultResourceGroupName (sc : Scope) : Scope :=
  match get (scope_env sc) "resourceGroupName" with
  | None =>
      with_scope_env sc
        (set (scope_env sc) "resourceGroupName"
           {| v_type := "string"; v_value := None;
              v_prefix := Some "apiTest-"; v_patches := None |})
  | Some _ => sc
  end.

(** [prepareScope(scenario)]; [scenarioDef] is [scenario._scenarioDef]. The
    scope object enters the heap when it is stored in [scopeTracking]: the
    object built before an unsupported scope type is reported is never
    reachable. *)
Definition prepareScope (scenarioDef : ScenarioDefinition StepRef)
    (scenario : Scenario StepRef) : M ScopeRef :=
  let* name := scopeName (shareScope scenario) in
  let* self := this in
  match scopeTracking self !! name with
  | Some scope => ret scope
  | None =>
      let sc := newScope self scenarioDef in
      if bool_decide (scope_type sc = NoScope) then
        throw (newError ("Scope is not supported yet: " +:+ scopeTypeName (scope_type sc)))
      else
        let sc := defaultResourceGroupName sc in
        let* scopeEnv := generateValueFromPrefix (scope_env sc) in
        let* scope := allocScope (with_scope_env sc scopeEnv) in
        update (fun st => with_scopeTracking (<[name := scope]> (scopeTracking st)) st) ;;
        ret scope
  end.

(** [cleanUpScope(scope)] *)
Definition cleanUpScope (scope : ScopeRef) : M unit :=
  log (Enter_cleanUpScope scope) ;;
  let* sc := readScope scope in
  forOf (scope_cleanUpSteps sc) (fun step => executeStep step (scope_env sc) scope) ;;
  if bool_decide (scope_type sc = ResourceGroup) then
    let* subscriptionId := liftResult (getRequiredString (scope_env sc) "subscriptionId") in
    let* resourceGroupName := liftResult (getRequiredString (scope_env sc) "resourceGroupName") in
    await (deleteResourceGroup subscriptionId resourceGroupName)
  else ret tt.

(** The loop over the steps of the scenario with its [catch] clause. *)
Definition runSteps (scenario : Scenario StepRef) (scenarioEnv : VariableEnv)
    (scope : ScopeRef) : M unit :=
  tryCatch
    (forOf (steps scenario) (fun step => executeStep step scenarioEnv scope))
    (fun e =>
       throw (newError ("Failed to execute scenario: " +:+ Types.scenario scenario
                        +:+ ": " +:+ message e))).

(** The [finally] clause of [executeScenario]. *)
Definition cleanUpUnlessSkipped (scope : ScopeRef) : M unit :=
  let* self := this in
  if skipCleanUp self then ret tt else cleanUpScope scope.

(** What [executeScenario] does before its [try] statement; it returns the
    scope and the environment of the scenario. *)
Definition startScenario (scenarioDef : ScenarioDefinition StepRef)
    (scenario : Scenario StepRef) : M (ScopeRef * VariableEnv) :=
  let* scope := prepareScope scenarioDef scenario in
  let* sc := readScope scope in
  let scenarioEnv :=
    setBatch (newVariableEnv (Some (scope_env sc))) (variables (sc_scope scenario)) in
  let* scenarioEnv := generateValueFromPrefix scenarioEnv in
  await (prepareScenario scenario scenarioEnv) ;;
  doProvisionScope scope ;;
  ret (scope, scenarioEnv).

(** [executeScenario(scenario)]; [scenarioDef] is [scenario._scenarioDef]. *)
Definition executeScenario (scenarioDef : ScenarioDefinition StepRef)
    (scenario : Scenario StepRef) : M unit :=
  let* started := startScenario scenarioDef scenario in
  tryFinally
    (runSteps scenario started.2 started.1)
    (cleanUpUnlessSkipped started.1).

(** [setSkipCleanUp(skipCleanUp)] *)
Definition setSkipCleanUp (skip : bool) : M unit :=
  update (with_skipCleanUp skip).

End Methods.

End Runner.

(** ** The scenario loader ([ApiScenarioLoader]) *)

Module Loader.

Local Open Scope call_scope.

(** *** The raw definition, as the YAML loader hands it over *)

Record RawStepBase : Type := mkRawStepBase {
  raw_step : option string;
  raw_description : option string;
  raw_outputVariables : option OutputVariables;
  raw_variables : option (list (string * RawVariable));
}.

Record RawStepOperation : Type := mkRawStepOperation {
  rso_base : RawStepBase;
  rso_operationId : string;
  readmeTag : option string;
  rso_parameters : option (list (string * JsValue));
  rso_responses : option JsValue;
}.

Record RawStepExample : Type := mkRawStepExample {
  rse_base : RawStepBase;
  exampleFile : string;
  requestUpdate : option (list JsonPatchOp);
  responseUpdate : option (list JsonPatchOp);
}.

Record RawStepArmTemplate : Type := mkRawStepArmTemplate {
  rst_base : RawStepBase;
  armTemplate : string;
}.

Record RawStepArmScript : Type := mkRawStepArmScript {
  rss_base : RawStepBase;
  armDeploymentScript : string;
  rss_arguments : option string;
  rss_environmentVariables : option (list (string * string));
}.

(** [RawStep]. The loader tells the four kinds apart by the key that is
    present; [RawStepOther] is an object with none of the four keys. *)
Inductive RawStep : Type :=
| RawOperation (s : RawStepOperation)
| RawExample (s : RawStepExample)
| RawArmTemplate (s : RawStepArmTemplate)
| RawArmScript (s : RawStepArmScript)
| RawStepOther (s : RawStepBase).

Record RawScenario : Type := mkRawScenario {
  rs_scenario : option string;
  rs_shareScope : option bool;
  rs_description : option string;
  rs_steps : list RawStep;
  rs_variables : option (list (string * RawVariable));
}.

Record RawScenarioDefinition : Type := mkRawScenarioDefinition {
  rd_scope : option ScopeType;
  rd_prepareSteps : option (list RawStep);
  rd_scenarios : list RawScenario;
  rd_cleanUpSteps : option (list RawStep);
  rd_variables : option (list (string * RawVariable));
}.

(** [SwaggerExample] of [swaggerTypes]: the content of an example file. *)
Record SwaggerExample : Type := mkSwaggerExample {
  ex_operationId : option string;
  ex_parameters : list (string * JsValue);
  ex_responses : list (string * JsValue);
}.

(** *** The loader object and the context of one load *)

Record AdditionalMaps : Type := mkAdditionalMaps {
  add_operationsMap : gmap string Operation;
  add_apiVersionsMap : gmap string string;
}.

(** The fields of the class that the step loaders read: the indexes that
    [initialize] built from the Swagger files, and the option
    [includeOperation]. [exampleToOperation] maps an example file to the
    object from operation ids to example names. *)
Record ApiScenarioLoader : Type := mkLoader {
  operationsMap : gmap string Operation;
  apiVersionsMap : gmap string string;
  exampleToOperation : gmap string (list (string * string));
  additionalMap : gmap string AdditionalMaps;
  includeOperation : bool;
  swaggerFilePaths : list string;
}.

Inductive Stage : Type := PrepareStage | ScenarioStage | CleanUpStage.

Definition stageName (s : Stage) : string :=
  match s with
  | PrepareStage => "prepare"
  | ScenarioStage => "scenario"
  | CleanUpStage => "cleanUp"
  end.

(** [ApiScenarioContext]. [stepTracking] is a [Map] from step names to steps
    of which only the keys are ever read. [stepIndex] is set when the context
    is built and is never undefined. *)
Record ApiScenarioContext : Type := mkContext {
  stepTracking : gset string;
  ctx_scenarioDef : ScenarioDefinition Step;
  ctx_scenario : option (Scenario Step);
  scenarioIndex : option nat;
  stepIndex : nat;
  stage : option Stage;
}.

(** The collaborators of the loader that are not among the sources.
    - [loadExample], [loadArmTemplate]: [fileLoader.load] followed by
      [JSON.parse]; [loadFile]: [fileLoader.load].
    - [pathJoin], [pathDirName]: of [openapi-tools-common].
    - [jsonPatchApply] of [./diffUtils], one instance for a dictionary and
      one for the value of a variable; [jsonMergePatchGenerate] and
      [jsonMergeApply] of [json-merge-patch]. Those that update their
      argument in place return it.
    - [resourceToResponse] of [BodyTransformer], from the body, the status
      code and the operation.
    - [exampleParameterConvention], [armTemplateParameterConvention] of
      [TemplateGenerator]: they update the step they are given.
    - [resolveRefObj] of [JsonLoader].
    - [armDeploymentScriptTemplate] of [./constants].
    - [stringify]: [JSON.stringify] of a raw step. *)
Class Collaborators : Type := {
  loadExample : string -> Result SwaggerExample;
  loadArmTemplate : string -> Result ArmTemplate;
  loadFile : string -> Result string;
  pathJoin : string -> string -> string;
  pathDirName : string -> string;
  jsonPatchApply :
    list (string * JsValue) -> list JsonPatchOp -> Result (list (string * JsValue));
  jsonPatchApplyValue : option JsValue -> list JsonPatchOp -> Result (option JsValue);
  jsonMergePatchGenerate : option JsValue -> JsValue -> JsValue;
  jsonMergeApply : JsValue -> JsValue -> JsValue;
  resourceToResponse : JsValue -> string -> Operation -> JsValue;
  exampleParameterConvention :
    StepRestCall -> (string -> option Variable_) -> Operation -> StepRestCall;
  armTemplateParameterConvention :
    StepArmTemplate -> (string -> option Variable_) -> StepArmTemplate;
  resolveRefObj : Parameter_ -> Parameter_;
  armDeploymentScriptTemplate : ArmTemplate;
  stringify : RawStep -> string;
}.

Abbreviation L := (Call ApiScenarioContext).

(** *** The helpers at the end of the file *)

Section Helpers.
Context `{Engine}.

Definition with_variables (s : VariableScope) v : VariableScope :=
  mkVariableScope v (requiredVariables s) (secretVariables s).
Definition with_requiredVariables (s : VariableScope) v : VariableScope :=
  mkVariableScope (variables s) v (secretVariables s).
Definition with_secretVariables (s : VariableScope) v : VariableScope :=
  mkVariableScope (variables s) (requiredVariables s) v.

(** [xs.push(x)] *)
Definition push {A : Type} (xs : list A) (x : A) : list A := xs ++ [x].

(** [[...new Set(xs)]]: the first occurrence of every element, in order. *)
Definition setOf (xs : list string) : list string :=
  fold_left (fun acc x => if includes acc x then acc else push acc x) xs [].

Definition isContainerType (t : string) : bool :=
  String.eqb t "object" || String.eqb t "secureObject" || String.eqb t "array".

(** The loop of [convertVariables]. *)
Fixpoint convertEntries (entries : list (string * RawVariable))
    (result : VariableScope) : Result VariableScope :=
  match entries with
  | [] => Ok result
  | (key, RawString val) :: entries' =>
      convertEntries entries'
        (with_variables result
           (setKey (variables result) key
              {| v_type := "string"; v_value := Some (JsString val);
                 v_prefix := None; v_patches := None |}))
  | (key, RawTyped val) :: entries' =>
      let result := with_variables result (setKey (variables result) key val) in
      let checked :=
        if Runner.isUndefined (v_value val) then
          if String.eqb (v_type val) "string" || String.eqb (v_type val) "secureString" then
            if Runner.isUndefined (v_value val) && negb (bool_decide (is_Some (v_prefix val)))
            then Ok (with_requiredVariables result (push (requiredVariables result) key))
            else Ok result
          else if isContainerType (v_type val) && bool_decide (is_Some (v_patches val))
          then Ok result
          else
            Throw (newError ("Only string and secureString type is supported in environment variables, please specify value for: " +:+ key))
        else Ok result in
      match checked with
      | Throw e => Throw e
      | Ok result =>
          convertEntries entries'
            (if String.eqb (v_type val) "secureString" || String.eqb (v_type val) "secureObject"
             then with_secretVariables result (push (secretVariables result) key)
             else result)
      end
  end.

Definition convertVariables (rawVariables : option (list (string * RawVariable)))
  : Result VariableScope :=
  convertEntries (default [] rawVariables)
    {| variables := []; requiredVariables := []; secretVariables := [] |}.

(** [declareOutputVariables(outputVariables, scope)]; an entry is a name and
    the optional [type] of the declaration. [scope.variables] is a plain
    object: the test [scope.variables[key] === undefined] fails also for a
    key that is inherited from [Object.prototype], which is then not
    declared. *)
Fixpoint declareOutputVariables (outputVariables : list (string * option string))
    (scope : VariableScope) : VariableScope :=
  match outputVariables with
  | [] => scope
  | (key, type) :: rest =>
      let scope :=
        if hasProp (variables scope) key then scope
        else
          with_variables scope
            (setKey (variables scope) key
               {| v_type := default "string" type; v_value := None;
                  v_prefix := None; v_patches := None |}) in
      let secure :=
        match type with
        | Some t =>
            String.eqb t "secureString" || String.eqb t "securestring"
            || String.eqb t "secureObject"
        | None => false
        end in
      declareOutputVariables rest
        (if secure then with_secretVariables scope (push (secretVariables scope) key)
         else scope)
  end.

End Helpers.

(** *** Updates of the objects the loader builds *)

Definition with_stepTracking (c : ApiScenarioContext) v :=
  mkContext v (ctx_scenarioDef c) (ctx_scenario c) (scenarioIndex c) (stepIndex c) (stage c).
Definition with_scenarioDef (c : ApiScenarioContext) v :=
  mkContext (stepTracking c) v (ctx_scenario c) (scenarioIndex c) (stepIndex c) (stage c).
Definition with_scenario (c : ApiScenarioContext) v :=
  mkContext (stepTracking c) (ctx_scenarioDef c) v (scenarioIndex c) (stepIndex c) (stage c).
Definition with_scenarioIndex (c : ApiScenarioContext) v :=
  mkContext (stepTracking c) (ctx_scenarioDef c) (ctx_scenario c) v (stepIndex c) (stage c).
Definition with_stepIndex (c : ApiScenarioContext) v :=
  mkContext (stepTracking c) (ctx_scenarioDef c) (ctx_scenario c) (scenarioIndex c) v (stage c).
Definition with_stage (c : ApiScenarioContext) v :=
  mkContext (stepTracking c) (ctx_scenarioDef c) (ctx_scenario c) (scenarioIndex c) (stepIndex c) v.

Definition with_sc_scope (x : Scenario Step) v : Scenario Step :=
  mkScenario (Types.scenario x) (description x) (shareScope x) (steps x) v.
Definition with_steps (x : Scenario Step) v : Scenario Step :=
  mkScenario (Types.scenario x) (description x) (shareScope x) v (sc_scope x).

Definition with_def_scope (d : ScenarioDefinition Step) v : ScenarioDefinition Step :=
  mkScenarioDefinition (scope d) (prepareSteps d) (scenarios d) (cleanUpSteps d)
    (_filePath d) (_swaggerFilePaths d) v.
Definition with_prepareSteps (d : ScenarioDefinition Step) v : ScenarioDefinition Step :=
  mkScenarioDefinition (scope d) v (scenarios d) (cleanUpSteps d)
    (_filePath d) (_swaggerFilePaths d) (def_scope d).
Definition with_cleanUpSteps (d : ScenarioDefinition Step) v : ScenarioDefinition Step :=
  mkScenarioDefinition (scope d) (prepareSteps d) (scenarios d) v
    (_filePath d) (_swaggerFilePaths d) (def_scope d).
Definition with_scenarios (d : ScenarioDefinition Step) v : ScenarioDefinition Step :=
  mkScenarioDefinition (scope d) (prepareSteps d) v (cleanUpSteps d)
    (_filePath d) (_swaggerFilePaths d) (def_scope d).

(** [ctx.scenario ?? ctx.scenarioDef], as a variable scope: the scope that
    owns what a step declares. *)
Definition owningScope (c : ApiScenarioContext) : VariableScope :=
  match ctx_scenario c with
  | Some x => sc_scope x
  | None => def_scope (ctx_scenarioDef c)
  end.

Definition with_owningScope (c : ApiScenarioContext) (v : VariableScope)
  : ApiScenarioContext :=
  match ctx_scenario c with
  | Some x => with_scenario c (Some (with_sc_scope x v))
  | None => with_scenarioDef c (with_def_scope (ctx_scenarioDef c) v)
  end.

Definition with_rc_scope (s : StepRestCall) v : StepRestCall :=
  mkStepRestCall (rc_step s) (rc_description s) (rc_operationId s)
    (rc_operation s) (rc_exampleFile s) (rc_parameters s) (rc_responses s)
    (rc_responseAssertion s) (rc_outputVariables s) (rc_externalReference s)
    (rc_resolvedParameters s) v (rc_isPrepareStep s) (rc_isCleanUpStep s).
Definition with_rc_step (s : StepRestCall) v : StepRestCall :=
  mkStepRestCall v (rc_description s) (rc_operationId s)
    (rc_operation s) (rc_exampleFile s) (rc_parameters s) (rc_responses s)
    (rc_responseAssertion s) (rc_outputVariables s) (rc_externalReference s)
    (rc_resolvedParameters s) (rc_scope s) (rc_isPrepareStep s) (rc_isCleanUpStep s).
Definition with_rc_description (s : StepRestCall) v : StepRestCall :=
  mkStepRestCall (rc_step s) v (rc_operationId s)
    (rc_operation s) (rc_exampleFile s) (rc_parameters s) (rc_responses s)
    (rc_responseAssertion s) (rc_outputVariables s) (rc_externalReference s)
    (rc_resolvedParameters s) (rc_scope s) (rc_isPrepareStep s) (rc_isCleanUpStep s).
Definition with_rc_operationId (s : StepRestCall) v : StepRestCall :=
  mkStepRestCall (rc_step s) (rc_description s) v
    (rc_operation s) (rc_exampleFile s) (rc_parameters s) (rc_responses s)
    (rc_responseAssertion s) (rc_outputVariables s) (rc_externalReference s)
    (rc_resolvedParameters s) (rc_scope s) (rc_isPrepareStep s) (rc_isCleanUpStep s).
Definition with_rc_operation (s : StepRestCall) v : StepRestCall :=
  mkStepRestCall (rc_step s) (rc_description s) (rc_operationId s)
    v (rc_exampleFile s) (rc_parameters s) (rc_responses s)
    (rc_responseAssertion s) (rc_outputVariables s) (rc_externalReference s)
    (rc_resolvedParameters s) (rc_scope s) (rc_isPrepareStep s) (rc_isCleanUpStep s).
Definition with_rc_exampleFile (s : StepRestCall) v : StepRestCall :=
  mkStepRestCall (rc_step s) (rc_description s) (rc_operationId s)
    (rc_operation s) v (rc_parameters s) (rc_responses s)
    (rc_responseAssertion s) (rc_outputVariables s) (rc_externalReference s)
    (rc_resolvedParameters s) (rc_scope s) (rc_isPrepareStep s) (rc_isCleanUpStep s).
Definition with_rc_parameters (s : StepRestCall) v : StepRestCall :=
  mkStepRestCall (rc_step s) (rc_description s) (rc_operationId s)
    (rc_operation s) (rc_exampleFile s) v (rc_responses s)
    (rc_responseAssertion s) (rc_outputVariables s) (rc_externalReference s)
    (rc_resolvedParameters s) (rc_scope s) (rc_isPrepareStep s) (rc_isCleanUpStep s).
Definition with_rc_responses (s : StepRestCall) v : StepRestCall :=
  mkStepRestCall (rc_step s) (rc_description s) (rc_operationId s)
    (rc_operation s) (rc_exampleFile s) (rc_parameters s) v
    (rc_responseAssertion s) (rc_outputVariables s) (rc_externalReference s)
    (rc_resolvedParameters s) (rc_scope s) (rc_isPrepareStep s) (rc_isCleanUpStep s).
Definition with_rc_responseAssertion (s : StepRestCall) v : StepRestCall :=
  mkStepRestCall (rc_step s) (rc_description s) (rc_operationId s)
    (rc_operation s) (rc_exampleFile s) (rc_parameters s) (rc_responses s)
    v (rc_outputVariables s) (rc_externalReference s)
    (rc_resolvedParameters s) (rc_scope s) (rc_isPrepareStep s) (rc_isCleanUpStep s).
Definition with_rc_externalReference (s : StepRestCall) v : StepRestCall :=
  mkStepRestCall (rc_step s) (rc_description s) (rc_operationId s)
    (rc_operation s) (rc_exampleFile s) (rc_parameters s) (rc_responses s)
    (rc_responseAssertion s) (rc_outputVariables s) v
    (rc_resolvedParameters s) (rc_scope s) (rc_isPrepareStep s) (rc_isCleanUpStep s).

(** [step.isPrepareStep = true] and [step.isCleanUpStep = true] *)
Definition markPrepareStep (s : Step) : Step :=
  match s with
  | restCall s =>
      restCall
        (mkStepRestCall (rc_step s) (rc_description s) (rc_operationId s)
           (rc_operation s) (rc_exampleFile s) (rc_parameters s) (rc_responses s)
           (rc_responseAssertion s) (rc_outputVariables s) (rc_externalReference s)
           (rc_resolvedParameters s) (rc_scope s) (Some true) (rc_isCleanUpStep s))
  | armTemplateDeployment s =>
      armTemplateDeployment
        (mkStepArmTemplate (arm_step s) (arm_outputVariables s) (arm_armTemplate s)
           (arm_armTemplatePayload s) (arm_scope s) (Some true) (arm_isCleanUpStep s))
  end.

Definition markCleanUpStep (s : Step) : Step :=
  match s with
  | restCall s =>
      restCall
        (mkStepRestCall (rc_step s) (rc_description s) (rc_operationId s)
           (rc_operation s) (rc_exampleFile s) (rc_parameters s) (rc_responses s)
           (rc_responseAssertion s) (rc_outputVariables s) (rc_externalReference s)
           (rc_resolvedParameters s) (rc_scope s) (rc_isPrepareStep s) (Some true))
  | armTemplateDeployment s =>
      armTemplateDeployment
        (mkStepArmTemplate (arm_step s) (arm_outputVariables s) (arm_armTemplate s)
           (arm_armTemplatePayload s) (arm_scope s) (arm_isPrepareStep s) (Some true))
  end.

(** *** The step loaders *)

Section StepLoaders.
Context `{Engine} `{Collaborators}.

(** [`${ctx.scenarioIndex ?? ctx.stage}_${ctx.stepIndex}`] *)
Definition positionName (ctx : ApiScenarioContext) : string :=
  match scenarioIndex ctx with
  | Some i => pretty i
  | None =>
      match stage ctx with
      | Some s => stageName s
      | None => "undefined"
      end
  end +:+ "_" +:+ pretty (stepIndex ctx).

(** [{ type: "string", value: `$(${name})` }] *)
Definition placeholder (name : string) : Variable_ :=
  {| v_type := "string"; v_value := Some (JsString ("$(" +:+ name +:+ ")"));
     v_prefix := None; v_patches := None |}.

Fixpoint firstVariable (scopes : list (option VariableScope)) (name : string)
  : option Variable_ :=
  match scopes with
  | [] => None
  | Some scope :: scopes' =>
      match lookupKey (variables scope) name with
      | Some v => Some v
      | None => firstVariable scopes' name
      end
  | None :: scopes' => firstVariable scopes' name
  end.

Definition someRequires (scopes : list (option VariableScope)) (name : string) : bool :=
  existsb
    (fun scope =>
       match scope with
       | Some scope => includes (requiredVariables scope) name
       | None => false
       end)
    scopes.

(** The closure [getVariable] of [loadStepRestCall]; [step] is the scope of
    the step being loaded, and an empty [scopes] stands for a call without
    scopes. *)
Definition getVariable (ctx : ApiScenarioContext) (step : VariableScope)
    (name : string) (scopes : list (option VariableScope)) : option Variable_ :=
  let scopes :=
    match scopes with
    | [] => [Some step; sc_scope <$> ctx_scenario ctx; Some (def_scope (ctx_scenarioDef ctx))]
    | _ => scopes
    end in
  match firstVariable scopes name with
  | Some v => Some v
  | None =>
      if someRequires scopes name then Some (placeholder name)
      else if
        (bool_decide (scope (ctx_scenarioDef ctx) = ResourceGroup)
         && includes ["subscriptionId"; "resourceGroupName"; "location"] name)
        || (bool_decide (scope (ctx_scenarioDef ctx) = Subscription)
            && includes ["subscriptionId"] name)
      then Some (placeholder name)
      else None
  end.

(** The closure [requireVariable] of [loadStepRestCall]. *)
Definition requireVariable (name : string) : L unit :=
  let* ctx := this in
  if bool_decide (scope (ctx_scenarioDef ctx) = ResourceGroup)
     && includes ["resourceGroupName"] name
  then ret tt
  else
    let owner := owningScope ctx in
    if includes (requiredVariables owner) name then ret tt
    else
      update (fun ctx =>
                with_owningScope ctx
                  (with_requiredVariables (owningScope ctx)
                     (push (requiredVariables (owningScope ctx)) name))).

(** [s ? ... : ...] on an optional string: undefined and the empty string
    are falsy. *)
Definition truthyString (s : option string) : bool :=
  match s with
  | Some s => negb (String.eqb s "")
  | None => false
  end.

(** The operations and the versions a raw operation step refers to. *)
Definition operationOf (self : ApiScenarioLoader) (tag : option string)
    (operationId : string) : option Operation :=
  if truthyString tag then
    additionalMap self !! default "" tag ≫= fun maps => add_operationsMap maps !! operationId
  else operationsMap self !! operationId.

(** [map.get(id)!] as a value of a parameter: undefined when the index has no
    entry. *)
Definition versionValue (v : option string) : JsValue :=
  match v with
  | Some v => JsString v
  | None => JsUndefined
  end.

Definition apiVersionOf (self : ApiScenarioLoader) (tag : option string)
    (operationId : string) : JsValue :=
  versionValue
    (if truthyString tag then
       additionalMap self !! default "" tag ≫= fun maps => add_apiVersionsMap maps !! operationId
     else apiVersionsMap self !! operationId).

(** The loop over [rawStep.variables] in the operation branch. *)
Fixpoint loadStepVariables (entries : list (string * RawVariable))
    (step : StepRestCall) : L StepRestCall :=
  match entries with
  | [] => ret step
  | (name, RawString value) :: entries' =>
      loadStepVariables entries'
        (with_rc_scope step
           (with_variables (rc_scope step)
              (setKey (variables (rc_scope step)) name
                 {| v_type := "string"; v_value := Some (JsString value);
                    v_prefix := None; v_patches := None |})))
  | (name, RawTyped value) :: entries' =>
      match (if isContainerType (v_type value) then v_patches value else None) with
      | Some patches =>
          let* ctx := this in
          let variable :=
            match ctx_scenario ctx with
            | Some x =>
                getVariable ctx (rc_scope step) name
                  [Some (sc_scope x); Some (def_scope (ctx_scenarioDef ctx))]
            | None =>
                getVariable ctx (rc_scope step) name
                  [Some (def_scope (ctx_scenarioDef ctx))]
            end in
          match variable with
          | None =>
              throw (newError ("Variable " +:+ name +:+ " not found in step " +:+ rc_step step))
          | Some obj =>
              let* patched := liftResult (jsonPatchApplyValue (v_value obj) patches) in
              loadStepVariables entries'
                (with_rc_scope step
                   (with_variables (rc_scope step)
                      (setKey (variables (rc_scope step)) name
                         {| v_type := v_type obj; v_value := patched;
                            v_prefix := v_prefix obj; v_patches := v_patches obj |})))
          end
      | None =>
          loadStepVariables entries'
            (with_rc_scope step
               (with_variables (rc_scope step)
                  (setKey (variables (rc_scope step)) name value)))
      end
  end.

Definition setParameter (step : StepRestCall) (name : string) (v : JsValue)
  : StepRestCall :=
  with_rc_parameters step (setKey (rc_parameters step) name v).

(** [v.value], a property that may be absent. *)
Definition valueOf (v : Variable_) : JsValue := default JsUndefined (v_value v).

(** The callback of [operation.parameters?.forEach] in the operation
    branch. *)
Fixpoint loadStepParameters (self : ApiScenarioLoader) (rawStep : RawStepOperation)
    (params : list Parameter_) (step : StepRestCall) : L StepRestCall :=
  match params with
  | [] => ret step
  | param :: params' =>
      let param := resolveRefObj param in
      if String.eqb (p_name param) "api-version" then
        loadStepParameters self rawStep params'
          (setParameter step "api-version"
             (apiVersionOf self (readmeTag rawStep) (rc_operationId step)))
      else if truthy (getProp (default [] (rso_parameters rawStep)) (p_name param)) then
        loadStepParameters self rawStep params'
          (setParameter step (p_name param)
             (getProp (default [] (rso_parameters rawStep)) (p_name param)))
      else
        let* ctx := this in
        match getVariable ctx (rc_scope step) (p_name param) [] with
        | Some v =>
            loadStepParameters self rawStep params'
              (setParameter step (p_name param)
                 (if String.eqb (p_in param) "body" then valueOf v
                  else JsString ("$(" +:+ p_name param +:+ ")")))
        | None =>
            if String.eqb (p_in param) "path" || p_required param then
              requireVariable (p_name param) ;;
              loadStepParameters self rawStep params'
                (setParameter step (p_name param)
                   (JsString ("$(" +:+ p_name param +:+ ")")))
            else loadStepParameters self rawStep params' step
        end
  end.

(** [getBodyParam(operation, jsonLoader)] *)
Definition pickParams (operation : Operation) (location : string)
  : option (list Parameter_) :=
  match op_parameters operation with
  | Some params =>
      Some (List.filter (fun resolvedObj => String.eqb (p_in resolvedObj) location)
              (map resolveRefObj params))
  | None => None
  end.

Definition getBodyParam (operation : Operation) : option Parameter_ :=
  pickParams operation "body" ≫= head.

(** The callback of [Object.keys(step.responses).forEach] in [applyPatches],
    for one status code. The callback is asynchronous and is not awaited: an
    error in it never reaches the loader. *)
Definition patchResponse (operation : Operation) (propertiesMergePatch : JsValue)
    (statusCode : string) (response : JsValue) : JsValue :=
  if String.leb "400" statusCode then response
  else
    match response with
    | JsObject props =>
        if truthy (getProp props "body") then
          JsObject
            (setKey props "body"
               (resourceToResponse
                  (jsonMergeApply (getProp props "body") propertiesMergePatch)
                  statusCode operation))
        else response
    | _ => response
    end.

(** [applyPatches(step, rawStep, operation)] *)
Definition applyPatches (step : StepRestCall) (rawStep : RawStepExample)
    (operation : Operation) : L StepRestCall :=
  let* step :=
    match requestUpdate rawStep with
    | Some patches =>
        let bodyParam := getBodyParam operation in
        let source :=
          (fun bodyParam => getProp (rc_parameters step) (p_name bodyParam)) <$> bodyParam in
        let* parameters := liftResult (jsonPatchApply (rc_parameters step) patches) in
        let step := with_rc_parameters step parameters in
        match bodyParam with
        | Some bodyParam =>
            if includes ["put"; "patch"] (_method operation) then
              let target := getProp (rc_parameters step) (p_name bodyParam) in
              let propertiesMergePatch := jsonMergePatchGenerate source target in
              ret (with_rc_responses step
                     (map (fun kv => (kv.1, patchResponse operation propertiesMergePatch kv.1 kv.2))
                        (rc_responses step)))
            else ret step
        | None => ret step
        end
    | None => ret step
    end in
  match responseUpdate rawStep with
  | Some patches =>
      let* responses := liftResult (jsonPatchApply (rc_responses step) patches) in
      ret (with_rc_responses step responses)
  | None => ret step
  end.

(** The statement under the comment [force update api-version] in the
    example branch. *)
Definition forceUpdateApiVersion (self : ApiScenarioLoader) (step : StepRestCall)
  : StepRestCall :=
  if truthy (getProp (rc_parameters step) "api-version") then
    setParameter step "api-version"
      (versionValue (apiVersionsMap self !! rc_operationId step))
  else step.

Definition operationNotFound (step : StepRestCall) (operationId : string) : JsError :=
  newError ("Operation not found for " +:+ operationId +:+ " in step " +:+ rc_step step).

Definition includeOperationIn (self : ApiScenarioLoader) (step : StepRestCall)
    (operation : Operation) : StepRestCall :=
  if includeOperation self then with_rc_operation step (Some operation) else step.

(** The operation an example step is for: the part of the example branch
    under the comment [Load Operation]. *)
Definition loadExampleOperation (self : ApiScenarioLoader) (step : StepRestCall)
    (exampleFilePath : string) (exampleFileContent : SwaggerExample)
  : L (StepRestCall * Operation) :=
  if truthyString (ex_operationId exampleFileContent) then
    let step := with_rc_operationId step (default "" (ex_operationId exampleFileContent)) in
    match operationsMap self !! rc_operationId step with
    | None => throw (operationNotFound step (rc_operationId step))
    | Some operation => ret (includeOperationIn self step operation, operation)
    end
  else
    match exampleToOperation self !! exampleFilePath with
    | None =>
        throw (newError ("Example file is not referenced by any operation: "
                         +:+ default "" (rc_exampleFile step)))
    | Some opMap =>
        let ops := keys opMap in
        if bool_decide (1 < length ops) then
          throw (newError ("Example file is referenced by multiple operation: "
                           +:+ String.concat "," ops +:+ " "
                           +:+ default "" (rc_exampleFile step)))
        else
          match ops with
          | [] => throw (operationNotFound step "undefined")
          | operationId :: _ =>
              let step := with_rc_operationId step operationId in
              let exampleName := lookupKey opMap operationId in
              match operationsMap self !! operationId with
              | None => throw (operationNotFound step operationId)
              | Some operation =>
                  let step := includeOperationIn self step operation in
                  ret (with_rc_description step
                         (match rc_description step with
                          | Some d => Some d
                          | None => exampleName
                          end),
                       operation)
              end
          end
    end.

Definition baseOfRestCall (rawStep : RawStepOperation + RawStepExample) : RawStepBase :=
  match rawStep with
  | inl s => rso_base s
  | inr s => rse_base s
  end.

(** The first statement of [loadStepRestCall]: a name that the raw step
    gives must not be tracked. *)
Definition checkStepName (name : option string) : L unit :=
  let* ctx := this in
  match name with
  | Some name =>
      if bool_decide (name ∈ stepTracking ctx) then
        throw (newError ("Duplicated step name: " +:+ name))
      else ret tt
  | None => ret tt
  end.

(** [loadStepRestCall(rawStep, ctx)] *)
Definition loadStepRestCall (self : ApiScenarioLoader)
    (rawStep : RawStepOperation + RawStepExample) : L StepRestCall :=
  let base := baseOfRestCall rawStep in
  checkStepName (raw_step base) ;;
  let* ctx := this in
  let* variableScope := liftResult (convertVariables (raw_variables base)) in
  let step :=
    {| rc_step := default (positionName ctx) (raw_step base);
       rc_description := raw_description base;
       rc_operationId := "";
       rc_operation := None;
       rc_exampleFile := None;
       rc_parameters := [];
       rc_responses := [];
       rc_responseAssertion := None;
       rc_outputVariables := Some (default [] (raw_outputVariables base));
       rc_externalReference := None;
       rc_resolvedParameters := None;
       rc_scope := variableScope;
       rc_isPrepareStep := None;
       rc_isCleanUpStep := None |} in
  update (fun ctx => with_stepTracking ctx ({[rc_step step]} ∪ stepTracking ctx)) ;;
  match rawStep with
  | inl rawStep =>
      let step := with_rc_operationId step (rso_operationId rawStep) in
      let step :=
        if truthyString (raw_step base) then step
        else with_rc_step step (rc_step step +:+ "_" +:+ rso_operationId rawStep) in
      match operationOf self (readmeTag rawStep) (rc_operationId step) with
      | None => throw (operationNotFound step (rc_operationId step))
      | Some operation =>
          let step :=
            if truthyString (readmeTag rawStep)
            then with_rc_externalReference step (Some true) else step in
          let step := includeOperationIn self step operation in
          let* step :=
            match raw_variables base with
            | Some entries => loadStepVariables entries step
            | None => ret step
            end in
          let* step :=
            loadStepParameters self rawStep (default [] (op_parameters operation)) step in
          ret (with_rc_responseAssertion step (rso_responses rawStep))
      end
  | inr rawStep =>
      let step := with_rc_exampleFile step (Some (exampleFile rawStep)) in
      let exampleFilePath :=
        pathJoin (pathDirName (_filePath (ctx_scenarioDef ctx))) (exampleFile rawStep) in
      let* exampleFileContent := liftResult (loadExample exampleFilePath) in
      let* loaded := loadExampleOperation self step exampleFilePath exampleFileContent in
      let step := with_rc_parameters loaded.1 (ex_parameters exampleFileContent) in
      let step := forceUpdateApiVersion self step in
      let step := with_rc_responses step (ex_responses exampleFileContent) in
      let* step := applyPatches step rawStep loaded.2 in
      let* ctx := this in
      ret (exampleParameterConvention step
             (fun name => getVariable ctx (rc_scope step) name []) loaded.2)
  end.

(** [getVariableFunction(step, ctx)] *)
Definition getVariableFunction (step : VariableScope) (ctx : ApiScenarioContext)
    (name : string) : option Variable_ :=
  match lookupKey (variables step) name with
  | Some v => Some v
  | None =>
      match ctx_scenario ctx ≫= fun x => lookupKey (variables (sc_scope x)) name with
      | Some v => Some v
      | None => lookupKey (variables (def_scope (ctx_scenarioDef ctx))) name
      end
  end.

(** The longest prefix of word characters, and what follows it. *)
Fixpoint takeWord (s : string) : string * string :=
  match s with
  | EmptyString => ("", "")
  | String c s' =>
      if isWordChar c then
        let (word, rest) := takeWord s' in (String c word, rest)
      else ("", s)
  end.

(** A match of [variableRegex] at the start of [s]: a dollar sign, an
    opening parenthesis, a letter, underscore or dollar sign, any number of
    letters, digits and underscores, and a closing parenthesis. The result
    is the group between the parentheses. *)
Definition matchVariableAt (s : string) : option string :=
  match s with
  | String "$" (String "(" (String c s')) =>
      if isIdentStart c then
        match takeWord s' with
        | (word, String ")" _) => Some (String c word)
        | _ => None
        end
      else None
  | _ => None
  end.

(** The groups of all matches of the regular expression in [s], from left
    to right. No match starts inside another one, so every position is
    tried. *)
Fixpoint variableReferences (s : string) : list string :=
  match s with
  | EmptyString => []
  | String _ s' =>
      match matchVariableAt s with
      | Some refKey => refKey :: variableReferences s'
      | None => variableReferences s'
      end
  end.

(** [isSecretVariable(variable, step, ctx)] *)
Definition isSecretVariable (variable : string) (step : VariableScope)
    (ctx : ApiScenarioContext) : bool :=
  existsb
    (fun refKey =>
       includes (secretVariables step) refKey
       || match ctx_scenario ctx with
          | Some x => includes (secretVariables (sc_scope x)) refKey
          | None => false
          end
       || includes (secretVariables (def_scope (ctx_scenarioDef ctx))) refKey)
    (variableReferences variable).

Definition typeError {A : Type} (message : string) : L A := throw (newError message).

(** The loop over [rawStep.environmentVariables]; [None] when the resource
    has no array to push to. *)
Fixpoint pushEnvironmentVariables (entries : list (string * string))
    (step : VariableScope) (ctx : ApiScenarioContext)
    (target : option (list ScriptEnvironmentVariable))
  : option (option (list ScriptEnvironmentVariable)) :=
  match entries with
  | [] => Some target
  | (name, value) :: entries' =>
      match target with
      | None => None
      | Some target =>
          pushEnvironmentVariables entries' step ctx
            (Some (push target
                     (if isSecretVariable value step ctx then
                        {| ev_name := name; ev_value := None; ev_secureValue := Some value |}
                      else
                        {| ev_name := name; ev_value := Some value; ev_secureValue := None |})))
      end
  end.

(** [loadStepArmDeploymentScript(rawStep, ctx)] *)
Definition loadStepArmDeploymentScript (self : ApiScenarioLoader)
    (rawStep : RawStepArmScript) : L StepArmTemplate :=
  let base := rss_base rawStep in
  let* ctx := this in
  let* variableScope := liftResult (convertVariables (raw_variables base)) in
  let name := default (positionName ctx +:+ "_ArmDeploymentScript") (raw_step base) in
  let payload := armDeploymentScriptTemplate in
  match at_resources payload with
  | None => typeError "Cannot read properties of undefined (reading '0')"
  | Some [] => typeError "Cannot set properties of undefined (setting 'name')"
  | Some (resource :: resources) =>
      match r_properties resource with
      | None => typeError "Cannot set properties of undefined"
      | Some properties =>
          let powershell := endsWith (armDeploymentScript rawStep) ".ps1" in
          let filePath :=
            pathJoin (pathDirName (_filePath (ctx_scenarioDef ctx)))
              (armDeploymentScript rawStep) in
          let* content := liftResult (loadFile filePath) in
          match
            pushEnvironmentVariables (default [] (rss_environmentVariables rawStep))
              variableScope ctx (environmentVariables properties)
          with
          | None => typeError "Cannot read properties of undefined (reading 'push')"
          | Some variables =>
              let properties :=
                {| arguments := rss_arguments rawStep;
                   azPowerShellVersion :=
                     if powershell then Some "6.2" else azPowerShellVersion properties;
                   azCliVersion :=
                     if powershell then azCliVersion properties else Some "2.0.80";
                   scriptContent := Some content;
                   environmentVariables := variables;
                   otherProperties := otherProperties properties |} in
              let resource :=
                {| r_name := name;
                   r_apiVersion := r_apiVersion resource;
                   r_type := r_type resource;
                   r_location := r_location resource;
                   r_kind := Some (if powershell then "AzurePowerShell" else "AzureCLI");
                   r_properties := Some properties |} in
              let step :=
                {| arm_step := name;
                   arm_outputVariables := Some (default [] (raw_outputVariables base));
                   arm_armTemplate := "";
                   arm_armTemplatePayload :=
                     {| at_parameters := at_parameters payload;
                        at_outputs := at_outputs payload;
                        at_resources := Some (resource :: resources) |};
                   arm_scope := variableScope;
                   arm_isPrepareStep := None;
                   arm_isCleanUpStep := None |} in
              ret (armTemplateParameterConvention step (getVariableFunction variableScope ctx))
          end
      end
  end.

(** The loop of [loadStepArmTemplate] over the parameters of the template.
    The three [variables] are plain objects: a parameter named like a member
    of [Object.prototype] is found in them ([variables[paramName] !==
    undefined]) and passed over. *)
Fixpoint requireTemplateParameters (params : list (string * ArmParameter))
    (step : StepArmTemplate) : L unit :=
  match params with
  | [] => ret tt
  | (paramName, param) :: params' =>
      let* ctx := this in
      let variableScope := owningScope ctx in
      if negb (Runner.isUndefined (defaultValue param))
         || hasProp (variables (arm_scope step)) paramName
         || hasProp (variables variableScope) paramName
         || hasProp (variables (def_scope (ctx_scenarioDef ctx))) paramName
      then requireTemplateParameters params' step
      else if negb (String.eqb (ap_type param) "string")
              && negb (String.eqb (ap_type param) "securestring")
              && negb (includes (requiredVariables variableScope) paramName)
      then
        throw (newError ("Only string and securestring type is supported in arm template params, please specify defaultValue for: " +:+ paramName))
      else
        update (fun ctx =>
                  with_owningScope ctx
                    (with_requiredVariables (owningScope ctx)
                       (push (requiredVariables (owningScope ctx)) paramName))) ;;
        requireTemplateParameters params' step
  end.

(** [loadStepArmTemplate(rawStep, ctx)] *)
Definition loadStepArmTemplate (self : ApiScenarioLoader)
    (rawStep : RawStepArmTemplate) : L StepArmTemplate :=
  let base := rst_base rawStep in
  let* ctx := this in
  let* variableScope := liftResult (convertVariables (raw_variables base)) in
  let filePath :=
    pathJoin (pathDirName (_filePath (ctx_scenarioDef ctx))) (armTemplate rawStep) in
  let* payload := liftResult (loadArmTemplate filePath) in
  let step :=
    {| arm_step := default (positionName ctx +:+ "_ArmTemplate") (raw_step base);
       arm_outputVariables := Some (default [] (raw_outputVariables base));
       arm_armTemplate := armTemplate rawStep;
       arm_armTemplatePayload := payload;
       arm_scope := variableScope;
       arm_isPrepareStep := None;
       arm_isCleanUpStep := None |} in
  match at_parameters payload with
  | Some params => requireTemplateParameters params step
  | None => ret tt
  end ;;
  match at_outputs payload with
  | Some outputs =>
      update (fun ctx =>
                with_owningScope ctx
                  (declareOutputVariables
                     (map (fun kv => (kv.1, Some (ao_type kv.2))) outputs)
                     (owningScope ctx)))
  | None => ret tt
  end ;;
  let* ctx := this in
  ret (armTemplateParameterConvention step (getVariableFunction variableScope ctx)).

(** [loadStep(rawStep, ctx)] *)
Definition loadStep (self : ApiScenarioLoader) (rawStep : RawStep) : L Step :=
  let* step :=
    tryCatch
      (match rawStep with
       | RawOperation s =>
           let* step := loadStepRestCall self (inl s) in ret (restCall step)
       | RawExample s =>
           let* step := loadStepRestCall self (inr s) in ret (restCall step)
       | RawArmTemplate s =>
           let* step := loadStepArmTemplate self s in ret (armTemplateDeployment step)
       | RawArmScript s =>
           let* step := loadStepArmDeploymentScript self s in
           ret (armTemplateDeployment step)
       | RawStepOther _ => throw (newError "Invalid step")
       end)
      (fun error =>
         throw (newError ("Failed to load step " +:+ stringify rawStep +:+ ": "
                          +:+ message error))) in
  match step_outputVariables step with
  | Some outputVariables =>
      update (fun ctx =>
                with_owningScope ctx
                  (declareOutputVariables
                     (map (fun kv => (kv.1, ov_type kv.2)) outputVariables)
                     (owningScope ctx)))
  | None => ret tt
  end ;;
  update (fun ctx => with_stepIndex ctx (S (stepIndex ctx))) ;;
  ret step.

(** [loadPrepareSteps(rawDef, ctx)] *)
Definition loadPrepareSteps (self : ApiScenarioLoader)
    (rawDef : RawScenarioDefinition) : L unit :=
  update (fun ctx => with_stepIndex (with_stage ctx (Some PrepareStage)) 0) ;;
  forOf (default [] (rd_prepareSteps rawDef))
    (fun rawStep =>
       let* step := loadStep self rawStep in
       update (fun ctx =>
                 with_scenarioDef ctx
                   (with_prepareSteps (ctx_scenarioDef ctx)
                      (push (prepareSteps (ctx_scenarioDef ctx)) (markPrepareStep step))))).

(** [loadCleanUpSteps(rawDef, ctx)] *)
Definition loadCleanUpSteps (self : ApiScenarioLoader)
    (rawDef : RawScenarioDefinition) : L unit :=
  update (fun ctx => with_stepIndex (with_stage ctx (Some CleanUpStage)) 0) ;;
  forOf (default [] (rd_cleanUpSteps rawDef))
    (fun rawStep =>
       let* step := loadStep self rawStep in
       update (fun ctx =>
                 with_scenarioDef ctx
                   (with_cleanUpSteps (ctx_scenarioDef ctx)
                      (push (cleanUpSteps (ctx_scenarioDef ctx)) (markCleanUpStep step))))).

(** The scenario object that [loadScenario] builds before it loads the
    steps. *)
Definition newScenario (rawScenario : RawScenario) (ctx : ApiScenarioContext)
    (variableScope : VariableScope) : Scenario Step :=
  {| Types.scenario :=
       default
         ("scenario_" +:+
            match scenarioIndex ctx with
            | Some i => pretty i
            | None => "undefined"
            end)
         (rs_scenario rawScenario);
     description := default "" (rs_description rawScenario);
     shareScope := default true (rs_shareScope rawScenario);
     steps := [];
     sc_scope :=
       with_requiredVariables variableScope
         (setOf (requiredVariables (def_scope (ctx_scenarioDef ctx))
                 ++ requiredVariables variableScope)) |}.

(** [loadScenario(rawScenario, ctx)]. The array [steps] is the [steps] of the
    scenario, and the scenario returned is the object in [ctx.scenario]. *)
Definition loadScenario (self : ApiScenarioLoader) (rawScenario : RawScenario)
  : L (Scenario Step) :=
  update (fun ctx => with_stage ctx (Some ScenarioStage)) ;;
  let* ctx := this in
  let* variableScope := liftResult (convertVariables (rs_variables rawScenario)) in
  let scenario := newScenario rawScenario ctx variableScope in
  update (fun ctx => with_stepIndex (with_scenario ctx (Some scenario)) 0) ;;
  forOf (rs_steps rawScenario)
    (fun rawStep =>
       let* step := loadStep self rawStep in
       update (fun ctx =>
                 with_scenario ctx
                   ((fun x => with_steps x (push (steps x) step)) <$> ctx_scenario ctx))) ;;
  let* ctx := this in
  ret (default scenario (ctx_scenario ctx)).

(** [set.add(x)] on the elements of a [Set] in insertion order. *)
Definition setAdd (xs : list string) (x : string) : list string :=
  if includes xs x then xs else push xs x.

(** The definition object that [load] builds before it loads the steps. *)
Definition newScenarioDefinition (self : ApiScenarioLoader) (filePath : string)
    (rawDef : RawScenarioDefinition) (variableScope : VariableScope)
  : ScenarioDefinition Step :=
  let scope := default ResourceGroup (rd_scope rawDef) in
  {| scope := scope;
     prepareSteps := [];
     scenarios := [];
     cleanUpSteps := [];
     _filePath := filePath;
     _swaggerFilePaths := swaggerFilePaths self;
     def_scope :=
       if bool_decide (scope = ResourceGroup ∨ scope = Subscription) then
         let required := setAdd (setOf (requiredVariables variableScope)) "subscriptionId" in
         with_requiredVariables variableScope
           (if bool_decide (scope = ResourceGroup) then setAdd required "location"
            else required)
       else variableScope |}.

(** The loop of [load] over the raw scenarios. *)
Definition loadScenarios (self : ApiScenarioLoader) (rawDef : RawScenarioDefinition)
  : L unit :=
  update (fun ctx => with_scenarioIndex ctx (Some 0)) ;;
  forOf (rd_scenarios rawDef)
    (fun rawScenario =>
       update (fun ctx => with_stepTracking ctx ∅) ;;
       let* scenario := loadScenario self rawScenario in
       update (fun ctx =>
                 with_scenarioIndex
                   (with_scenarioDef ctx
                      (with_scenarios (ctx_scenarioDef ctx)
                         (push (scenarios (ctx_scenarioDef ctx)) scenario)))
                   (S <$> scenarioIndex ctx))).

(** [load(filePath)], from the raw definition that the YAML loader returned
    for the file and after [initialize] built the indexes of [self];
    [filePath] is the path relative to the file loader's root. *)
Definition load (self : ApiScenarioLoader) (filePath : string)
    (rawDef : RawScenarioDefinition) : Result (ScenarioDefinition Step) :=
  match convertVariables (rd_variables rawDef) with
  | Throw e => Throw e
  | Ok variableScope =>
      let ctx :=
        {| stepTracking := ∅;
           ctx_scenarioDef := newScenarioDefinition self filePath rawDef variableScope;
           ctx_scenario := None;
           scenarioIndex := None;
           stepIndex := 0;
           stage := None |} in
      match
        (loadPrepareSteps self rawDef ;;
         loadCleanUpSteps self rawDef ;;
         loadScenarios self rawDef) ctx
      with
      | (Ok _, ctx) => Ok (ctx_scenarioDef ctx)
      | (Throw e, _) => Throw e
      end
  end.

End StepLoaders.

End Loader.

(** ** The vocabulary of the properties *)

Module Spec.

Import Runner.

(** A call keeps a relation between the state before and the state after,
    whatever it returns or throws. *)
Definition preserves {S A : Type} (R : S -> S -> Prop) (m : Call S A) : Prop :=
  forall st, R st (m st).2.

(** The steps that [executeStep] was entered for, in order. *)
Definition executed (events : list Event) : list StepRef :=
  omap (fun ev => match ev with Enter_executeStep s => Some s | _ => None end) events.

(** The two client operations that a step may call. *)
Definition isStepCall (ev : Event) : Prop :=
  match ev with
  | Client (sendRestCallRequest _ _ _) => True
  | Client (sendArmTemplateDeployment _ _ _ _) => True
  | _ => False
  end.

(** What the execution of steps adds to the log. *)
Definition isStepEvent (ev : Event) : Prop :=
  match ev with
  | Enter_executeStep _ => True
  | _ => isStepCall ev
  end.

(** An entry into [cleanUpScope], or a request to delete a resource group. *)
Definition isCleanUp (ev : Event) : Prop :=
  match ev with
  | Enter_cleanUpScope _ => True
  | Client (deleteResourceGroup _ _) => True
  | _ => False
  end.

(** What provisioning adds to the log. *)
Definition isProvisioning (ev : Event) : Prop :=
  match ev with
  | Client (createResourceGroup _ _ _) => True
  | _ => isStepEvent ev
  end.

(** The state after: the log grew by events that all satisfy [P]. *)
Definition logged (P : Event -> Prop) (st st' : ApiScenarioRunner) : Prop :=
  exists added, trace st' = trace st ++ added /\ Forall P added.

(** What a call inside a step can do to the runner: it leaves the scope
    objects, the registry and the switches alone, draws random strings, and
    logs events that satisfy [P]. *)
Definition effect (P : Event -> Prop) (st st' : ApiScenarioRunner) : Prop :=
  scopes st' = scopes st
  /\ scopeTracking st' = scopeTracking st
  /\ skipCleanUp st' = skipCleanUp st
  /\ resolveVariables st' = resolveVariables st
  /\ randomCount st <= randomCount st'
  /\ logged P st st'.

(** A string or secure string variable with a prefix and no value. *)
Definition awaitsValue (v : Variable_) (prefix : string) : Prop :=
  (v_type v = "string" \/ v_type v = "secureString")
  /\ v_prefix v = Some prefix
  /\ isUndefined (v_value v) = true.

(** Whether [generateValueFromPrefix] assigns the variable a value. *)
Definition needsValue (v : Variable_) : bool :=
  (String.eqb (v_type v) "string" || String.eqb (v_type v) "secureString")
  && bool_decide (is_Some (v_prefix v)) && isUndefined (v_value v).


(** The [provisioned] property of the scope object [l]. *)
Definition provisionedAt (st : ApiScenarioRunner) (l : ScopeRef)
  : option (Result bool) :=
  scopes st !! l ≫= provisioned.

(** The error carries the identity of the scenario: it is the one that the
    [catch] clause of [executeScenario] builds. *)
Definition wrappedWithScenario (name : string) (e : JsError) : Prop :=
  exists inner, message e = "Failed to execute scenario: " +:+ name +:+ ": " +:+ inner.

(** The error carries the identity of the step: it is the one that the
    [catch] clause of [executeStep] builds. *)
Definition wrappedWithStep (name : string) (e : JsError) : Prop :=
  exists inner, message e = "Failed to execute step " +:+ name +:+ ": " +:+ inner.

(** The name under which [prepareScope] looks the scope of a scenario up,
    when it is called in state [st]. *)
Definition scopeNameIn `{Collaborators} (scn : Scenario StepRef)
    (st : ApiScenarioRunner) : string :=
  match scopeName (shareScope scn) st with
  | (Ok name, _) => name
  | (Throw _, _) => ""
  end.

(** One use of the public interface of a runner, and the states a runner can
    be in. *)
Inductive runnerStep `{Engine} `{Collaborators}
  : ApiScenarioRunner -> ApiScenarioRunner -> Prop :=
| step_executeScenario st def scn :
    runnerStep st (executeScenario def scn st).2
| step_setSkipCleanUp st skip :
    runnerStep st (setSkipCleanUp skip st).2.


(** The invariant of the scope registry: a tracked name refers to a scope
    object that exists, two names never refer to one object, and a tracked
    name is the shared one or ends in a random string that was drawn. *)
Record registryOk `{Collaborators} (st : ApiScenarioRunner) : Prop := {
  tracked_exists :
    forall name l, scopeTracking st !! name = Some l -> l < length (scopes st);
  tracked_apart :
    forall name name' l,
      scopeTracking st !! name = Some l -> scopeTracking st !! name' = Some l ->
      name = name';
  tracked_named :
    forall name l, scopeTracking st !! name = Some l ->
      name = "_defaultScope"
      \/ exists i, i < randomCount st /\ name = "_randomScope_" +:+ getRandomString i;
}.

(** The registry only grows. *)
Definition grows `{Collaborators} (st st' : ApiScenarioRunner) : Prop :=
  scopeTracking st ⊆ scopeTracking st'
  /\ randomCount st <= randomCount st'
  /\ length (scopes st) <= length (scopes st')
  /\ (registryOk st -> registryOk st').

(** A scope object that is provisioned stays so, with the same result. *)
Definition staysProvisioned (st st' : ApiScenarioRunner) : Prop :=
  forall l p, provisionedAt st l = Some p -> provisionedAt st' l = Some p.

(** What a call of the runner can do to it. *)
Definition advances `{Collaborators} (P : Event -> Prop)
    (st st' : ApiScenarioRunner) : Prop :=
  grows st st' /\ staysProvisioned st st' /\ logged P st st'.

(** The scenario being loaded keeps its [shareScope] flag. *)
Definition keepsShareScope (ctx ctx' : Loader.ApiScenarioContext) : Prop :=
  shareScope <$> Loader.ctx_scenario ctx' = shareScope <$> Loader.ctx_scenario ctx.

(** The scenarios of a compiled definition, by what the properties look
    at: the required variables, and the names of the steps. *)
Definition requiredOf (r : Result (ScenarioDefinition Step)) : list (list string) :=
  match r with
  | Ok def => map (fun x => requiredVariables (sc_scope x)) (scenarios def)
  | Throw _ => []
  end.

Definition stepNamesOf (r : Result (ScenarioDefinition Step)) : list (list string) :=
  match r with
  | Ok def => map (fun x => map step_name (steps x)) (scenarios def)
  | Throw _ => []
  end.

End Spec.

(** ** Concrete collaborators and inputs *)

Module Fixtures.

Import Runner.

Definition engine : Engine := {| errorStack := fun message => "Error: " +:+ message |}.

(** A [getRequiredString] that reads string values as they are. *)
Definition requiredString (env : VariableEnv) (key : string) : Result string :=
  match v_value <$> get env key with
  | Some (Some (JsString s)) => Ok s
  | _ => Throw (@newError engine ("Variable is not defined: " +:+ key))
  end.

(** The collaborators of a runner around a given client; nothing is
    resolved and the random strings are the decimal numerals. *)
Definition collaborators (client : list Event -> ClientCall -> option JsError)
  : Collaborators :=
  {| client := client;
     resolveRefObj := fun p => p;
     getRandomString := pretty;
     getRequiredString := requiredString;
     resolve := Ok;
     resolveRequest := fun _ request => Ok request;
     resolveParameters := fun _ parameters => Ok parameters;
     resolveArmTemplate := fun _ template => Ok template |}.

Definition rejection : JsError := {| message := "boom"; stack := "at client" |}.

Definition accepting : list Event -> ClientCall -> option JsError := fun _ _ => None.

Definition rejectingCreate : list Event -> ClientCall -> option JsError :=
  fun _ call =>
    match call with
    | createResourceGroup _ _ _ => Some rejection
    | _ => None
    end.

Definition rejectingPrepare : list Event -> ClientCall -> option JsError :=
  fun _ call =>
    match call with
    | prepareScenario _ _ => Some rejection
    | _ => None
    end.

Definition rejectingStep (name : string) : list Event -> ClientCall -> option JsError :=
  fun _ call =>
    match call with
    | sendRestCallRequest _ step _ =>
        if String.eqb (rc_step step) name then Some rejection else None
    | _ => None
    end.

Definition noVariables : VariableScope :=
  {| variables := []; requiredVariables := []; secretVariables := [] |}.

Definition listOperation : Operation :=
  {| operationId := Some "Things_List";
     _method := "get";
     _pathTemplate := "/subscriptions/{subscriptionId}/things";
     op_parameters := Some [mkParameter "subscriptionId" "path" true];
     op_responses := [] |}.

Definition callStep (name : string) : Step :=
  restCall
    {| rc_step := name;
       rc_description := None;
       rc_operationId := "Things_List";
       rc_operation := Some listOperation;
       rc_exampleFile := None;
       rc_parameters := [("subscriptionId", JsString "$(subscriptionId)")];
       rc_responses := [];
       rc_responseAssertion := None;
       rc_outputVariables := Some [];
       rc_externalReference := None;
       rc_resolvedParameters := None;
       rc_scope := noVariables;
       rc_isPrepareStep := None;
       rc_isCleanUpStep := None |}.

(** The step objects: three steps of a scenario, a prepare step and a
    clean-up step. *)
Definition stepHeap : list Step :=
  [callStep "first"; callStep "second"; callStep "third"; callStep "prepare";
   callStep "cleanUp"].

Definition definition : ScenarioDefinition StepRef :=
  {| scope := ResourceGroup;
     prepareSteps := [3];
     scenarios := [];
     cleanUpSteps := [4];
     _filePath := "scenarios/things.yaml";
     _swaggerFilePaths := [];
     def_scope := noVariables |}.

Definition scenarioNamed (name : string) (shared : bool) : Scenario StepRef :=
  {| scenario := name;
     description := "";
     shareScope := shared;
     steps := [0; 1; 2];
     sc_scope := noVariables |}.

Definition stringVariable (value : string) : Variable_ :=
  {| v_type := "string"; v_value := Some (JsString value); v_prefix := None;
     v_patches := None |}.

Definition prefixVariable (prefix : string) : Variable_ :=
  {| v_type := "string"; v_value := None; v_prefix := Some prefix; v_patches := None |}.

Definition runner : ApiScenarioRunner :=
  constructor
    {| opt_env := [("subscriptionId", stringVariable "sub"); ("location", stringVariable "westus")];
       opt_resolveVariables := None;
       opt_skipCleanUp := None |}
    stepHeap.






(** What a call returned or threw, for the fixtures below. *)
Definition thrown {A : Type} (r : Result A) : JsError :=
  match r with
  | Throw e => e
  | Ok _ => {| message := ""; stack := "" |}
  end.

Definition returned {A : Type} (r : Result A) : option A :=
  match r with
  | Ok a => Some a
  | Throw _ => None
  end.

(** The runner after [prepareScope] stored the shared scope, and that
    scope. *)
Definition preparedRunner : ApiScenarioRunner :=
  (@prepareScope engine (collaborators accepting) definition
     (scenarioNamed "shared" true) runner).2.

Definition preparedScope : Scope :=
  default (newScope runner definition) (scopes preparedRunner !! 0).

(** The states of a run of a scenario whose second step is rejected. *)
Definition failingClient : Collaborators := collaborators (rejectingStep "second").

Definition started : Result (ScopeRef * VariableEnv) * ApiScenarioRunner :=
  @startScenario engine failingClient definition (scenarioNamed "S" true) runner.

Definition startedEnv : VariableEnv :=
  match started.1 with
  | Ok (_, env) => env
  | Throw _ => newVariableEnv None
  end.

Definition afterFirst : ApiScenarioRunner :=
  (@executeStep engine failingClient 0 startedEnv 0 started.2).2.

Definition afterSecond : Result unit * ApiScenarioRunner :=
  @executeStep engine failingClient 1 startedEnv 0 afterFirst.

(** *** For the loader *)

Definition template : ArmTemplate :=
  {| at_parameters := Some [("storageName", {| ap_type := "string"; defaultValue := None |})];
     at_outputs := None;
     at_resources := None |}.

(** An example file without an [api-version] parameter, and one with. *)
Definition exampleWithoutVersion : Loader.SwaggerExample :=
  {| Loader.ex_operationId := Some "Things_List";
     Loader.ex_parameters := [("subscriptionId", JsString "sub")];
     Loader.ex_responses := [] |}.

Definition exampleWithVersion : Loader.SwaggerExample :=
  {| Loader.ex_operationId := Some "Things_List";
     Loader.ex_parameters :=
       [("subscriptionId", JsString "sub"); ("api-version", JsString "2015-01-01")];
     Loader.ex_responses := [] |}.

(** The collaborators of a loader: three files exist, patches and
    conventions change nothing. *)
Definition loaderCollaborators : Loader.Collaborators :=
  {| Loader.loadExample :=
       fun path =>
         if String.eqb path "list.json" then Ok exampleWithoutVersion
         else if String.eqb path "listVersion.json" then Ok exampleWithVersion
         else Throw (@newError engine ("File not found: " +:+ path));
     Loader.loadArmTemplate :=
       fun path =>
         if String.eqb path "storage.json" then Ok template
         else Throw (@newError engine ("File not found: " +:+ path));
     Loader.loadFile := fun path => Throw (@newError engine ("File not found: " +:+ path));
     Loader.pathJoin := fun _ file => file;
     Loader.pathDirName := fun _ => "";
     Loader.jsonPatchApply := fun o _ => Ok o;
     Loader.jsonPatchApplyValue := fun v _ => Ok v;
     Loader.jsonMergePatchGenerate := fun _ target => target;
     Loader.jsonMergeApply := fun target _ => target;
     Loader.resourceToResponse := fun body _ _ => body;
     Loader.exampleParameterConvention := fun step _ _ => step;
     Loader.armTemplateParameterConvention := fun step _ => step;
     Loader.resolveRefObj := fun p => p;
     Loader.armDeploymentScriptTemplate := emptyArmTemplate;
     Loader.stringify := fun _ => "{...}" |}.

Definition versionedOperation : Operation :=
  {| operationId := Some "Things_List";
     _method := "get";
     _pathTemplate := "/subscriptions/{subscriptionId}/things";
     op_parameters :=
       Some [mkParameter "subscriptionId" "path" true; mkParameter "api-version" "query" true];
     op_responses := [] |}.

Definition loader : Loader.ApiScenarioLoader :=
  {| Loader.operationsMap := {["Things_List" := versionedOperation]};
     Loader.apiVersionsMap := {["Things_List" := "2020-01-01"]};
     Loader.exampleToOperation := ∅;
     Loader.additionalMap := ∅;
     Loader.includeOperation := true;
     Loader.swaggerFilePaths := [] |}.

Definition named (name : string) : Loader.RawStepBase :=
  {| Loader.raw_step := Some name;
     Loader.raw_description := None;
     Loader.raw_outputVariables := None;
     Loader.raw_variables := None |}.

Definition templateStep (name : string) : Loader.RawStep :=
  Loader.RawArmTemplate
    {| Loader.rst_base := named name; Loader.armTemplate := "storage.json" |}.

Definition exampleStep (name file : string) : Loader.RawStepExample :=
  {| Loader.rse_base := named name;
     Loader.exampleFile := file;
     Loader.requestUpdate := None;
     Loader.responseUpdate := None |}.

Definition operationStep (name : string) : Loader.RawStep :=
  Loader.RawOperation
    {| Loader.rso_base := named name;
       Loader.rso_operationId := "Things_List";
       Loader.readmeTag := None;
       Loader.rso_parameters := None;
       Loader.rso_responses := None |}.

Definition rawScenarioOf (rawSteps : list Loader.RawStep) : Loader.RawScenario :=
  {| Loader.rs_scenario := Some "deploy";
     Loader.rs_shareScope := None;
     Loader.rs_description := None;
     Loader.rs_steps := rawSteps;
     Loader.rs_variables := None |}.

Definition rawDefinitionOf (rawSteps : list Loader.RawStep) : Loader.RawScenarioDefinition :=
  {| Loader.rd_scope := None;
     Loader.rd_prepareSteps := None;
     Loader.rd_scenarios := [rawScenarioOf rawSteps];
     Loader.rd_cleanUpSteps := None;
     Loader.rd_variables := None |}.

Definition emptyStep : StepRestCall :=
  {| rc_step := "";
     rc_description := None;
     rc_operationId := "";
     rc_operation := None;
     rc_exampleFile := None;
     rc_parameters := [];
     rc_responses := [];
     rc_responseAssertion := None;
     rc_outputVariables := None;
     rc_externalReference := None;
     rc_resolvedParameters := None;
     rc_scope := noVariables;
     rc_isPrepareStep := None;
     rc_isCleanUpStep := None |}.

(** The context in which [load] loads the first scenario of a definition
    without variables and steps of its own. *)
Definition loadContext : Loader.ApiScenarioContext :=
  {| Loader.stepTracking := ∅;
     Loader.ctx_scenarioDef :=
       Loader.newScenarioDefinition loader "things.yaml" (rawDefinitionOf []) noVariables;
     Loader.ctx_scenario := None;
     Loader.scenarioIndex := Some 0;
     Loader.stepIndex := 0;
     Loader.stage := None |}.

(** The step loaded from the example file that has an [api-version]. *)
Definition loadedExample : Result StepRestCall * Loader.ApiScenarioContext :=
  @Loader.loadStepRestCall engine loaderCollaborators loader
    (inr (exampleStep "list" "listVersion.json")) loadContext.

Definition loadedStep : StepRestCall := default emptyStep (returned loadedExample.1).

(** The scenario loaded from a raw scenario without [shareScope]. *)
Definition loadedScenario : Result (Scenario Step) * Loader.ApiScenarioContext :=
  @Loader.loadScenario engine loaderCollaborators loader
    (rawScenarioOf [operationStep "list"]) loadContext.

Definition compiledScenario : Scenario Step :=
  default (mkScenario "" "" false [] noVariables) (returned loadedScenario.1).

End Fixtures.

(** ** The vocabulary of the further properties *)

Module Words.

(** Every character of [s] satisfies [p]. *)
Fixpoint allChars (p : ascii -> bool) (s : string) : bool :=
  match s with
  | EmptyString => true
  | String c s' => p c && allChars p s'
  end.

End Words.

Module RunnerSpec.

Import Runner Spec Words.

(** The number of variables among [vars] that [generateValueFromPrefix]
    assigns a value. *)
Definition awaiting (vars : list (string * Variable_)) : nat :=
  length (List.filter (fun kv => needsValue kv.2) vars).

(** The options that the constructor set are as they were. *)
Definition keepsOptions (st st' : ApiScenarioRunner) : Prop :=
  env st' = env st
  /\ resolveVariables st' = resolveVariables st
  /\ skipCleanUp st' = skipCleanUp st.

(** The requests to create or to delete a resource group, among the events
    of a log. *)
Definition isGroupRequest (ev : Event) : bool :=
  match ev with
  | Client (createResourceGroup _ _ _) | Client (deleteResourceGroup _ _) => true
  | _ => false
  end.

(** Those requests, in the order of the log. *)
Definition groupRequests (events : list Event) : list Event :=
  List.filter isGroupRequest events.

(** The deployment that [executeArmTemplateStep] hands to the client. *)
Definition deploymentOf (step : StepArmTemplate) (sc : Scope)
    (subscriptionId resourceGroupName suffix : string) : ArmDeployment :=
  {| deploymentName := resourceGroupName +:+ "-deploy-" +:+ suffix;
     deployment_step := step;
     details :=
       {| details_scope := scopeTypeName (scope_type sc);
          subscriptionId := subscriptionId;
          resourceGroupName := resourceGroupName |} |}.

(** Every step object but [ref] is as it was, and [ref], when its variables
    were [vars], still has these. *)
Definition keepsVariables (ref : StepRef) (vars : list (string * Variable_))
    (st st' : ApiScenarioRunner) : Prop :=
  (forall l, l <> ref -> stepObjects st' !! l = stepObjects st !! l)
  /\ (step_variables <$> stepObjects st !! ref = Some vars ->
      step_variables <$> stepObjects st' !! ref = Some vars).

(** No random string was drawn. *)
Definition keepsDraws (st st' : ApiScenarioRunner) : Prop :=
  randomCount st' = randomCount st.

(** A request to create a resource group. *)
Definition isCreate (ev : Event) : Prop :=
  match ev with
  | Client (createResourceGroup _ _ _) => True
  | _ => False
  end.

Section Requests.
Context `{Engine} `{Collaborators}.

(** The variables after [generateValueFromPrefix] went over them, when [n]
    random strings were drawn before: a variable that awaits a value gets its
    prefix followed by the next random string. *)
Fixpoint generated (n : nat) (vars : list (string * Variable_))
  : list (string * Variable_) :=
  match vars with
  | [] => []
  | (k, v) :: vars' =>
      if needsValue v then
        (k, with_value v (JsString (default "" (v_prefix v) +:+ getRandomString n)))
        :: generated (S n) vars'
      else (k, v) :: generated n vars'
  end.

(** The step object after [executeStep] generated the values of its
    variables, when [n] random strings were drawn before. *)
Definition stepAfter (s : Step) (n : nat) : Step :=
  with_step_variables s
    (assigned (step_variables s)
       (generated n (getVariables (setBatch (newVariableEnv None) (step_variables s))))).

(** The value that the step has for the parameter [p] of the operation. *)
Definition parameterValue (step : StepRestCall) (p : Parameter_) : JsValue :=
  readProp (rc_parameters step) (p_name (resolveRefObj p)).

(** [v === undefined] for a value. *)
Definition isJsUndefined (v : JsValue) : bool :=
  match v with JsUndefined => true | _ => false end.

(** The object [o] has, under [name], the value that the step gives
    [name]. *)
Definition holds (step : StepRestCall) (o : list (string * JsValue)) (name : string) : Prop :=
  lookupKey o name = Some (readProp (rc_parameters step) name).

(** Where the request has the value of the parameter [p]. *)
Definition placed (step : StepRestCall) (params : list Parameter_)
    (req : ApiScenarioClientRequest) (p : Parameter_) : Prop :=
  let param := resolveRefObj p in
  (p_in param = "path"
   /\ exists vars, pathVariables req = Some vars /\ holds step vars (p_name param))
  \/ (p_in param = "query" /\ holds step (query req) (p_name param))
  \/ (p_in param = "header" /\ holds step (headers req) (p_name param))
  \/ (p_in param = "body"
      /\ exists q, q ∈ params /\ p_in (resolveRefObj q) = "body"
                   /\ body req = Some (parameterValue step q)).

(** The request that [executeRestCallStep] starts from. *)
Definition emptyRequest (operation : Operation) : ApiScenarioClientRequest :=
  {| method := toUpperCase (_method operation);
     path := rewritePathTemplate (_pathTemplate operation);
     pathVariables := Some [];
     headers := [];
     query := [];
     body := None |}.

(** The three strings that [createResourceGroup] is called with. *)
Definition groupOf (sc : Scope) : Result (string * string * string) :=
  match getRequiredString (scope_env sc) "subscriptionId" with
  | Throw e => Throw e
  | Ok subscriptionId =>
      match getRequiredString (scope_env sc) "resourceGroupName" with
      | Throw e => Throw e
      | Ok resourceGroupName =>
          match getRequiredString (scope_env sc) "location" with
          | Throw e => Throw e
          | Ok location => Ok (subscriptionId, resourceGroupName, location)
          end
      end
  end.

End Requests.

End RunnerSpec.

Module LoaderSpec.

Import Loader Spec Words.
Local Open Scope call_scope.





(** An output variable whose type makes it a secret. *)
Definition secureOutput (type : option string) : bool :=
  match type with
  | Some t =>
      String.eqb t "secureString" || String.eqb t "securestring"
      || String.eqb t "secureObject"
  | None => false
  end.

(** The variable that [declareOutputVariables] declares for an output. *)
Definition outputVariable (type : option string) : Variable_ :=
  {| v_type := default "string" type; v_value := None; v_prefix := None;
     v_patches := None |}.

(** A variable scope only gained required variables, secret variables and
    declarations. *)
Definition scopeGrows (s s' : VariableScope) : Prop :=
  requiredVariables s `prefix_of` requiredVariables s'
  /\ secretVariables s `prefix_of` secretVariables s'
  /\ forall k v, lookupKey (variables s) k = Some v -> lookupKey (variables s') k = Some v.

(** A scenario, or a definition, is as it was but for its variable scope,
    which grew. *)
Definition scenarioGrows (x x' : Scenario Step) : Prop :=
  scenario x' = scenario x
  /\ description x' = description x
  /\ shareScope x' = shareScope x
  /\ steps x' = steps x
  /\ scopeGrows (sc_scope x) (sc_scope x').

Definition definitionGrows (d d' : ScenarioDefinition Step) : Prop :=
  scope d' = scope d
  /\ prepareSteps d' = prepareSteps d
  /\ scenarios d' = scenarios d
  /\ cleanUpSteps d' = cleanUpSteps d
  /\ _filePath d' = _filePath d
  /\ _swaggerFilePaths d' = _swaggerFilePaths d
  /\ scopeGrows (def_scope d) (def_scope d').

(** What loading steps may do to the context: names are tracked, the
    variable scopes of the definition and of the scenario grow, and [n] steps
    were counted. *)
Definition loaded (n : nat) (ctx ctx' : ApiScenarioContext) : Prop :=
  stepTracking ctx ⊆ stepTracking ctx'
  /\ definitionGrows (ctx_scenarioDef ctx) (ctx_scenarioDef ctx')
  /\ option_Forall2 scenarioGrows (ctx_scenario ctx) (ctx_scenario ctx')
  /\ scenarioIndex ctx' = scenarioIndex ctx
  /\ stepIndex ctx' = n + stepIndex ctx
  /\ stage ctx' = stage ctx.

(** The same before the step is counted. *)
Definition framed : ApiScenarioContext -> ApiScenarioContext -> Prop := loaded 0.

(** The name that a raw step gives itself, and whether [loadStep] hands it
    to [loadStepRestCall]. *)
Definition rawStepName (rawStep : RawStep) : option string :=
  raw_step
    match rawStep with
    | RawOperation s => rso_base s
    | RawExample s => rse_base s
    | RawArmTemplate s => rst_base s
    | RawArmScript s => rss_base s
    | RawStepOther s => s
    end.

Definition isRestCallStep (rawStep : RawStep) : bool :=
  match rawStep with
  | RawOperation _ | RawExample _ => true
  | _ => false
  end.

(** The role flags of a step. *)
Definition isPrepareStep (s : Step) : option bool :=
  match s with
  | restCall s => rc_isPrepareStep s
  | armTemplateDeployment s => arm_isPrepareStep s
  end.

Definition isCleanUpStep (s : Step) : option bool :=
  match s with
  | restCall s => rc_isCleanUpStep s
  | armTemplateDeployment s => arm_isCleanUpStep s
  end.

(** A definition is as it was but for steps and scenarios added at the end
    of its lists, and for its variable scope, which grew. *)
Definition definitionExtends (d d' : ScenarioDefinition Step)
    (prepare cleanUp : list Step) (added : list (Scenario Step)) : Prop :=
  scope d' = scope d
  /\ _filePath d' = _filePath d
  /\ _swaggerFilePaths d' = _swaggerFilePaths d
  /\ scopeGrows (def_scope d) (def_scope d')
  /\ prepareSteps d' = prepareSteps d ++ prepare
  /\ cleanUpSteps d' = cleanUpSteps d ++ cleanUp
  /\ scenarios d' = scenarios d ++ added.

(** What a loaded scenario has of its raw scenario. *)
Definition scenarioOf (required : list string) (rawScenario : RawScenario)
    (scn : Scenario Step) : Prop :=
  length (steps scn) = length (rs_steps rawScenario)
  /\ description scn = default "" (rs_description rawScenario)
  /\ shareScope scn = default true (rs_shareScope rawScenario)
  /\ (forall name, rs_scenario rawScenario = Some name -> scenario scn = name)
  /\ (forall name, name ∈ required -> name ∈ requiredVariables (sc_scope scn)).

(** The variables that [load] requires for the scope of a definition. *)
Definition builtinRequired (scope : ScopeType) : list string :=
  match scope with
  | ResourceGroup => ["subscriptionId"; "location"]
  | Subscription => ["subscriptionId"]
  | _ => []
  end.



(** A name that [variableRegex] accepts between [$(] and [)]. *)
Definition isIdentifier (name : string) : bool :=
  match name with
  | EmptyString => false
  | String c word => isIdentStart c && allChars isWordChar word
  end.

(** The name is a secret variable of the step, of the scenario being loaded
    or of the definition. *)
Definition secretIn (step : VariableScope) (ctx : ApiScenarioContext) (name : string) : bool :=
  includes (secretVariables step) name
  || match ctx_scenario ctx with
     | Some x => includes (secretVariables (sc_scope x)) name
     | None => false
     end
  || includes (secretVariables (def_scope (ctx_scenarioDef ctx))) name.

(** A parameter of a template that has no default value and that no variable
    of the step, of the owning scope or of the definition binds. *)
Definition unbound (step : StepArmTemplate) (ctx : ApiScenarioContext)
    (kv : string * ArmParameter) : bool :=
  Runner.isUndefined (defaultValue kv.2)
  && negb (hasProp (variables (arm_scope step)) kv.1)
  && negb (hasProp (variables (owningScope ctx)) kv.1)
  && negb (hasProp (variables (def_scope (ctx_scenarioDef ctx))) kv.1).

(** The context with [required] as the required variables of the owning
    scope. *)
Definition requiring (ctx : ApiScenarioContext) (required : list string)
  : ApiScenarioContext :=
  with_owningScope ctx (with_requiredVariables (owningScope ctx) required).

(** The two types of parameter that a template step may leave to the
    variables. *)
Definition isStringParameter (param : ArmParameter) : bool :=
  String.eqb (ap_type param) "string" || String.eqb (ap_type param) "securestring".

(** A response that the request update of an example step leaves alone: an
    error response, or a response without a body. *)
Definition keptResponse (statusCode : string) (response : JsValue) : bool :=
  String.leb "400" statusCode
  || match response with
     | JsObject props => negb (truthy (getProp props "body"))
     | _ => true
     end.

(** The entry that [loadStepArmDeploymentScript] pushes for an environment
    variable of the raw step. *)
Definition scriptVariable (step : VariableScope) (ctx : ApiScenarioContext)
    (kv : string * string) : ScriptEnvironmentVariable :=
  if isSecretVariable kv.2 step ctx then
    {| ev_name := kv.1; ev_value := None; ev_secureValue := Some kv.2 |}
  else
    {| ev_name := kv.1; ev_value := Some kv.2; ev_secureValue := None |}.

Section Loading.
Context `{Engine} `{Collaborators}.

(** The environment variables of the script resource of the template that
    [loadStepArmDeploymentScript] starts from. *)
Definition scriptTemplateVariables : option (list ScriptEnvironmentVariable) :=
  match at_resources armDeploymentScriptTemplate with
  | Some (resource :: _) =>
      match r_properties resource with
      | Some properties => environmentVariables properties
      | None => None
      end
  | _ => None
  end.

(** Whether [requireVariable] leaves the name out: the resource group of a
    definition of that scope is never asked for. *)
Definition exempt (ctx : ApiScenarioContext) (name : string) : bool :=
  bool_decide (scope (ctx_scenarioDef ctx) = ResourceGroup)
  && includes ["resourceGroupName"] name.

(** The loader that [loadStep] picks for a raw step. *)
Definition dispatch (self : ApiScenarioLoader) (rawStep : RawStep) : L Step :=
  match rawStep with
  | RawOperation s => let* step := loadStepRestCall self (inl s) in ret (restCall step)
  | RawExample s => let* step := loadStepRestCall self (inr s) in ret (restCall step)
  | RawArmTemplate s =>
      let* step := loadStepArmTemplate self s in ret (armTemplateDeployment step)
  | RawArmScript s =>
      let* step := loadStepArmDeploymentScript self s in ret (armTemplateDeployment step)
  | RawStepOther _ => throw (newError "Invalid step")
  end.

(** The context after [loadStep] declared the output variables of the step
    and counted it. *)
Definition counted (step : Step) (ctx : ApiScenarioContext) : ApiScenarioContext :=
  let ctx :=
    match step_outputVariables step with
    | Some outputVariables =>
        with_owningScope ctx
          (declareOutputVariables (map (fun kv => (kv.1, ov_type kv.2)) outputVariables)
             (owningScope ctx))
    | None => ctx
    end in
  with_stepIndex ctx (S (stepIndex ctx)).

(** The body of the loop of [loadScenario]. *)
Definition loadScenarioStep (self : ApiScenarioLoader) (rawStep : RawStep) : L unit :=
  let* step := loadStep self rawStep in
  update (fun ctx =>
            with_scenario ctx
              ((fun x => with_steps x (push (steps x) step)) <$> ctx_scenario ctx)).

Definition loadPrepareStep (self : ApiScenarioLoader) (rawStep : RawStep) : L unit :=
  let* step := loadStep self rawStep in
  update (fun ctx =>
            with_scenarioDef ctx
              (with_prepareSteps (ctx_scenarioDef ctx)
                 (push (prepareSteps (ctx_scenarioDef ctx)) (markPrepareStep step)))).

Definition loadCleanUpStep (self : ApiScenarioLoader) (rawStep : RawStep) : L unit :=
  let* step := loadStep self rawStep in
  update (fun ctx =>
            with_scenarioDef ctx
              (with_cleanUpSteps (ctx_scenarioDef ctx)
                 (push (cleanUpSteps (ctx_scenarioDef ctx)) (markCleanUpStep step)))).

Definition loadScenarioOf (self : ApiScenarioLoader) (rawScenario : RawScenario) : L unit :=
  update (fun ctx => with_stepTracking ctx ∅) ;;
  let* scenario := loadScenario self rawScenario in
  update (fun ctx =>
            with_scenarioIndex
              (with_scenarioDef ctx
                 (with_scenarios (ctx_scenarioDef ctx)
                    (push (scenarios (ctx_scenarioDef ctx)) scenario)))
              (S <$> scenarioIndex ctx)).


End Loading.

End LoaderSpec.

(** ** More inputs *)

Module RunnerCases.

Import Runner Fixtures.

Definition restCallOf (s : Step) : StepRestCall :=
  match s with
  | restCall c => c
  | armTemplateDeployment _ => emptyStep
  end.

Definition firstCall : StepRestCall := restCallOf (callStep "first").

(** A step that gives its operation no parameter. *)
Definition bareCall : StepRestCall :=
  mkStepRestCall "bare" None "Things_List" (Some listOperation) None [] [] None (Some [])
    None None noVariables None None.

Definition deployStep : StepArmTemplate :=
  mkStepArmTemplate "deploy" (Some []) "storage.json" template noVariables None None.

(** The runner after [startScenario] on a new runner, with a client that
    accepts every call; the environment of the scenario and the scope. *)
Definition ready : Result (ScopeRef * VariableEnv) * ApiScenarioRunner :=
  @startScenario engine (collaborators accepting) definition (scenarioNamed "S" true) runner.

Definition readyEnv : VariableEnv :=
  match ready.1 with
  | Ok (_, env) => env
  | Throw _ => newVariableEnv None
  end.

Definition readyScope : Scope := default preparedScope (scopes ready.2 !! 0).

(** The first step of the scenario, executed on its own and within
    [executeStep], and a deployment. *)
Definition sent : Result unit * ApiScenarioRunner :=
  @executeRestCallStep engine (collaborators accepting) 0 firstCall readyEnv ready.2.

Definition ran : Result unit * ApiScenarioRunner :=
  @executeStep engine (collaborators accepting) 0 readyEnv 0 ready.2.

Definition deployed : Result unit * ApiScenarioRunner :=
  @executeArmTemplateStep engine (collaborators accepting) 0 deployStep readyEnv 0 ready.2.

(** A step with a variable that awaits a generated value, a runner that
    has this step object only, and the step executed on it. *)
Definition namingStep : Step :=
  with_step_variables (callStep "naming") [("name", prefixVariable "thing")].

Definition naming : ApiScenarioRunner := with_stepObjects [namingStep] ready.2.

Definition named : Result unit * ApiScenarioRunner :=
  @executeStep engine (collaborators accepting) 0 readyEnv 0 naming.

(** A runner told to skip the clean-up. *)
Definition skipping : ApiScenarioRunner := (setSkipCleanUp true runner).2.

(** The runner after a scenario whose resource group the client refused to
    create, and after a scenario that succeeded. *)
Definition rejected : ApiScenarioRunner :=
  (@executeScenario engine (collaborators rejectingCreate) definition
     (scenarioNamed "S" true) runner).2.

Definition finished : Result unit * ApiScenarioRunner :=
  @executeScenario engine (collaborators accepting) definition (scenarioNamed "S" true)
    runner.

(** A definition of scope [None]. *)
Definition unscoped : ScenarioDefinition StepRef :=
  mkScenarioDefinition NoScope [3] [] [4] "scenarios/things.yaml" [] noVariables.

End RunnerCases.

Module LoaderCases.

Import Loader Fixtures.

(** An operation step loaded in the context of the fixtures. *)
Definition loadedList : Result Step * ApiScenarioContext :=
  @loadStep engine loaderCollaborators loader (operationStep "list") loadContext.

Definition listStep : Step := default (restCall emptyStep) (returned loadedList.1).

(** A definition of one scenario of one operation step, loaded. *)
Definition compiled : Result (ScenarioDefinition Step) :=
  @load engine loaderCollaborators loader "things.yaml"
    (rawDefinitionOf [operationStep "list"]).

Definition compiledDefinition : ScenarioDefinition Step :=
  default (ctx_scenarioDef loadContext) (returned compiled).




(** A template step. *)
Definition storageStep : RawStepArmTemplate :=
  {| rst_base := named "storage"; armTemplate := "storage.json" |}.

Definition loadedStorage : Result StepArmTemplate * ApiScenarioContext :=
  @loadStepArmTemplate engine loaderCollaborators loader storageStep loadContext.

Definition storageLoaded : StepArmTemplate :=
  default
    (mkStepArmTemplate "" None "" emptyArmTemplate noVariables None None)
    (returned loadedStorage.1).

(** A script step with a secret of its own. *)
Definition scriptTemplate : ArmTemplate :=
  {| at_parameters := None;
     at_outputs := None;
     at_resources :=
       Some [{| r_name := "";
                r_apiVersion := "2020-10-01";
                r_type := "Microsoft.Resources/deploymentScripts";
                r_location := None;
                r_kind := None;
                r_properties :=
                  Some {| arguments := None;
                          azPowerShellVersion := None;
                          azCliVersion := None;
                          scriptContent := None;
                          environmentVariables := Some [];
                          otherProperties := [] |} |}] |}.

(** The collaborators of a loader that has a template for scripts and one
    script file. *)
Definition scriptCollaborators : Collaborators :=
  {| loadExample := @loadExample loaderCollaborators;
     loadArmTemplate := @loadArmTemplate loaderCollaborators;
     loadFile :=
       fun path =>
         if String.eqb path "seed.ps1" then Ok "Write-Output seeded"
         else Throw (@newError engine ("File not found: " +:+ path));
     pathJoin := @pathJoin loaderCollaborators;
     pathDirName := @pathDirName loaderCollaborators;
     jsonPatchApply := @jsonPatchApply loaderCollaborators;
     jsonPatchApplyValue := @jsonPatchApplyValue loaderCollaborators;
     jsonMergePatchGenerate := @jsonMergePatchGenerate loaderCollaborators;
     jsonMergeApply := @jsonMergeApply loaderCollaborators;
     resourceToResponse := @resourceToResponse loaderCollaborators;
     exampleParameterConvention := @exampleParameterConvention loaderCollaborators;
     armTemplateParameterConvention := @armTemplateParameterConvention loaderCollaborators;
     resolveRefObj := @resolveRefObj loaderCollaborators;
     armDeploymentScriptTemplate := scriptTemplate;
     stringify := @stringify loaderCollaborators |}.

Definition seedStep : RawStepArmScript :=
  {| rss_base :=
       {| raw_step := Some "seed";
          raw_description := None;
          raw_outputVariables := None;
          raw_variables :=
            Some [("password",
                   RawTyped {| v_type := "secureString"; v_value := Some (JsString "s3cret");
                               v_prefix := None; v_patches := None |})] |};
     armDeploymentScript := "seed.ps1";
     rss_arguments := None;
     rss_environmentVariables :=
       Some [("PASSWORD", "$(password)"); ("REGION", "$(location)")] |}.

Definition loadedSeed : Result StepArmTemplate * ApiScenarioContext :=
  @loadStepArmDeploymentScript engine scriptCollaborators loader seedStep loadContext.

Definition seedLoaded : StepArmTemplate :=
  default (mkStepArmTemplate "" None "" emptyArmTemplate noVariables None None)
    (returned loadedSeed.1).

(** A step for an operation that the index does not have. *)
Definition unknownStep : RawStepOperation :=
  {| rso_base := named "purge";
     rso_operationId := "Things_Purge";
     readmeTag := None;
     rso_parameters := None;
     rso_responses := None |}.

(** An example step of a [put] operation, with a request update. *)
Definition putOperation : Operation :=
  {| operationId := Some "Things_Put";
     _method := "put";
     _pathTemplate := "/things/{name}";
     op_parameters := Some [mkParameter "name" "path" true; mkParameter "thing" "body" true];
     op_responses := [] |}.

Definition putStep : StepRestCall :=
  mkStepRestCall "put" None "Things_Put" (Some putOperation) (Some "put.json")
    [("name", JsString "a"); ("thing", JsObject [])]
    [("200", JsObject [("body", JsObject [])]); ("404", JsObject [("body", JsObject [])])]
    None (Some []) None None noVariables None None.

Definition putUpdate : RawStepExample :=
  {| rse_base := named "put";
     exampleFile := "put.json";
     requestUpdate := Some [];
     responseUpdate := None |}.

Definition patched : Result StepRestCall * ApiScenarioContext :=
  @applyPatches loaderCollaborators putStep putUpdate putOperation loadContext.

Definition putPatched : StepRestCall := default emptyStep (returned patched.1).

End LoaderCases.

(** * Properties *)

(** ** Calls that keep a relation *)

Module CallFacts.

Import Spec.
Local Open Scope call_scope.

Section Preserves.
Context {S : Type} (R : S -> S -> Prop) `{!Reflexive R} `{!Transitive R}.

Lemma preserves_ret {A : Type} (a : A) : preserves R (ret a).
Proof. intros st. apply reflexivity. Qed.

Lemma preserves_throw {A : Type} (e : JsError) : preserves R (@throw S A e).
Proof. intros st. apply reflexivity. Qed.

Lemma preserves_liftResult {A : Type} (r : Result A) : preserves R (liftResult r).
Proof. intros st. apply reflexivity. Qed.

Lemma preserves_this : preserves R (@this S).
Proof. intros st. apply reflexivity. Qed.

Lemma preserves_update (f : S -> S) :
  (forall st, R st (f st)) -> preserves R (update f).
Proof. intros Hf st. apply Hf. Qed.

Lemma preserves_bind {A B : Type} (m : Call S A) (k : A -> Call S B) :
  preserves R m -> (forall a, preserves R (k a)) -> preserves R (bind m k).
Proof.
  intros Hm Hk st. unfold bind. specialize (Hm st).
  destruct (m st) as [[a|e] st']; simpl in *; [|done].
  etrans; [exact Hm | apply Hk].
Qed.

Lemma preserves_tryCatch {A : Type} (m : Call S A) (h : JsError -> Call S A) :
  preserves R m -> (forall e, preserves R (h e)) -> preserves R (tryCatch m h).
Proof.
  intros Hm Hh st. unfold tryCatch. specialize (Hm st).
  destruct (m st) as [[a|e] st']; simpl in *; [done|].
  etrans; [exact Hm | apply Hh].
Qed.

Lemma preserves_tryFinally {A : Type} (m : Call S A) (f : Call S unit) :
  preserves R m -> preserves R f -> preserves R (tryFinally m f).
Proof.
  intros Hm Hf st. unfold tryFinally. specialize (Hm st).
  destruct (m st) as [r st']. specialize (Hf st').
  destruct (f st') as [[[]|e] st'']; simpl in *; etrans; eauto.
Qed.

Lemma preserves_forOf {A : Type} (xs : list A) (f : A -> Call S unit) :
  (forall x, preserves R (f x)) -> preserves R (forOf xs f).
Proof.
  intros Hf. induction xs as [|x xs IH]; simpl.
  - apply preserves_ret.
  - apply preserves_bind; auto.
Qed.

End Preserves.


Lemma tryCatch_throw {S A : Type} (m : Call S A) (h : JsError -> Call S A)
    (st : S) (e : JsError) (st' : S) :
  tryCatch m h st = (Throw e, st') ->
  exists e1 st1, m st = (Throw e1, st1) /\ h e1 st1 = (Throw e, st').
Proof. unfold tryCatch. destruct (m st) as [[a|e1] st1]; [done|]. eauto. Qed.


(** The tactic that takes a call apart along its structure. *)
Create HintDb preserves.

Ltac preserves_tac :=
  repeat first
    [ match goal with
      | |- Reflexive _ => apply _
      | |- Transitive _ => apply _
      | |- forall _, _ => intros ?
      end
    | solve [eauto with preserves]
    | match goal with
      | |- preserves _ (ret _) => apply preserves_ret
      | |- preserves _ (throw _) => apply preserves_throw
      | |- preserves _ (liftResult _) => apply preserves_liftResult
      | |- preserves _ this => apply preserves_this
      | |- preserves _ (bind _ _) => apply preserves_bind
      | |- preserves _ (tryCatch _ _) => apply preserves_tryCatch
      | |- preserves _ (tryFinally _ _) => apply preserves_tryFinally
      | |- preserves _ (forOf _ _) => apply preserves_forOf
      | |- preserves _ (let _ := _ in _) => cbv zeta
      | |- preserves _ (match ?x with _ => _ end) => destruct x
      end ].

End CallFacts.

(** ** The runner *)

Module RunnerFacts.

Import Runner Spec CallFacts Fixtures.
Local Open Scope call_scope.

#[global] Instance logged_refl P : Reflexive (logged P).
Proof. intros st. exists []. by rewrite app_nil_r. Qed.

#[global] Instance logged_trans P : Transitive (logged P).
Proof.
  intros st1 st2 st3 (a & Ha & HPa) (b & Hb & HPb).
  exists (a ++ b). rewrite Hb, Ha, app_assoc. split; [done|]. by apply Forall_app.
Qed.

#[global] Instance effect_refl P : Reflexive (effect P).
Proof. intros st. repeat split; [lia | reflexivity]. Qed.

#[global] Instance effect_trans P : Transitive (effect P).
Proof.
  intros st1 st2 st3 (A1 & A2 & A3 & A4 & A5 & A6) (B1 & B2 & B3 & B4 & B5 & B6).
  repeat split; try congruence; [lia | by etrans].
Qed.

Lemma logged_same P st st' : trace st' = trace st -> logged P st st'.
Proof. intros Heq. exists []. by rewrite app_nil_r. Qed.

Lemma logged_weaken (P Q : Event -> Prop) st st' :
  (forall ev, P ev -> Q ev) -> logged P st st' -> logged Q st st'.
Proof. intros HPQ (a & Ha & HPa). exists a. split; [done|]. eapply Forall_impl; eauto. Qed.

Lemma effect_weaken (P Q : Event -> Prop) {A} (m : M A) :
  (forall ev, P ev -> Q ev) -> preserves (effect P) m -> preserves (effect Q) m.
Proof.
  intros HPQ Hm st. destruct (Hm st) as (A1 & A2 & A3 & A4 & A5 & A6).
  repeat split; try done. by eapply logged_weaken.
Qed.

Section Effect.
Context `{Engine} `{Collaborators}.
Variable P : Event -> Prop.

Lemma effect_log ev : P ev -> preserves (effect P) (log ev).
Proof.
  intros HP st. repeat split; simpl; [lia|]. exists [ev]. split; [done|]. by constructor.
Qed.

Lemma effect_await call : P (Client call) -> preserves (effect P) (await call).
Proof.
  intros HP st. unfold await. 
  assert (logged P st (with_trace (trace st ++ [Client call]) st)).
  { exists [Client call]. split; [done|]. by constructor. }
  destruct (client (trace st) call); repeat split; simpl; auto.
Qed.

Lemma effect_randomString : preserves (effect P) randomString.
Proof. intros st. repeat split; simpl; [lia | by apply logged_same]. Qed.

Lemma effect_readScope l : preserves (effect P) (readScope l).
Proof. intros st. unfold readScope. destruct (scopes st !! l); apply reflexivity. Qed.

Lemma effect_readStep l : preserves (effect P) (readStep l).
Proof. intros st. unfold readStep. destruct (stepObjects st !! l); apply reflexivity. Qed.

Lemma effect_writeStep l s : preserves (effect P) (writeStep l s).
Proof. intros st. repeat split; simpl; [lia | by apply logged_same]. Qed.

Hint Resolve effect_randomString effect_readScope effect_readStep effect_writeStep : preserves.

Lemma effect_generateValue v : preserves (effect P) (generateValue v).
Proof. unfold generateValue. preserves_tac. Qed.
Hint Resolve effect_generateValue : preserves.

Lemma effect_generateValues vars : preserves (effect P) (generateValues vars).
Proof. induction vars as [|[k v] vars IH]; simpl; preserves_tac. Qed.
Hint Resolve effect_generateValues : preserves.

Lemma effect_generateValueFromPrefix env : preserves (effect P) (generateValueFromPrefix env).
Proof. unfold generateValueFromPrefix. preserves_tac. Qed.

Lemma effect_fillRequest step params req : preserves (effect P) (fillRequest step params req).
Proof. revert req. induction params as [|p params IH]; intros req; simpl; preserves_tac. Qed.

End Effect.

Section Effect2.
Context `{Engine} `{Collaborators}.

#[local] Hint Resolve effect_randomString effect_readScope effect_readStep effect_writeStep
  effect_generateValue effect_generateValues effect_generateValueFromPrefix
  effect_fillRequest : preserves.

Lemma isStepCall_rest r s e : isStepCall (Client (sendRestCallRequest r s e)).
Proof. done. Qed.
Lemma isStepCall_arm t d s e : isStepCall (Client (sendArmTemplateDeployment t d s e)).
Proof. done. Qed.
#[local] Hint Resolve effect_await isStepCall_rest isStepCall_arm : preserves.

Lemma effect_executeRestCallStep ref step env :
  preserves (effect isStepCall) (executeRestCallStep ref step env).
Proof. unfold executeRestCallStep. preserves_tac. Qed.

Lemma effect_executeArmTemplateStep ref step env scope :
  preserves (effect isStepCall) (executeArmTemplateStep ref step env scope).
Proof. unfold executeArmTemplateStep. preserves_tac. Qed.

End Effect2.

Section Prefix.
Context `{Engine} `{Collaborators}.

Lemma needsValue_awaits v p : awaitsValue v p -> needsValue v = true.
Proof.
  intros ([Ht|Ht] & Hp & Hv); unfold needsValue; by rewrite Ht, Hp, Hv.
Qed.

Lemma generateValue_idle v st : needsValue v = false -> generateValue v st = (Ok v, st).
Proof.
  unfold needsValue, generateValue. intros Hn.
  destruct (_ || _); [|done]. destruct (v_prefix v) as [p|]; [|done].
  rewrite bool_decide_true in Hn by eauto. simpl in Hn. by rewrite Hn.
Qed.

Lemma generateValue_fresh v p st :
  awaitsValue v p ->
  generateValue v st =
    (Ok (with_value v (JsString (p +:+ getRandomString (randomCount st)))),
     with_randomCount (S (randomCount st)) st).
Proof.
  intros ([Ht|Ht] & Hp & Hv); unfold generateValue; by rewrite Ht, Hp, Hv.
Qed.

Lemma generateValue_settles v st :
  exists v' st', generateValue v st = (Ok v', st') /\ needsValue v' = false
    /\ forall p, awaitsValue v p -> exists r, v' = with_value v (JsString (p +:+ r)).
Proof.
  destruct (needsValue v) eqn:Hn.
  - unfold needsValue in Hn. apply andb_prop in Hn as [Hn Hv]. apply andb_prop in Hn as [Ht Hp].
    apply bool_decide_eq_true in Hp as [p Hp].
    assert (awaitsValue v p) as Ha.
    { split; [|done]. apply orb_prop in Ht as [Ht|Ht]; apply String.eqb_eq in Ht; auto. }
    eexists _, _. split; [by apply generateValue_fresh|]. split.
    + unfold needsValue. simpl. by rewrite andb_false_r.
    + intros p' (_ & Hp' & _). rewrite Hp in Hp'. injection Hp' as <-. eauto.
  - exists v, st. split; [by apply generateValue_idle|]. split; [done|].
    intros p Ha. apply needsValue_awaits in Ha. congruence.
Qed.

Lemma generateValues_settles vars st :
  exists vars' st', generateValues vars st = (Ok vars', st')
    /\ Forall (fun kv => needsValue kv.2 = false) vars'
    /\ forall i name v p, vars !! i = Some (name, v) -> awaitsValue v p ->
         exists r, vars' !! i = Some (name, with_value v (JsString (p +:+ r))).
Proof.
  revert st. induction vars as [|[k v] vars IH]; intros st; simpl.
  - exists [], st. repeat split; [constructor|]. intros i ? ? ? Hi. by rewrite lookup_nil in Hi.
  - destruct (generateValue_settles v st) as (v' & st1 & Hv & Hn & Hp).
    destruct (IH st1) as (vars' & st2 & Hvars & Hall & Hlook).
    exists ((k, v') :: vars'), st2. unfold bind. rewrite Hv, Hvars. split; [done|]. split.
    + by constructor.
    + intros [|i] name w p Hi Ha; simpl in *.
      * injection Hi as <- <-. destruct (Hp p Ha) as [r ->]. eauto.
      * eauto.
Qed.

Lemma generateValues_idle vars st :
  Forall (fun kv => needsValue kv.2 = false) vars -> generateValues vars st = (Ok vars, st).
Proof.
  induction 1 as [|[k v] vars Hv _ IH]; simpl; [done|].
  unfold bind. simpl in Hv. by rewrite generateValue_idle, IH.
Qed.

Lemma generateValueFromPrefix_settles env st :
  exists vars' st1,
    generateValueFromPrefix env st = (Ok (withVariables env vars'), st1)
    /\ Forall (fun kv => needsValue kv.2 = false) vars'
    /\ forall i name v prefix,
         getVariables env !! i = Some (name, v) -> awaitsValue v prefix ->
         exists r, vars' !! i = Some (name, with_value v (JsString (prefix +:+ r))).
Proof.
  destruct (generateValues_settles (getVariables env) st) as (vars' & st1 & Hgen & Hall & Hlook).
  exists vars', st1. unfold generateValueFromPrefix, bind. by rewrite Hgen.
Qed.

Lemma generateValueFromPrefix_returns env st :
  exists env1 st1, generateValueFromPrefix env st = (Ok env1, st1).
Proof.
  destruct (generateValueFromPrefix_settles env st) as (vars' & st1 & Hrun & _). eauto.
Qed.

(** C8: materialising prefixes never fails; every string or secureString
    variable of the layer that has a prefix and no value comes out with the
    prefix followed by a generated suffix as its value, at the position it had;
    and a second run, on the layer and the runner the first one left, returns
    that same layer and leaves the runner as it was: no variable is assigned
    again and no further random string is drawn. *)
Theorem generateValueFromPrefix_twice env st :
  exists env1 st1,
    generateValueFromPrefix env st = (Ok env1, st1)
    /\ generateValueFromPrefix env1 st1 = (Ok env1, st1)
    /\ forall i name v prefix,
         getVariables env !! i = Some (name, v) -> awaitsValue v prefix ->
         exists r, getVariables env1 !! i
                   = Some (name, with_value v (JsString (prefix +:+ r))).
Proof.
  destruct (generateValueFromPrefix_settles env st) as (vars' & st1 & Hrun & Hall & Hlook).
  exists (withVariables env vars'), st1. split; [done|].
  destruct env as [d b]. simpl. split; [|done].
  unfold generateValueFromPrefix, bind. simpl. by rewrite generateValues_idle.
Qed.

End Prefix.

Section Steps.
Context `{Engine} `{Collaborators}.

#[local] Hint Resolve effect_randomString effect_readScope effect_readStep effect_writeStep
  effect_generateValue effect_generateValues effect_generateValueFromPrefix
  effect_fillRequest effect_await isStepCall_rest isStepCall_arm
  effect_executeRestCallStep effect_executeArmTemplateStep : preserves.

(** What [executeStep] does after it logged its entry. *)
Lemma executeStep_unfold step env scope st :
  exists body : M unit,
    preserves (effect isStepCall) body
    /\ executeStep step env scope st
       = body (with_trace (trace st ++ [Enter_executeStep step]) st).
Proof.
  eexists. split; [|unfold executeStep at 1, bind at 1; simpl; reflexivity].
  preserves_tac.
Qed.

Lemma executed_app a b : executed (a ++ b) = executed a ++ executed b.
Proof. unfold executed. apply omap_app. Qed.

Lemma executed_cons ev events :
  executed (ev :: events)
  = match ev with
    | Enter_executeStep s => s :: executed events
    | _ => executed events
    end.
Proof. by destruct ev. Qed.

Lemma executed_calls added : Forall isStepCall added -> executed added = [].
Proof.
  induction 1 as [|ev added Hev _ IH]; [done|].
  rewrite executed_cons, IH. by destruct ev.
Qed.

Lemma isStepCall_isStepEvent ev : isStepCall ev -> isStepEvent ev.
Proof. by destruct ev. Qed.

Lemma effect_executeStep step env scope :
  preserves (effect isStepEvent) (executeStep step env scope).
Proof.
  intros st. destruct (executeStep_unfold step env scope st) as (body & Hbody & ->).
  specialize (Hbody (with_trace (trace st ++ [Enter_executeStep step]) st)).
  destruct Hbody as (A1 & A2 & A3 & A4 & A5 & added & A6 & A7). simpl in *.
  repeat split; try done. exists (Enter_executeStep step :: added). split.
  - by rewrite A6, <- app_assoc.
  - constructor; [done|]. eapply Forall_impl; [done|]. apply isStepCall_isStepEvent.
Qed.

Lemma executeStep_executed step env scope st :
  executed (trace (executeStep step env scope st).2) = executed (trace st) ++ [step].
Proof.
  destruct (executeStep_unfold step env scope st) as (body & Hbody & ->).
  specialize (Hbody (with_trace (trace st ++ [Enter_executeStep step]) st)).
  destruct Hbody as (_ & _ & _ & _ & _ & added & A6 & A7). simpl in *.
  rewrite A6, !executed_app, (executed_calls added) by done. by rewrite app_nil_r.
Qed.

(** A loop over steps enters [executeStep] for the steps in order, up to
    and including the first one that fails. *)
Lemma forOf_executeStep_executed steps env scope st r st' :
  forOf steps (fun step => executeStep step env scope) st = (r, st') ->
  exists done,
    done `prefix_of` steps
    /\ executed (trace st') = executed (trace st) ++ done
    /\ (isOk r = true -> done = steps)
    /\ (isOk r = false -> is_Some (last done)).
Proof.
  revert st. induction steps as [|s steps IH]; intros st; simpl.
  - unfold ret. intros ?; simplify_eq. exists []. by rewrite app_nil_r.
  - unfold bind. pose proof (executeStep_executed s env scope st) as Hs.
    destruct (executeStep s env scope st) as [[[]|e] st1]; simpl in *.
    + intros Hrun. destruct (IH st1 Hrun) as (done & Hpre & Hex & Hok & Hfail).
      exists (s :: done). split; [by apply prefix_cons|]. split; [|split].
      * by rewrite Hex, Hs, <- app_assoc.
      * intros Hr. by rewrite Hok.
      * intros Hr. destruct (Hfail Hr) as [x Hx]. exists x.
        destruct done; [done|]. done.
    + intros ?; simplify_eq. exists [s].
      split; [apply prefix_cons, prefix_nil|]. split; [done|]. split; [done|]. eauto.
Qed.

End Steps.

Section Provision.
Context `{Engine} `{Collaborators}.

#[local] Hint Resolve effect_randomString effect_readScope effect_readStep effect_writeStep
  effect_generateValue effect_generateValues effect_generateValueFromPrefix
  effect_fillRequest effect_await isStepCall_rest isStepCall_arm
  effect_executeRestCallStep effect_executeArmTemplateStep : preserves.

Lemma executed_logged P st st' :
  (forall ev, P ev -> executed [ev] = []) -> logged P st st' ->
  executed (trace st') = executed (trace st).
Proof.
  intros HP (added & -> & Hall). rewrite executed_app.
  assert (executed added = []) as ->; [|by rewrite app_nil_r].
  induction Hall as [|ev added Hev _ IH]; [done|].
  change (ev :: added) with ([ev] ++ added). by rewrite executed_app, HP, IH.
Qed.

Lemma isProvisioning_create a b c : isProvisioning (Client (createResourceGroup a b c)).
Proof. done. Qed.

Lemma effect_executeStep_provisioning step env scope :
  preserves (effect isProvisioning) (executeStep step env scope).
Proof.
  eapply effect_weaken; [|apply effect_executeStep]. intros ev. by destruct ev as [| |[]].
Qed.

#[local] Hint Resolve isProvisioning_create effect_executeStep_provisioning : preserves.

Lemma effect_provisionScope scope :
  preserves (effect isProvisioning) (provisionScope scope).
Proof. unfold provisionScope. preserves_tac. Qed.

(** The builder enters [executeStep] for the prepare steps, in order, up to
    and including the first one that fails, and for all of them when it
    returns. *)
Lemma provisionScope_executed scope sc st r st' :
  scopes st !! scope = Some sc ->
  provisionScope scope st = (r, st') ->
  exists done,
    done `prefix_of` scope_prepareSteps sc
    /\ executed (trace st') = executed (trace st) ++ done
    /\ (isOk r = true -> done = scope_prepareSteps sc).
Proof.
  intros Hsc. unfold provisionScope. unfold bind at 1. unfold readScope. rewrite Hsc.
  set (create := if bool_decide (scope_type sc = ResourceGroup) then _ else ret tt).
  assert (preserves (effect (fun ev => executed [ev] = [])) create) as Hcreate.
  { subst create. preserves_tac. }
  unfold bind at 1. specialize (Hcreate st).
  destruct (create st) as [[[]|e] st1]; simpl in *;
    destruct Hcreate as (_ & _ & _ & _ & _ & Hlog);
    (apply executed_logged in Hlog; [|done]).
  - unfold bind.
    destruct (forOf _ _ st1) as [r1 st2] eqn:Hloop.
    destruct (forOf_executeStep_executed _ _ _ _ _ _ Hloop) as (done & Hpre & Hex & Hok & _).
    rewrite Hlog in Hex.
    destruct r1 as [[]|e]; unfold ret; intros ?; simplify_eq; eauto.
  - intros ?; simplify_eq. exists []. split; [apply prefix_nil|]. by rewrite app_nil_r.
Qed.

Lemma provisionedAt_Some st l p :
  provisionedAt st l = Some p <-> exists sc, scopes st !! l = Some sc /\ provisioned sc = Some p.
Proof.
  unfold provisionedAt. destruct (scopes st !! l) as [sc|]; simpl;
    [|split; [done|by intros (? & ? & ?)]].
  split; [eauto|]. intros (sc' & ? & ?). by simplify_eq.
Qed.

(** Once the property is set, an invocation returns what is stored and does
    nothing else. *)
Lemma doProvisionScope_memo scope st p :
  provisionedAt st scope = Some p -> doProvisionScope scope st = (p, st).
Proof.
  intros (sc & Hsc & Hp)%provisionedAt_Some.
  unfold doProvisionScope, getLazyBuilder, bind, readScope. by rewrite Hsc, Hp.
Qed.

(** The first invocation on a scope object runs the builder and stores what
    it settled with. *)
Lemma doProvisionScope_first scope sc st r st' :
  scopes st !! scope = Some sc -> provisioned sc = None ->
  provisionScope scope st = (r, st') ->
  doProvisionScope scope st
  = (r, with_scopes (alter (fun e => set_provisioned e r) scope (scopes st')) st').
Proof.
  intros Hsc Hp Hrun. unfold doProvisionScope, getLazyBuilder, bind, readScope.
  by rewrite Hsc, Hp, Hrun.
Qed.



End Provision.

Section Advances.
Context `{Engine} `{Collaborators}.

#[global] Instance grows_refl : Reflexive grows.
Proof. intros st. split; [reflexivity|]. split; [done|]. split; [done|auto]. Qed.

#[global] Instance grows_trans : Transitive grows.
Proof.
  intros st1 st2 st3 (A1 & A2 & A3 & A4) (B1 & B2 & B3 & B4).
  split; [by etrans|]. split; [lia|]. split; [lia|auto].
Qed.

#[global] Instance staysProvisioned_refl : Reflexive staysProvisioned.
Proof. by intros st l p. Qed.

#[global] Instance staysProvisioned_trans : Transitive staysProvisioned.
Proof. intros st1 st2 st3 H12 H23 l p Hp. auto. Qed.

#[global] Instance advances_refl P : Reflexive (advances P).
Proof. intros st. split; [|split]; reflexivity. Qed.

#[global] Instance advances_trans P : Transitive (advances P).
Proof.
  intros st1 st2 st3 (A1 & A2 & A3) (B1 & B2 & B3). split; [|split]; by etrans.
Qed.

(** The registry and the provisioned scopes only depend on three fields. *)
Lemma registryOk_frame st st' :
  scopeTracking st' = scopeTracking st ->
  length (scopes st') = length (scopes st) ->
  randomCount st <= randomCount st' ->
  registryOk st -> registryOk st'.
Proof.
  intros Ht Hl Hr [E1 E2 E3]. split; rewrite ?Ht, ?Hl.
  - done.
  - done.
  - intros name l Hl'. destruct (E3 name l Hl') as [->|(i & Hi & ->)]; [by left|].
    right. exists i. split; [lia|done].
Qed.

Lemma effect_advances P st st' : effect P st st' -> advances P st st'.
Proof.
  intros (A1 & A2 & A3 & A4 & A5 & A6). split; [|split; [|done]].
  - split; [by rewrite A2|]. split; [done|]. split; [by rewrite A1|].
    apply registryOk_frame; auto. by rewrite A1.
  - intros l p. unfold provisionedAt. by rewrite A1.
Qed.

Lemma preserves_effect_advances {A} P (m : M A) :
  preserves (effect P) m -> preserves (advances P) m.
Proof. intros Hm st. apply effect_advances, Hm. Qed.

Lemma advances_weaken (P Q : Event -> Prop) {A} (m : M A) :
  (forall ev, P ev -> Q ev) -> preserves (advances P) m -> preserves (advances Q) m.
Proof.
  intros HPQ Hm st. destruct (Hm st) as (A1 & A2 & A3).
  split; [done|]. split; [done|]. by eapply logged_weaken.
Qed.

(** [getLazyBuilder] with a builder that leaves the scope objects alone. *)
Lemma advances_getLazyBuilder P (builder : ScopeRef -> M bool) entity :
  (forall l, preserves (effect P) (builder l)) ->
  preserves (advances P) (getLazyBuilder builder entity).
Proof.
  intros Hb st. unfold getLazyBuilder, bind, readScope.
  destruct (scopes st !! entity) as [e|] eqn:He; [|apply reflexivity].
  destruct (provisioned e) as [p|] eqn:Hp; [apply reflexivity|].
  specialize (Hb entity st). destruct (builder entity st) as [r st1]. simpl in *.
  destruct Hb as (A1 & A2 & A3 & A4 & A5 & A6).
  set (st2 := with_scopes _ st1).
  assert (scopeTracking st2 = scopeTracking st) as B1 by done.
  assert (length (scopes st2) = length (scopes st)) as B2.
  { subst st2. cbn. by rewrite length_alter, A1. }
  assert (randomCount st <= randomCount st2) as B3 by done.
  split; [|split].
  - split; [by rewrite B1|]. split; [done|]. split; [by rewrite B2|].
    by apply registryOk_frame.
  - intros l p. rewrite !provisionedAt_Some. intros (sc & Hsc & Hpsc).
    destruct (decide (entity = l)) as [->|Hne]; [congruence|].
    exists sc. subst st2. cbn. by rewrite list_lookup_alter_ne, A1.
  - destruct A6 as (added & ? & ?). by exists added.
Qed.

Lemma advances_doProvisionScope scope :
  preserves (advances isProvisioning) (doProvisionScope scope).
Proof. apply advances_getLazyBuilder, effect_provisionScope. Qed.

End Advances.

Section PrepareScope.
Context `{Engine} `{Collaborators}.

Lemma scopeName_effect shared :
  preserves (effect (fun _ => False)) (scopeName shared).
Proof. unfold scopeName. preserves_tac. apply effect_randomString. Qed.

Lemma scopeName_ok shared st :
  exists name, scopeName shared st = (Ok name, (scopeName shared st).2).
Proof. destruct shared; simpl; eauto. Qed.

Lemma scopeNameIn_eq scn st name st' :
  scopeName (shareScope scn) st = (Ok name, st') -> scopeNameIn scn st = name.
Proof. unfold scopeNameIn. by intros ->. Qed.

(** [prepareScope] when the name is tracked. *)
Lemma prepareScope_found def scn st l :
  scopeTracking st !! scopeNameIn scn st = Some l ->
  prepareScope def scn st = (Ok l, (scopeName (shareScope scn) st).2).
Proof.
  intros Hl.
  destruct (scopeName_ok (shareScope scn) st) as (name & Hname).
  pose proof (scopeName_effect (shareScope scn) st) as (_ & Ht & _).
  rewrite (scopeNameIn_eq _ _ _ _ Hname) in Hl.
  unfold prepareScope, bind at 1. rewrite Hname.
  unfold bind, this. by rewrite Ht, Hl.
Qed.

(** [prepareScope] when the name is not tracked: it fails for a scope
    type that is not supported, and otherwise stores a new scope object that
    is not provisioned. *)
Lemma prepareScope_new def scn st :
  scopeTracking st !! scopeNameIn scn st = None ->
  (scope def = NoScope
   /\ exists e, prepareScope def scn st = (Throw e, (scopeName (shareScope scn) st).2))
  \/ (exists sc st',
        effect (fun _ => False) st st'
        /\ (shareScope scn = false -> randomCount st < randomCount st')
        /\ provisioned sc = None
        /\ scope_type sc = scope def
        /\ scope_prepareSteps sc = prepareSteps def
        /\ scope_cleanUpSteps sc = cleanUpSteps def
        /\ prepareScope def scn st
           = (Ok (length (scopes st)),
              with_scopeTracking
                (<[scopeNameIn scn st := length (scopes st)]> (scopeTracking st))
                (with_scopes (scopes st ++ [sc]) st'))).
Proof.
  intros Hl.
  destruct (scopeName_ok (shareScope scn) st) as (name & Hname).
  pose proof (scopeName_effect (shareScope scn) st) as Hst1.
  assert (shareScope scn = false ->
          randomCount st < randomCount (scopeName (shareScope scn) st).2) as Hdrawn.
  { intros ->. simpl. lia. }
  rewrite (scopeNameIn_eq _ _ _ _ Hname) in *.
  set (st1 := (scopeName (shareScope scn) st).2) in *. clearbody st1.
  destruct Hst1 as (A1 & A2 & A3 & A4 & A5 & A6).
  assert (forall k : string -> M ScopeRef,
            bind (scopeName (shareScope scn)) k st = k name st1) as Hbind.
  { intros k. unfold bind. by rewrite Hname. }
  assert (prepareScope def scn st
          = (if bool_decide (scope def = NoScope) then
               throw (newError ("Scope is not supported yet: " +:+ scopeTypeName (scope def)))
             else
               let sc := defaultResourceGroupName (newScope st1 def) in
               let* scopeEnv := generateValueFromPrefix (scope_env sc) in
               let* scope := allocScope (with_scope_env sc scopeEnv) in
               update (fun st => with_scopeTracking (<[name := scope]> (scopeTracking st)) st) ;;
               ret scope) st1) as ->.
  { unfold prepareScope. rewrite Hbind. unfold bind at 1, this. by rewrite A2, Hl. }
  destruct (decide (scope def = NoScope)) as [Hscope|Hscope].
  { left. split; [done|]. rewrite bool_decide_true by done. eauto. }
  right. rewrite bool_decide_false by done. cbv zeta.
  set (sc0 := defaultResourceGroupName (newScope st1 def)).
  assert (provisioned sc0 = None /\ scope_type sc0 = scope def
          /\ scope_prepareSteps sc0 = prepareSteps def
          /\ scope_cleanUpSteps sc0 = cleanUpSteps def) as (B1 & B2 & B3 & B4).
  { subst sc0. unfold defaultResourceGroupName. by destruct (get _ _). }
  pose proof (effect_generateValueFromPrefix (fun _ => False) (scope_env sc0) st1) as Hgen.
  destruct (generateValueFromPrefix_returns (scope_env sc0) st1) as (env1 & st2 & Hrun).
  rewrite Hrun in Hgen. simpl in Hgen.
  exists (with_scope_env sc0 env1), st2.
  split; [by etrans; [|exact Hgen]|].
  destruct Hgen as (C1 & C2 & C3 & C4 & C5 & C6).
  split; [intros Hs; specialize (Hdrawn Hs); lia|].
  repeat (split; [done|]).
  unfold bind. rewrite Hrun. unfold allocScope, update. cbn.
  by rewrite C1, C2, A1, A2.
Qed.

Lemma advances_prepareScope P def scn :
  preserves (advances P) (prepareScope def scn).
Proof.
  intros st.
  pose proof (preserves_effect_advances (fun _ => False) _ (scopeName_effect (shareScope scn)) st)
    as Hname.
  assert (advances P st (scopeName (shareScope scn) st).2) as Hname'.
  { destruct Hname as (? & ? & ?). split; [done|]. split; [done|].
    eapply logged_weaken; [|done]. done. }
  destruct (scopeTracking st !! scopeNameIn scn st) as [l|] eqn:Hl.
  { by rewrite (prepareScope_found _ _ _ _ Hl). }
  destruct (prepareScope_new def scn st Hl)
    as [(_ & e & ->)|(sc & st' & Heff & Hdrawn & _ & _ & _ & _ & ->)]; [done|].
  destruct Heff as (A1 & A2 & A3 & A4 & A5 & A6).
  set (name := scopeNameIn scn st) in *.
  set (st2 := with_scopeTracking _ _).
  assert (scopeTracking st2 = <[name := length (scopes st)]> (scopeTracking st)) as B1 by done.
  assert (scopes st2 = scopes st ++ [sc]) as B2 by done.
  assert (randomCount st2 = randomCount st') as B3 by done.
  assert (trace st2 = trace st') as B4 by done.
  clearbody st2. cbn [snd].
  split; [|split].
  - split; [rewrite B1; by apply insert_subseteq|]. split; [lia|].
    split; [rewrite B2, length_app; simpl; lia|].
    intros [E1 E2 E3]. split; rewrite ?B1, ?B2, ?B3, ?length_app; simpl.
    + intros n l [[<- <-]|[Hne Hold]]%lookup_insert_Some; [lia|].
      apply E1 in Hold. lia.
    + intros n n' l [[<- <-]|[Hne Hold]]%lookup_insert_Some
        [[<- Heq]|[Hne' Hold']]%lookup_insert_Some; try done.
      * apply E1 in Hold'. lia.
      * apply E1 in Hold. lia.
      * eauto.
    + intros n l [[<- <-]|[Hne Hold]]%lookup_insert_Some.
      * subst name. unfold scopeNameIn. destruct (shareScope scn) eqn:Hs; simpl; [by left|].
        right. exists (randomCount st). split; [auto|done].
      * destruct (E3 _ _ Hold) as [->|(i & Hi & ->)]; [by left|].
        right. exists i. split; [lia|done].
  - intros l p (sc' & Hsc' & Hp)%provisionedAt_Some. apply provisionedAt_Some.
    exists sc'. split; [|done]. rewrite B2.
    rewrite lookup_app_l; [done|]. by eapply lookup_lt_Some.
  - destruct A6 as (added & Hadded & Hall). exists added. rewrite B4. split; [done|].
    eapply Forall_impl; [done|]. done.
Qed.

End PrepareScope.

Section Scenario.
Context `{Engine} `{Collaborators}.

#[local] Hint Resolve effect_randomString effect_readScope effect_readStep effect_writeStep
  effect_generateValue effect_generateValues effect_generateValueFromPrefix
  effect_fillRequest effect_await effect_log effect_executeStep : preserves.

Lemma effect_cleanUpScope scope :
  preserves (effect (fun ev => isStepEvent ev \/ isCleanUp ev)) (cleanUpScope scope).
Proof.
  unfold cleanUpScope. preserves_tac.
  - apply effect_log. by right.
  - eapply effect_weaken; [|apply effect_executeStep]. by left.
  - apply effect_await. by right.
Qed.

Lemma advances_startScenario def scn :
  preserves (advances (fun ev => ~ isCleanUp ev)) (startScenario def scn).
Proof.
  unfold startScenario. preserves_tac.
  - apply advances_prepareScope.
  - apply preserves_effect_advances. preserves_tac.
  - apply preserves_effect_advances. preserves_tac.
  - apply preserves_effect_advances. apply effect_await. by intros [].
  - eapply advances_weaken; [|apply advances_doProvisionScope].
    intros ev Hev Hclean. by destruct ev as [| |[]].
Qed.

Lemma advances_executeScenario def scn :
  preserves (advances (fun _ => True)) (executeScenario def scn).
Proof.
  unfold executeScenario, runSteps, cleanUpUnlessSkipped. preserves_tac.
  - eapply advances_weaken; [|apply advances_startScenario]. done.
  - apply preserves_effect_advances. eapply effect_weaken; [|apply effect_executeStep]. done.
  - apply preserves_effect_advances. eapply effect_weaken; [|apply effect_cleanUpScope]. done.
Qed.

Lemma advances_setSkipCleanUp skip :
  preserves (advances (fun _ => True)) (setSkipCleanUp skip).
Proof.
  intros st. split; [|split].
  - split; [reflexivity|]. split; [reflexivity|]. split; [reflexivity|].
    by apply registryOk_frame.
  - by intros l p.
  - by apply logged_same.
Qed.

Lemma advances_runnerStep st st' : runnerStep st st' -> advances (fun _ => True) st st'.
Proof.
  intros [st0 def scn|st0 skip]; [apply advances_executeScenario|apply advances_setSkipCleanUp].
Qed.

Lemma advances_rtc st st' : rtc runnerStep st st' -> advances (fun _ => True) st st'.
Proof.
  induction 1 as [|st1 st2 st3 Hstep _ IH]; [apply reflexivity|].
  etrans; [by apply advances_runnerStep|done].
Qed.


(** What [doProvisionScope] executes: prepare steps of the scope, in
    order. *)
Lemma doProvisionScope_executed scope sc st r st' :
  scopes st !! scope = Some sc ->
  doProvisionScope scope st = (r, st') ->
  exists done,
    done `prefix_of` scope_prepareSteps sc
    /\ executed (trace st') = executed (trace st) ++ done.
Proof.
  intros Hsc Hrun. destruct (provisioned sc) as [p|] eqn:Hp.
  - assert (provisionedAt st scope = Some p) as Hat by (apply provisionedAt_Some; eauto).
    rewrite (doProvisionScope_memo _ _ _ Hat) in Hrun. simplify_eq.
    exists []. split; [apply prefix_nil|by rewrite app_nil_r].
  - destruct (provisionScope scope st) as [r1 st1] eqn:Hbuild.
    rewrite (doProvisionScope_first _ _ _ _ _ Hsc Hp Hbuild) in Hrun. simplify_eq.
    destruct (provisionScope_executed _ _ _ _ _ Hsc Hbuild) as (done & Hpre & Hex & _).
    by exists done.
Qed.

(** The steps that [startScenario] executes are prepare steps of the scope
    that [prepareScope] found or built for the scenario. *)
Lemma startScenario_executed def scn st r st' :
  startScenario def scn st = (r, st') ->
  executed (trace st') = executed (trace st)
  \/ exists l sa sc done,
       prepareScope def scn st = (Ok l, sa)
       /\ scopes sa !! l = Some sc
       /\ done `prefix_of` scope_prepareSteps sc
       /\ executed (trace st') = executed (trace st) ++ done.
Proof.
  intros Hrun. unfold startScenario in Hrun. unfold bind at 1 in Hrun.
  pose proof (advances_prepareScope (fun _ => False) def scn st) as (_ & _ & Hlog0).
  destruct (prepareScope def scn st) as [[l|e0] sa] eqn:Hprep; simpl in Hlog0;
    apply executed_logged in Hlog0; try done.
  2:{ simplify_eq. by left. }
  unfold bind at 1, readScope in Hrun. destruct (scopes sa !! l) as [sc|] eqn:Hsc.
  2:{ simplify_eq. by left. }
  right. exists l, sa, sc. cbv zeta in Hrun. unfold bind at 1 in Hrun.
  pose proof (effect_generateValueFromPrefix (fun _ => False)
                (setBatch (newVariableEnv (Some (scope_env sc))) (variables (sc_scope scn))) sa)
    as (Hscopes & _ & _ & _ & _ & Hlog1).
  destruct (generateValueFromPrefix _ sa) as [[env1|e1] sb]; simpl in Hscopes, Hlog1;
    apply executed_logged in Hlog1; try done.
  2:{ simplify_eq. exists []. split; [done|]. split; [done|]. split; [apply prefix_nil|].
      rewrite app_nil_r. congruence. }
  unfold bind at 1, await in Hrun.
  set (sb' := with_trace (trace sb ++ [Client (prepareScenario scn env1)]) sb) in Hrun.
  assert (executed (trace sb') = executed (trace st)) as Hsb'.
  { subst sb'. cbn. rewrite executed_app. cbn. rewrite app_nil_r. congruence. }
  destruct (client (trace sb) (prepareScenario scn env1)).
  { simplify_eq. exists []. split; [done|]. split; [done|]. split; [apply prefix_nil|].
    by rewrite app_nil_r. }
  unfold bind at 1 in Hrun.
  destruct (doProvisionScope l sb') as [r1 sd] eqn:Hprov.
  assert (scopes sb' !! l = Some sc) as Hsc' by (subst sb'; cbn; by rewrite Hscopes).
  destruct (doProvisionScope_executed _ _ _ _ _ Hsc' Hprov) as (done & Hpre & Hex).
  assert (st' = sd) as -> by (destruct r1; unfold ret in Hrun; by simplify_eq).
  exists done. split; [done|]. split; [done|]. split; [done|]. by rewrite Hex, Hsb'.
Qed.

(** C9: when what [executeScenario] does before its [try] statement fails
    (resolving the scope, the scenario's environment, the client's
    [prepareScenario] or [doProvisionScope]), [executeScenario] fails with
    that very error and stops there, whatever [skipCleanUp] is. Nothing logged
    since the call is an entry of [cleanUpScope] or a [deleteResourceGroup]
    request, and no step is executed as a clean-up step: the steps executed
    since the call, if any, are prepare steps of the scope of the scenario, in
    their order, executed by the provisioning. So when none of the prepare
    steps of the scope is also one of its clean-up steps, no clean-up step
    is executed. *)
Theorem executeScenario_start_failure def scn st e st' :
  startScenario def scn st = (Throw e, st') ->
  executeScenario def scn st = (Throw e, st')
  /\ exists added,
       trace st' = trace st ++ added
       /\ Forall (fun ev => ~ isCleanUp ev) added
       /\ (executed added = []
           \/ exists l sa sc,
                prepareScope def scn st = (Ok l, sa)
                /\ scopes sa !! l = Some sc
                /\ executed added `prefix_of` scope_prepareSteps sc
                /\ ((forall step, step ∈ scope_prepareSteps sc ->
                                  step ∉ scope_cleanUpSteps sc) ->
                    forall step, step ∈ executed added -> step ∉ scope_cleanUpSteps sc)).
Proof.
  intros Hstart. split.
  - unfold executeScenario, bind. by rewrite Hstart.
  - pose proof (advances_startScenario def scn st) as (_ & _ & Hlog).
    rewrite Hstart in Hlog. destruct Hlog as (added & Htrace & Hall).
    exists added. split; [done|]. split; [done|]. simpl in Htrace.
    destruct (startScenario_executed _ _ _ _ _ Hstart)
      as [Hsame|(l & sa & sc & done & Hprep & Hsc & Hpre & Hex)].
    + left. rewrite Htrace, executed_app in Hsame.
      rewrite <- (app_nil_r (executed (trace st))) in Hsame at 2.
      by apply app_inv_head in Hsame.
    + right. exists l, sa, sc. split; [done|]. split; [done|].
      rewrite Htrace, executed_app in Hex. apply app_inv_head in Hex. rewrite Hex.
      split; [done|]. intros Hapart step Hstep. apply Hapart.
      destruct Hpre as [rest ->]. apply elem_of_app. by left.
Qed.

End Scenario.

Section StepFailure.
Context `{Engine} `{Collaborators}.

(** [cleanUpScope] enters [executeStep] for the clean-up steps, in order:
    for all of them, or up to one that fails, and then it fails too. *)
Lemma cleanUpScope_executed scope sc st r st' :
  scopes st !! scope = Some sc ->
  cleanUpScope scope st = (r, st') ->
  exists done,
    done `prefix_of` scope_cleanUpSteps sc
    /\ executed (trace st') = executed (trace st) ++ done
    /\ (done = scope_cleanUpSteps sc \/ (is_Some (last done) /\ isOk r = false)).
Proof.
  intros Hsc. unfold cleanUpScope. unfold bind at 1, log, update. cbn [fst snd].
  set (st0 := with_trace _ st).
  assert (executed (trace st0) = executed (trace st)) as Hst0.
  { subst st0. cbn. rewrite executed_app. apply app_nil_r. }
  unfold bind at 1, readScope. change (scopes st0) with (scopes st). rewrite Hsc.
  unfold bind at 1.
  destruct (forOf _ _ st0) as [r1 st1] eqn:Hloop.
  destruct (forOf_executeStep_executed _ _ _ _ _ _ Hloop) as (done & Hpre & Hex & Hok & Hfail).
  rewrite Hst0 in Hex. destruct r1 as [[]|e1].
  - set (delete := if bool_decide (scope_type sc = ResourceGroup) then _ else ret tt).
    assert (preserves (effect (fun ev => executed [ev] = [])) delete) as Hdelete.
    { subst delete. preserves_tac. by apply effect_await. }
    specialize (Hdelete st1). intros Hrun. rewrite Hrun in Hdelete. simpl in Hdelete.
    destruct Hdelete as (_ & _ & _ & _ & _ & Hlog). apply executed_logged in Hlog; [|done].
    exists done. rewrite Hlog. split; [done|]. split; [done|]. left. by apply Hok.
  - intros ?; simplify_eq. exists done. split; [done|]. split; [done|]. right. auto.
Qed.



End StepFailure.

Section Sharing.
Context `{Engine} `{Collaborators}.



Lemma scopeNameIn_shared scn st : shareScope scn = true -> scopeNameIn scn st = "_defaultScope".
Proof. unfold scopeNameIn. by intros ->. Qed.


Lemma prepareScope_tracked def scn st l st' :
  prepareScope def scn st = (Ok l, st') ->
  scopeTracking st' !! scopeNameIn scn st = Some l.
Proof.
  destruct (scopeTracking st !! scopeNameIn scn st) as [l0|] eqn:Hl.
  - rewrite (prepareScope_found _ _ _ _ Hl). intros ?; simplify_eq.
    pose proof (scopeName_effect (shareScope scn) st) as (_ & -> & _). done.
  - destruct (prepareScope_new def scn st Hl)
      as [(_ & e & ->)|(sc & st0 & _ & _ & _ & _ & _ & _ & ->)]; [done|].
    intros ?; simplify_eq. cbn. apply lookup_insert_eq.
Qed.

Lemma executeScenario_after_prepareScope def scn st l st' :
  prepareScope def scn st = (Ok l, st') ->
  advances (fun _ => True) st' (executeScenario def scn st).2.
Proof.
  intros Hprep.
  assert (exists rest : M unit,
            preserves (advances (fun _ => True)) rest
            /\ executeScenario def scn st = rest st') as (rest & Hrest & ->); [|apply Hrest].
  exists (let* started :=
            (let* sc := readScope l in
             let* scenarioEnv :=
               generateValueFromPrefix
                 (setBatch (newVariableEnv (Some (scope_env sc))) (variables (sc_scope scn))) in
             await (prepareScenario scn scenarioEnv) ;;
             doProvisionScope l ;;
             ret (l, scenarioEnv)) in
          tryFinally (runSteps scn started.2 started.1) (cleanUpUnlessSkipped started.1)).
  split; [|unfold executeScenario, startScenario, bind at 1 2; by rewrite Hprep].
  unfold runSteps, cleanUpUnlessSkipped. preserves_tac.
  - apply preserves_effect_advances, effect_readScope.
  - apply preserves_effect_advances, effect_generateValueFromPrefix.
  - apply preserves_effect_advances. by apply effect_await.
  - eapply advances_weaken; [|apply advances_doProvisionScope]. done.
  - apply preserves_effect_advances. eapply effect_weaken; [|apply effect_executeStep]. done.
  - apply preserves_effect_advances. eapply effect_weaken; [|apply effect_cleanUpScope]. done.
Qed.



End Sharing.

Section Errors.
Context `{Engine} `{Collaborators}.

Lemma step_name_with s vars : step_name (with_step_variables s vars) = step_name s.
Proof. by destruct s. Qed.

(** An error of [executeStep] carries the name of the step, unless it
    comes from resolving the environment of the step, which happens before
    the [try] statement. *)
Lemma executeStep_error step env scope st s e st' :
  stepObjects st !! step = Some s ->
  executeStep step env scope st = (Throw e, st') ->
  wrappedWithStep (step_name s) e
  \/ (resolveVariables st = true /\ exists stepEnv, resolve stepEnv = Throw e).
Proof.
  intros Hs. unfold executeStep. unfold bind at 1, log, update. cbn [fst snd].
  unfold bind at 1, readStep. cbn [stepObjects with_trace]. rewrite Hs.
  unfold bind at 1.
  destruct (generateValueFromPrefix_returns
              (setBatch (newVariableEnv (Some env)) (step_variables s))
              (with_trace (trace st ++ [Enter_executeStep step]) st))
    as (env1 & st1 & Hgen).
  pose proof (effect_generateValueFromPrefix (fun _ => False)
                (setBatch (newVariableEnv (Some env)) (step_variables s))
                (with_trace (trace st ++ [Enter_executeStep step]) st)) as Heff.
  rewrite Hgen in *. destruct Heff as (_ & _ & _ & Hrv & _). cbn in Hrv.
  cbv zeta. unfold bind at 1, writeStep, update. cbn [fst snd].
  unfold bind at 1, this. unfold bind at 1. cbn [resolveVariables with_stepObjects].
  rewrite Hrv, step_name_with.
  destruct (resolveVariables st) eqn:Hresolve.
  - unfold liftResult at 1. destruct (resolve env1) as [env2|e0] eqn:Hres.
    + intros (e1 & st2 & _ & Hthrow)%tryCatch_throw. unfold throw in Hthrow.
      simplify_eq. left. eexists. reflexivity.
    + intros ?; simplify_eq. right. eauto.
  - unfold ret at 1.
    intros (e1 & st2 & _ & Hthrow)%tryCatch_throw. unfold throw in Hthrow.
    simplify_eq. left. eexists. reflexivity.
Qed.

(** C6, as amended: a failure before the [try] statement of
    [executeScenario] (scope resolution, the client's [prepareScenario],
    provisioning) reaches the caller as it was raised.  After that, a failure
    of [cleanUpScope] reaches the caller as it was raised, whatever the steps
    did; with no such failure, a failure of the step loop reaches the caller
    as a new error whose message names the scenario and ends with the message
    of the step's error.  An error of [executeStep] names the step, unless it
    was raised while resolving the variables of the step. *)
Theorem executeScenario_error_identity def scn st :
  (forall e st',
     startScenario def scn st = (Throw e, st') ->
     executeScenario def scn st = (Throw e, st'))
  /\ (forall l env st0 r2 st2 r3 st3,
        startScenario def scn st = (Ok (l, env), st0) ->
        forOf (steps scn) (fun step => executeStep step env l) st0 = (r2, st2) ->
        cleanUpUnlessSkipped l st2 = (r3, st3) ->
        executeScenario def scn st
        = (match r3, r2 with
           | Throw e', _ => Throw e'
           | Ok _, Throw e =>
               Throw (newError ("Failed to execute scenario: " +:+ scenario scn +:+ ": "
                                +:+ message e))
           | Ok _, Ok _ => Ok tt
           end, st3))
  /\ (forall step env l st0 s e st1,
        stepObjects st0 !! step = Some s ->
        executeStep step env l st0 = (Throw e, st1) ->
        wrappedWithStep (step_name s) e
        \/ (resolveVariables st0 = true /\ exists stepEnv, resolve stepEnv = Throw e)).
Proof.
  split; [|split].
  - intros e st' Hstart. unfold executeScenario, bind. by rewrite Hstart.
  - intros l env st0 r2 st2 r3 st3 Hstart Hloop Hclean.
    unfold executeScenario, bind. rewrite Hstart. cbn [fst snd].
    unfold tryFinally, runSteps, tryCatch. rewrite Hloop.
    destruct r2 as [[]|e]; unfold throw; rewrite Hclean; by destruct r3 as [[]|e'].
  - intros *. apply executeStep_error.
Qed.

End Errors.



(** The client rejects [prepareScenario]: the run ends where
    [startScenario] ended. *)
Lemma executeScenario_start_failure_witness :
  @executeScenario engine (collaborators rejectingPrepare) definition
    (scenarioNamed "S" true) runner
  = (Throw rejection,
     (@startScenario engine (collaborators rejectingPrepare) definition
        (scenarioNamed "S" true) runner).2).
Proof.
  apply (@executeScenario_start_failure engine (collaborators rejectingPrepare)).
  vm_compute. reflexivity.
Defined.





(** C6, as stated, fails when the client rejects the creation of the
    resource group: [executeScenario] of scenario ["S"] fails with the error of
    the client as it is, right after the request, and that error does not
    carry the name of the scenario. *)
Lemma provisioning_failure_not_wrapped :
  (@executeScenario engine (collaborators rejectingCreate) definition
     (scenarioNamed "S" true) runner).1
  = Throw rejection
  /\ last (trace (@executeScenario engine (collaborators rejectingCreate) definition
                    (scenarioNamed "S" true) runner).2)
     = Some (Client (createResourceGroup "sub" "apiTest-0" "westus"))
  /\ ~ wrappedWithScenario "S" rejection.
Proof.
  split; [vm_compute; reflexivity|]. split; [vm_compute; reflexivity|].
  intros [inner Hinner]. discriminate Hinner.
Qed.

(** The client rejects the second step: the error that reaches the caller
    names the scenario, around an error that names the step. *)
Lemma executeScenario_error_identity_witness :
  @executeScenario engine failingClient definition (scenarioNamed "S" true) runner
  = (Throw (@newError engine
              ("Failed to execute scenario: S: " +:+ message (thrown afterSecond.1))),
     (@cleanUpUnlessSkipped engine failingClient 0 afterSecond.2).2)
  /\ wrappedWithStep "second" (thrown afterSecond.1).
Proof.
  destruct (@executeScenario_error_identity engine failingClient definition
              (scenarioNamed "S" true) runner) as (_ & Hsteps & Hstep).
  split.
  - apply (Hsteps 0 startedEnv started.2 (Throw (thrown afterSecond.1)) afterSecond.2
             (Ok tt)); vm_compute; reflexivity.
  - destruct (Hstep 1 startedEnv 0 afterFirst (callStep "second") (thrown afterSecond.1)
                afterSecond.2) as [Hwrapped|(Hresolve & env & Hthrown)];
      [vm_compute; reflexivity ..| exact Hwrapped | discriminate Hthrown].
Defined.

End RunnerFacts.

(** ** The loader *)

Module LoaderFacts.

Import Loader Spec CallFacts Fixtures RunnerFacts.
Local Open Scope call_scope.

#[global] Instance keepsShareScope_refl : Reflexive keepsShareScope.
Proof. by intros ctx. Qed.

#[global] Instance keepsShareScope_trans : Transitive keepsShareScope.
Proof. intros c1 c2 c3 H12 H23. unfold keepsShareScope in *. congruence. Qed.

Ltac keeps_update :=
  apply preserves_update; let c := fresh "c" in let E := fresh "E" in
  intros c; unfold keepsShareScope, with_owningScope;
  destruct (ctx_scenario c) eqn:E; cbn; rewrite ?E; done.

Ltac keeps_tac := preserves_tac; try keeps_update.

Section LoaderFacts.
Context `{Engine} `{Collaborators}.

Lemma keeps_requireVariable name : preserves keepsShareScope (requireVariable name).
Proof. unfold requireVariable. keeps_tac. Qed.
Hint Resolve keeps_requireVariable : preserves.

Lemma keeps_loadStepVariables entries step :
  preserves keepsShareScope (loadStepVariables entries step).
Proof.
  revert step. induction entries as [|[name [value|value]] entries IH]; intros step; simpl;
    keeps_tac.
Qed.
Hint Resolve keeps_loadStepVariables : preserves.

Lemma keeps_loadStepParameters self rawStep params step :
  preserves keepsShareScope (loadStepParameters self rawStep params step).
Proof.
  revert step. induction params as [|param params IH]; intros step; simpl; keeps_tac.
Qed.
Hint Resolve keeps_loadStepParameters : preserves.

Lemma keeps_applyPatches step rawStep operation :
  preserves keepsShareScope (applyPatches step rawStep operation).
Proof. unfold applyPatches. keeps_tac. Qed.
Hint Resolve keeps_applyPatches : preserves.

Lemma keeps_loadExampleOperation self step path content :
  preserves keepsShareScope (loadExampleOperation self step path content).
Proof. unfold loadExampleOperation. keeps_tac. Qed.
Hint Resolve keeps_loadExampleOperation : preserves.

Lemma keeps_checkStepName name : preserves keepsShareScope (checkStepName name).
Proof. unfold checkStepName. keeps_tac. Qed.
Hint Resolve keeps_checkStepName : preserves.

Lemma keeps_loadStepRestCall self rawStep :
  preserves keepsShareScope (loadStepRestCall self rawStep).
Proof. unfold loadStepRestCall. keeps_tac. Qed.
Hint Resolve keeps_loadStepRestCall : preserves.

Lemma keeps_requireTemplateParameters params step :
  preserves keepsShareScope (requireTemplateParameters params step).
Proof. induction params as [|[paramName param] params IH]; simpl; keeps_tac. Qed.
Hint Resolve keeps_requireTemplateParameters : preserves.

Lemma keeps_loadStepArmTemplate self rawStep :
  preserves keepsShareScope (loadStepArmTemplate self rawStep).
Proof. unfold loadStepArmTemplate. keeps_tac. Qed.
Hint Resolve keeps_loadStepArmTemplate : preserves.

Lemma keeps_loadStepArmDeploymentScript self rawStep :
  preserves keepsShareScope (loadStepArmDeploymentScript self rawStep).
Proof. unfold loadStepArmDeploymentScript, typeError. keeps_tac. Qed.
Hint Resolve keeps_loadStepArmDeploymentScript : preserves.

Lemma keeps_loadStep self rawStep : preserves keepsShareScope (loadStep self rawStep).
Proof. unfold loadStep. keeps_tac. Qed.
Hint Resolve keeps_loadStep : preserves.

(** The scenario that [loadScenario] returns has the flag of the object it
    built first. *)
Lemma loadScenario_shareScope self rawScenario ctx scn ctx' :
  loadScenario self rawScenario ctx = (Ok scn, ctx') ->
  shareScope scn = default true (rs_shareScope rawScenario).
Proof.
  unfold loadScenario. unfold bind at 1, update. cbn [fst snd].
  unfold bind at 1, this. unfold bind at 1.
  destruct (convertVariables (rs_variables rawScenario)) as [variableScope|e]; [|done].
  unfold liftResult. unfold bind at 1, update. cbn [fst snd].
  set (scenario0 := newScenario _ _ _).
  set (ctx1 := with_stepIndex _ 0).
  set (loop := forOf _ _).
  assert (preserves keepsShareScope loop) as Hloop by (subst loop; keeps_tac).
  specialize (Hloop ctx1). unfold bind at 1.
  destruct (loop ctx1) as [[[]|e] ctx2]; [|done].
  unfold bind, this, ret. intros ?; simplify_eq.
  unfold keepsShareScope in Hloop. cbn in Hloop.
  destruct (ctx_scenario ctx') as [x|]; simpl in *; by simplify_eq.
Qed.

End LoaderFacts.

Lemma lookupKey_setKey {A : Type} (o : list (string * A)) (k : string) (v : A) :
  lookupKey (setKey o k v) k = Some v.
Proof.
  induction o as [|[k' v'] o IH]; simpl.
  - by rewrite String.eqb_refl.
  - destruct (String.eqb k' k) eqn:Hk; simpl; by rewrite Hk.
Qed.

Lemma getProp_setKey (o : list (string * JsValue)) (k : string) (v : JsValue) :
  getProp (setKey o k v) k = v.
Proof. unfold getProp. by rewrite lookupKey_setKey. Qed.

Section Example.
Context `{Engine} `{Collaborators}.

Lemma applyPatches_parameters step rawStep operation ctx step' ctx' :
  requestUpdate rawStep = None ->
  applyPatches step rawStep operation ctx = (Ok step', ctx') ->
  rc_parameters step' = rc_parameters step /\ rc_operationId step' = rc_operationId step.
Proof.
  intros Hnone. unfold applyPatches. rewrite Hnone. unfold bind at 1, ret at 1.
  destruct (responseUpdate rawStep) as [patches|].
  - unfold bind, liftResult, ret. destruct (jsonPatchApply _ _); intros ?; by simplify_eq.
  - unfold ret. intros ?; by simplify_eq.
Qed.

Lemma checkStepName_state name ctx r ctx' :
  checkStepName name ctx = (r, ctx') -> ctx' = ctx.
Proof.
  unfold checkStepName, bind, this. destruct name as [name|]; [|by intros [= _ <-]].
  case_bool_decide; by intros [= _ <-].
Qed.

Lemma forceUpdateApiVersion_parameters self step :
  rc_parameters (forceUpdateApiVersion self step)
  = (if truthy (getProp (rc_parameters step) "api-version") then
       setKey (rc_parameters step) "api-version"
         (versionValue (apiVersionsMap self !! rc_operationId step))
     else rc_parameters step)
  /\ rc_operationId (forceUpdateApiVersion self step) = rc_operationId step.
Proof. unfold forceUpdateApiVersion. by destruct (truthy _). Qed.

(** What the request update of [applyPatches] does to the parameters of
    the step. *)
Lemma applyPatches_request step rawStep operation ctx step' ctx' :
  applyPatches step rawStep operation ctx = (Ok step', ctx') ->
  rc_operationId step' = rc_operationId step
  /\ match requestUpdate rawStep with
     | Some patches => jsonPatchApply (rc_parameters step) patches = Ok (rc_parameters step')
     | None => rc_parameters step' = rc_parameters step
     end.
Proof.
  unfold applyPatches. unfold bind at 1.
  destruct (requestUpdate rawStep) as [patches|].
  - cbv zeta. unfold bind at 1, liftResult at 1.
    destruct (jsonPatchApply (rc_parameters step) patches) as [parameters|?]; [|done].
    set (step1 := with_rc_parameters step parameters).
    assert (exists step2, (match getBodyParam operation with
                           | Some bodyParam =>
                               if includes ["put"; "patch"] (_method operation) then
                                 ret (with_rc_responses step1
                                        (map (fun kv =>
                                                (kv.1,
                                                 patchResponse operation
                                                   (jsonMergePatchGenerate
                                                      ((fun bodyParam =>
                                                          getProp (rc_parameters step)
                                                            (p_name bodyParam))
                                                         <$> getBodyParam operation)
                                                      (getProp (rc_parameters step1)
                                                         (p_name bodyParam)))
                                                   kv.1 kv.2))
                                           (rc_responses step1)))
                               else ret step1
                           | None => ret step1
                           end) ctx = (Ok step2, ctx)
                          /\ rc_parameters step2 = parameters
                          /\ rc_operationId step2 = rc_operationId step)
      as (step2 & -> & Hp2 & Hid2).
    { destruct (getBodyParam operation); [destruct (includes _ _)|]; by eexists. }
    destruct (responseUpdate rawStep).
    + unfold bind, liftResult, ret. destruct (jsonPatchApply _ _); intros ?; by simplify_eq.
    + unfold ret. intros ?; by simplify_eq.
  - unfold ret at 1. destruct (responseUpdate rawStep).
    + unfold bind, liftResult, ret. destruct (jsonPatchApply _ _); intros ?; by simplify_eq.
    + unfold ret. intros ?; by simplify_eq.
Qed.

(** The operation that an example step is for is the one that
    [operationsMap] has under the [operationId] of the step. *)
Lemma loadExampleOperation_operation self step path content ctx step1 operation ctx1 :
  loadExampleOperation self step path content ctx = (Ok (step1, operation), ctx1) ->
  operationsMap self !! rc_operationId step1 = Some operation
  /\ (truthyString (ex_operationId content) = true ->
      rc_operationId step1 = default "" (ex_operationId content)).
Proof.
  unfold loadExampleOperation, includeOperationIn.
  destruct (truthyString (ex_operationId content)).
  - cbv zeta. change (rc_operationId (with_rc_operationId _ ?i)) with i.
    destruct (operationsMap self !! default "" (ex_operationId content)) as [op|] eqn:Hop;
      [|done].
    unfold ret. intros ?; simplify_eq. by destruct (includeOperation self).
  - destruct (exampleToOperation self !! path) as [opMap|]; [|done].
    case_bool_decide; [done|]. destruct (keys opMap) as [|operationId ops]; [done|].
    cbv zeta. destruct (operationsMap self !! operationId) as [op|] eqn:Hop; [|done].
    unfold ret. intros ?; simplify_eq. by destruct (includeOperation self).
Qed.

(** C5, as amended: an example step that loads is what the request
    patches of the raw step and then [exampleParameterConvention] make of a
    step [forced] whose parameters are those of the example file, with
    [api-version] set to the version that [apiVersionsMap] has for the
    operation when the file gives a truthy [api-version], whatever its value,
    and exactly those of the file otherwise. The operation is the one
    that [operationsMap] has for the step, under the [operationId] of the
    file when it gives one. Without request patches the parameters handed to
    [exampleParameterConvention] are those of [forced]; with request patches
    they are what [jsonPatchApply] makes of them. *)
Theorem example_api_version self rawStep ctx step ctx' :
  loadStepRestCall self (inr rawStep) ctx = (Ok step, ctx') ->
  exists content operation forced patched ctx1 getVariable,
    loadExample (pathJoin (pathDirName (_filePath (ctx_scenarioDef ctx))) (exampleFile rawStep))
    = Ok content
    /\ operationsMap self !! rc_operationId forced = Some operation
    /\ (truthyString (ex_operationId content) = true ->
        rc_operationId forced = default "" (ex_operationId content))
    /\ rc_parameters forced
       = (if truthy (getProp (ex_parameters content) "api-version") then
            setKey (ex_parameters content) "api-version"
              (versionValue (apiVersionsMap self !! rc_operationId forced))
          else ex_parameters content)
    /\ (truthy (getProp (ex_parameters content) "api-version") = true ->
        getProp (rc_parameters forced) "api-version"
        = versionValue (apiVersionsMap self !! rc_operationId forced))
    /\ applyPatches forced rawStep operation ctx1 = (Ok patched, ctx')
    /\ rc_operationId patched = rc_operationId forced
    /\ match requestUpdate rawStep with
       | Some patches =>
           jsonPatchApply (rc_parameters forced) patches = Ok (rc_parameters patched)
       | None => rc_parameters patched = rc_parameters forced
       end
    /\ step = exampleParameterConvention patched getVariable operation.
Proof.
  intros Hload. unfold loadStepRestCall in Hload. cbn [baseOfRestCall] in Hload.
  unfold bind at 1 in Hload.
  destruct (checkStepName _ ctx) as [[[]|?] ctx0] eqn:Hdup; [|done].
  apply checkStepName_state in Hdup as ->.
  unfold bind at 1, this in Hload.
  unfold bind at 1, liftResult at 1 in Hload.
  destruct (convertVariables (raw_variables (rse_base rawStep))) as [variableScope|?]; [|done].
  unfold bind at 1, update in Hload. cbn [fst snd] in Hload.
  unfold bind at 1, liftResult at 1 in Hload.
  destruct (loadExample _) as [content|?] eqn:Hcontent; [|done].
  unfold bind at 1 in Hload.
  destruct (loadExampleOperation _ _ _ _ _) as [[[step1 operation]|?] ctx1] eqn:Hoperation;
    [|done].
  apply loadExampleOperation_operation in Hoperation as [Hop Hgiven].
  cbn [fst snd] in Hload. unfold bind at 1 in Hload.
  destruct (applyPatches _ _ _ _) as [[step2|?] ctx2] eqn:Hpatch; [|done].
  unfold bind, this, ret in Hload. simplify_eq.
  destruct (applyPatches_request _ _ _ _ _ _ Hpatch) as [Hid Hparams].
  eexists content, operation, _, step2, ctx1, _. split; [done|].
  assert (forall responses,
            rc_operationId
              (with_rc_responses
                 (forceUpdateApiVersion self (with_rc_parameters step1 (ex_parameters content)))
                 responses)
            = rc_operationId step1) as Hforced.
  { intros responses. change (rc_operationId (with_rc_responses ?s _)) with (rc_operationId s).
    by destruct (forceUpdateApiVersion_parameters self
                   (with_rc_parameters step1 (ex_parameters content))) as [_ ->]. }
  split; [by rewrite Hforced|]. split; [by rewrite Hforced|].
  split; [|split; [|split; [exact Hpatch|split; [exact Hid|split; [exact Hparams|done]]]]].
  - change (rc_parameters (with_rc_responses ?s _)) with (rc_parameters s).
    change (rc_operationId (with_rc_responses ?s _)) with (rc_operationId s).
    destruct (forceUpdateApiVersion_parameters self
                (with_rc_parameters step1 (ex_parameters content))) as [-> ->].
    done.
  - change (rc_parameters (with_rc_responses ?s _)) with (rc_parameters s).
    change (rc_operationId (with_rc_responses ?s _)) with (rc_operationId s).
    destruct (forceUpdateApiVersion_parameters self
                (with_rc_parameters step1 (ex_parameters content))) as [-> ->].
    change (rc_parameters (with_rc_parameters _ ?p)) with p.
    intros ->. apply getProp_setKey.
Qed.

(** C10: a raw scenario without [shareScope] loads as a scenario whose
    [shareScope] is [true]; and every scenario with that flag, on any runner,
    resolves to the scope registered as ["_defaultScope"], which is registered
    under that name from then on, whatever the runner is used for. *)
Theorem loadScenario_default_shareScope self rawScenario ctx scn ctx' :
  loadScenario self rawScenario ctx = (Ok scn, ctx') ->
  rs_shareScope rawScenario = None ->
  shareScope scn = true
  /\ forall `{Runner.Collaborators} def (scenario : Scenario Runner.StepRef) st l st',
       shareScope scenario = shareScope scn ->
       Runner.prepareScope def scenario st = (Ok l, st') ->
       scopeNameIn scenario st = "_defaultScope"
       /\ Runner.scopeTracking st' !! "_defaultScope" = Some l
       /\ forall st2,
            rtc runnerStep (Runner.executeScenario def scenario st).2 st2 ->
            Runner.scopeTracking st2 !! "_defaultScope" = Some l.
Proof.
  intros Hload Hnone. apply loadScenario_shareScope in Hload. rewrite Hnone in Hload.
  split; [done|]. intros C def scenario st l st' Hshare Hprep.
  rewrite Hload in Hshare.
  pose proof (prepareScope_tracked _ _ _ _ _ Hprep) as Ht.
  rewrite (scopeNameIn_shared _ _ Hshare) in *. split; [done|]. split; [done|].
  pose proof (executeScenario_after_prepareScope _ _ _ _ _ Hprep) as ((Hsub & _) & _).
  intros st2 Hlater. apply advances_rtc in Hlater as ((Hsub' & _) & _).
  eapply lookup_weaken; [|exact Hsub']. eapply lookup_weaken; [|exact Hsub]. done.
Qed.

End Example.

(** C3 fails on the code: two template steps of one scenario, both on a
    template whose parameter [storageName] has no default and is bound by no
    variable, leave the name twice in the required variables of the
    scenario. *)
Lemma template_parameter_required_twice :
  requiredOf
    (@load engine loaderCollaborators loader "things.yaml"
       (rawDefinitionOf [templateStep "storage"; templateStep "moreStorage"]))
  = [["subscriptionId"; "location"; "storageName"; "storageName"]].
Proof. vm_compute. reflexivity. Qed.

(** C4 fails on the code: two template steps named ["deploy"] load
    together in one scenario, and so does a template step after an operation
    step of that name; two operation steps of that name do not. *)
Lemma template_steps_share_a_name :
  stepNamesOf
    (@load engine loaderCollaborators loader "things.yaml"
       (rawDefinitionOf [templateStep "deploy"; templateStep "deploy"]))
  = [["deploy"; "deploy"]]
  /\ stepNamesOf
       (@load engine loaderCollaborators loader "things.yaml"
          (rawDefinitionOf [operationStep "deploy"; templateStep "deploy"]))
     = [["deploy"; "deploy"]]
  /\ message
       (thrown
          (@load engine loaderCollaborators loader "things.yaml"
             (rawDefinitionOf [operationStep "deploy"; operationStep "deploy"])))
     = "Failed to load step {...}: Duplicated step name: deploy".
Proof. repeat split; vm_compute; reflexivity. Qed.

(** C5, as stated, fails on an example file without [api-version]: the
    step loads with the parameters of the file, where [api-version] is
    undefined, although [apiVersionsMap] has a version for the operation. *)
Lemma example_without_api_version :
  rc_parameters
    <$> returned
          (@loadStepRestCall engine loaderCollaborators loader
             (inr (exampleStep "list" "list.json")) loadContext).1
  = Some [("subscriptionId", JsString "sub")]
  /\ getProp [("subscriptionId", JsString "sub")] "api-version" = JsUndefined
  /\ versionValue (apiVersionsMap loader !! "Things_List") = JsString "2020-01-01".
Proof. repeat split; vm_compute; reflexivity. Qed.

(** The example file gives [2015-01-01]; the step has the version of the
    index. *)
Lemma example_api_version_witness :
  getProp (rc_parameters loadedStep) "api-version" = JsString "2020-01-01".
Proof.
  destruct (@example_api_version engine loaderCollaborators loader
              (exampleStep "list" "listVersion.json") loadContext loadedStep loadedExample.2)
    as (content & operation & forced & patched & ctx1 & getVariable & Hcontent & _ & _ & _
        & Hforced & _ & Hid & Hsame & Hstep);
    [vm_compute; reflexivity |].
  vm_compute in Hcontent. injection Hcontent as <-.
  change (exampleParameterConvention patched getVariable operation) with patched in Hstep.
  change (rc_parameters patched = rc_parameters forced) in Hsame.
  rewrite Hstep, Hsame, (Hforced eq_refl), <- Hid, <- Hstep. vm_compute. reflexivity.
Defined.

(** A raw scenario without [shareScope], and a run of a scenario with the
    flag on a new runner. *)
Lemma loadScenario_default_shareScope_witness :
  shareScope compiledScenario = true
  /\ Runner.scopeTracking
       (@Runner.executeScenario engine (collaborators accepting) definition
          (scenarioNamed "S" true) runner).2
     !! "_defaultScope" = Some 0.
Proof.
  destruct (@loadScenario_default_shareScope engine loaderCollaborators loader
              (rawScenarioOf [operationStep "list"]) loadContext compiledScenario
              loadedScenario.2) as [Hflag Hrun]; [vm_compute; reflexivity | reflexivity |].
  split; [exact Hflag|].
  destruct (Hrun (collaborators accepting) definition (scenarioNamed "S" true) runner 0
              (@Runner.prepareScope engine (collaborators accepting) definition
                 (scenarioNamed "S" true) runner).2)
    as (_ & _ & Hlater); [by rewrite Hflag | vm_compute; reflexivity |].
  apply Hlater, rtc_refl.
Defined.

End LoaderFacts.

(** ** Objects and strings *)

Module JsFacts.

Lemma append_cons (x : ascii) (a b : string) : String x a +:+ b = String x (a +:+ b).
Proof. reflexivity. Qed.

Lemma append_assoc (a b c : string) : (a +:+ b) +:+ c = a +:+ b +:+ c.
Proof. induction a as [|x a IH]; [reflexivity|]. by rewrite !append_cons, IH. Qed.

Lemma append_nil_r (a : string) : a +:+ "" = a.
Proof. induction a as [|x a IH]; [reflexivity|]. by rewrite append_cons, IH. Qed.

Lemma lookupKey_setKey_eq {A : Type} (o : list (string * A)) (k : string) (v : A) :
  lookupKey (setKey o k v) k = Some v.
Proof.
  induction o as [|[k' v'] o IH]; simpl.
  - by rewrite String.eqb_refl.
  - destruct (String.eqb k' k) eqn:Hk; simpl; by rewrite Hk.
Qed.

Lemma lookupKey_setKey_ne {A : Type} (o : list (string * A)) (k k' : string) (v : A) :
  k <> k' -> lookupKey (setKey o k v) k' = lookupKey o k'.
Proof.
  intros Hne. induction o as [|[k0 v0] o IH]; simpl.
  - by apply String.eqb_neq in Hne as ->.
  - destruct (String.eqb k0 k) eqn:Hk; simpl.
    + apply String.eqb_eq in Hk as ->. by apply String.eqb_neq in Hne as ->.
    + by rewrite IH.
Qed.

End JsFacts.

(** ** More on the runner *)

Module RunnerLaws.

Import Runner Spec CallFacts Fixtures RunnerFacts Words RunnerSpec RunnerCases JsFacts.
Local Open Scope call_scope.

Section Draws.
Context `{Engine} `{Collaborators}.

Lemma needsValue_prefix v : needsValue v = true -> is_Some (v_prefix v).
Proof.
  unfold needsValue. intros [[_ Hp]%andb_prop _]%andb_prop.
  by apply bool_decide_eq_true in Hp.
Qed.

Lemma generateValue_run v st :
  generateValue v st
  = if needsValue v then
      (Ok (with_value v (JsString (default "" (v_prefix v)
                                   +:+ getRandomString (randomCount st)))),
       with_randomCount (S (randomCount st)) st)
    else (Ok v, st).
Proof.
  destruct (needsValue v) eqn:Hn.
  - destruct (needsValue_prefix v Hn) as [p Hp]. rewrite Hp. simpl.
    apply generateValue_fresh. unfold needsValue in Hn.
    apply andb_prop in Hn as [[Ht _]%andb_prop Hv].
    split; [|done]. apply orb_prop in Ht as [Ht|Ht]; apply String.eqb_eq in Ht; auto.
  - by apply generateValue_idle.
Qed.

Lemma awaiting_cons kv vars :
  awaiting (kv :: vars) = (if needsValue kv.2 then 1 else 0) + awaiting vars.
Proof. unfold awaiting. simpl. by destruct (needsValue kv.2). Qed.

Lemma generateValues_run vars st :
  exists vars',
    generateValues vars st
    = (Ok vars', with_randomCount (randomCount st + awaiting vars) st)
    /\ length vars' = length vars
    /\ forall i name v, vars !! i = Some (name, v) ->
         vars' !! i
         = Some (name,
                 if needsValue v then
                   with_value v
                     (JsString (default "" (v_prefix v)
                                +:+ getRandomString (randomCount st + awaiting (take i vars))))
                 else v).
Proof.
  revert st. induction vars as [|[k v] vars IH]; intros st.
  - exists []. split; [|split; [done|by intros i ? ? Hi; rewrite lookup_nil in Hi]].
    simpl. unfold ret. f_equal. destruct st. unfold with_randomCount, awaiting. simpl.
    by rewrite Nat.add_0_r.
  - simpl. unfold bind at 1. rewrite generateValue_run, awaiting_cons. simpl.
    destruct (needsValue v) eqn:Hn.
    + destruct (IH (with_randomCount (S (randomCount st)) st)) as (vars' & Hrun & Hlen & Hlook).
      eexists. unfold bind, ret. rewrite Hrun. split; [|split].
      * f_equal. cbn. unfold with_randomCount. cbn. f_equal. lia.
      * simpl. by rewrite Hlen.
      * intros [|i] name w Hi; simpl in *.
        -- simplify_eq. rewrite Hn. unfold awaiting. simpl. by rewrite Nat.add_0_r.
        -- rewrite (Hlook _ _ _ Hi). rewrite awaiting_cons. simpl. rewrite Hn.
           cbn. by rewrite Nat.add_succ_r.
    + destruct (IH st) as (vars' & Hrun & Hlen & Hlook).
      eexists. unfold bind, ret. rewrite Hrun. split; [|split].
      * done.
      * simpl. by rewrite Hlen.
      * intros [|i] name w Hi; simpl in *.
        -- simplify_eq. by rewrite Hn.
        -- rewrite (Hlook _ _ _ Hi). rewrite awaiting_cons. simpl. by rewrite Hn.
Qed.

Lemma generateValues_generated vars st :
  generateValues vars st
  = (Ok (generated (randomCount st) vars),
     with_randomCount (randomCount st + awaiting vars) st).
Proof.
  revert st. induction vars as [|[k v] vars IH]; intros st.
  - simpl. unfold ret. f_equal. destruct st. unfold with_randomCount, awaiting. simpl.
    by rewrite Nat.add_0_r.
  - simpl. unfold bind at 1. rewrite generateValue_run, awaiting_cons. simpl.
    destruct (needsValue v) eqn:Hn.
    + unfold bind, ret. rewrite IH. f_equal. cbn. unfold with_randomCount. cbn. f_equal. lia.
    + unfold bind, ret. by rewrite IH.
Qed.

Lemma needsValue_with_value v value : needsValue (with_value v (JsString value)) = false.
Proof. unfold needsValue. simpl. apply andb_false_r. Qed.

Lemma generated_names n vars : (generated n vars).*1 = vars.*1.
Proof.
  revert n. induction vars as [|[k v] vars IH]; intros n; simpl; [done|].
  destruct (needsValue v); simpl; by rewrite IH.
Qed.

Lemma awaiting_generated n vars : awaiting (generated n vars) = 0.
Proof.
  revert n. induction vars as [|[k v] vars IH]; intros n; simpl; [done|].
  destruct (needsValue v) eqn:Hn; rewrite awaiting_cons; simpl.
  - by rewrite needsValue_with_value, IH.
  - by rewrite Hn, IH.
Qed.

Lemma generated_idle n vars : awaiting vars = 0 -> generated n vars = vars.
Proof.
  revert n. induction vars as [|[k v] vars IH]; intros n; simpl; [done|].
  rewrite awaiting_cons. simpl. destruct (needsValue v); [done|]. simpl.
  intros Hrest. by rewrite IH.
Qed.

(** [setBatch] on a new layer: the layer has the variables given, when no
    name is given twice. *)
Lemma setKey_new {A : Type} (o : list (string * A)) k v :
  k ∉ o.*1 -> setKey o k v = o ++ [(k, v)].
Proof.
  induction o as [|[k' v'] o IH]; simpl; [done|].
  intros [Hne Hk]%not_elem_of_cons.
  assert (String.eqb k' k = false) as -> by (apply String.eqb_neq; congruence).
  by rewrite IH.
Qed.

Lemma setBatch_new base acc vars :
  NoDup (acc ++ vars).*1 ->
  setBatch (mkVariableEnv acc base) vars = mkVariableEnv (acc ++ vars) base.
Proof.
  revert acc. induction vars as [|[k v] vars IH]; intros acc Hnodup.
  - by rewrite app_nil_r.
  - change (setBatch (mkVariableEnv acc base) ((k, v) :: vars))
      with (setBatch (mkVariableEnv (setKey acc k v) base) vars).
    rewrite setKey_new.
    + rewrite IH; rewrite <- app_assoc; [done|]. exact Hnodup.
    + rewrite fmap_app in Hnodup. apply NoDup_app in Hnodup as (_ & Hapart & _).
      intros Hin. apply (Hapart k Hin). by left.
Qed.

(** The objects of [vars] are found in a layer that has them in order. *)
Lemma assigned_same vars layer :
  NoDup vars.*1 -> layer.*1 = vars.*1 -> assigned vars layer = layer.
Proof.
  unfold assigned. revert layer. induction vars as [|[k v] vars IH]; intros layer Hnodup Hnames.
  - by destruct layer.
  - destruct layer as [|[k' v'] layer]; [done|]. simpl in *. simplify_eq.
    apply NoDup_cons in Hnodup as [Hk Hnodup]. rewrite String.eqb_refl. simpl. f_equal.
    transitivity (map (fun kv => (kv.1, default kv.2 (lookupKey layer kv.1))) vars);
      [|by apply IH].
    apply map_ext_in. intros [k0 v0] Hin%list_elem_of_In. simpl.
    assert (String.eqb k k0 = false) as ->; [|done].
    apply String.eqb_neq. intros ->. apply Hk. apply list_elem_of_fmap. by exists (k0, v0).
Qed.

(** The layer that [generateValueFromPrefix] returns, and the draws it
    makes. *)
Lemma generateValueFromPrefix_run env st :
  exists env1,
    generateValueFromPrefix env st
    = (Ok env1, with_randomCount (randomCount st + awaiting (getVariables env)) st)
    /\ baseEnv env1 = baseEnv env
    /\ length (getVariables env1) = length (getVariables env)
    /\ forall i name v, getVariables env !! i = Some (name, v) ->
         getVariables env1 !! i
         = Some (name,
                 if needsValue v then
                   with_value v
                     (JsString (default "" (v_prefix v)
                                +:+ getRandomString
                                      (randomCount st
                                       + awaiting (take i (getVariables env)))))
                 else v).
Proof.
  destruct (generateValues_run (getVariables env) st) as (vars' & Hrun & Hlen & Hlook).
  exists (withVariables env vars'). unfold generateValueFromPrefix, bind, ret. rewrite Hrun.
  split; [done|]. by destruct env.
Qed.

End Draws.

(** What is pending when the input ends is written out as it was read. *)
Lemma rewritePathFrom_brace pending a x :
  rewritePathFrom pending (a +:+ String "{" x)
  = rewritePathFrom pending a +:+ rewritePathFrom (Some "") x.
Proof.
  revert pending. induction a as [|c a IH]; intros pending.
  - destruct pending as [run|]; simpl; [|done]. by rewrite append_assoc.
  - simpl. destruct pending as [run|].
    + destruct (isPathVarChar c); [apply IH|].
      destruct (Ascii.eqb c "}" && negb (String.eqb run "")).
      * rewrite IH. by rewrite !append_assoc.
      * destruct (Ascii.eqb c "{"); rewrite IH; simpl; by rewrite !append_assoc.
    + destruct (Ascii.eqb c "{"); rewrite IH; by simpl.
Qed.

Lemma rewritePathFrom_name run n b :
  allChars isPathVarChar n = true -> run +:+ n <> "" ->
  rewritePathFrom (Some run) (n +:+ String "}" b)
  = "$(" +:+ (run +:+ n) +:+ ")" +:+ rewritePathFrom None b.
Proof.
  revert run. induction n as [|c n IH]; intros run Hall Hne.
  - simpl. rewrite append_nil_r in *.
    assert (String.eqb run "" = false) as -> by by apply String.eqb_neq.
    done.
  - simpl in Hall. apply andb_prop in Hall as [Hc Hall]. simpl. rewrite Hc.
    rewrite IH; [|done|].
    + rewrite (append_assoc run (String c "") n). reflexivity.
    + rewrite (append_assoc run (String c "") n). by destruct run.
Qed.

Lemma rewritePathFrom_plain s :
  allChars (fun c => negb (Ascii.eqb c "{")) s = true -> rewritePathFrom None s = s.
Proof.
  induction s as [|c s IH]; simpl; [done|]. intros [Hc Hs]%andb_prop.
  apply negb_true_iff in Hc. rewrite Hc. by rewrite IH.
Qed.

(** X2: the path that [executeRestCallStep] sends: a [{name}] of the path
    template, where [name] is a non-empty word of letters, digits, [_] and
    [$], is written [$(name)], what is before it and what is after it are
    rewritten independently of it, and a text without an opening brace is
    left as it is. *)
Theorem rewritePathTemplate_variable a n b :
  n <> "" -> allChars isPathVarChar n = true ->
  rewritePathTemplate (a +:+ "{" +:+ n +:+ "}" +:+ b)
  = rewritePathTemplate a +:+ "$(" +:+ n +:+ ")" +:+ rewritePathTemplate b
  /\ (allChars (fun c => negb (Ascii.eqb c "{")) a = true -> rewritePathTemplate a = a)
  /\ (allChars (fun c => negb (Ascii.eqb c "{")) b = true -> rewritePathTemplate b = b).
Proof.
  intros Hne Hall. split; [|split; apply rewritePathFrom_plain].
  unfold rewritePathTemplate.
  change ("{" +:+ n +:+ "}" +:+ b) with (String "{" (n +:+ String "}" b)).
  rewrite rewritePathFrom_brace. f_equal.
  by rewrite rewritePathFrom_name.
Qed.

(** The path template of the operation of the fixtures. *)
Lemma rewritePathTemplate_variable_witness :
  rewritePathTemplate "/subscriptions/{subscriptionId}/things"
  = "/subscriptions/$(subscriptionId)/things".
Proof.
  destruct (rewritePathTemplate_variable "/subscriptions/" "subscriptionId" "/things")
    as (Hpath & Hbefore & Hafter); [discriminate | vm_compute; reflexivity |].
  change ("/subscriptions/" +:+ "{" +:+ "subscriptionId" +:+ "}" +:+ "/things")
    with "/subscriptions/{subscriptionId}/things" in Hpath.
  rewrite Hpath, (Hbefore eq_refl), (Hafter eq_refl). reflexivity.
Defined.

Section Request.
Context `{Engine} `{Collaborators}.

Lemma fillRequest_state step params req st :
  (fillRequest step params req st).2 = st.
Proof.
  revert req. induction params as [|p params IH]; intros req; simpl; [done|].
  destruct (readProp _ _) eqn:Hv;
    repeat first [ done | apply IH
                 | match goal with |- context [if ?b then _ else _] => destruct b end
                 | match goal with |- context [match ?x with _ => _ end] => destruct x end ].
Qed.

End Request.

Section Request2.
Context `{Engine} `{Collaborators}.

Lemma isJsUndefined_false v : v <> JsUndefined -> isJsUndefined v = false.
Proof. by destruct v. Qed.

Lemma isJsUndefined_true v : isJsUndefined v = true -> v = JsUndefined.
Proof. by destruct v. Qed.

(** One turn of the loop of [executeRestCallStep]. *)
Lemma fillRequest_cons step p params req :
  fillRequest step (p :: params) req
  = let param := resolveRefObj p in
    let paramVal := parameterValue step p in
    if isJsUndefined paramVal then
      if p_required param then
        throw (newError ("Parameter value for " +:+ String "034" (p_name param)
                         +:+ String "034" (" is not found in step: " +:+ rc_step step)))
      else fillRequest step params req
    else if String.eqb (p_in param) "path" then
      match pathVariables req with
      | Some vars =>
          fillRequest step params
            (with_pathVariables req (Some (writeProp vars (p_name param) paramVal)))
      | None => throw (newError "Cannot set properties of undefined")
      end
    else if String.eqb (p_in param) "query" then
      fillRequest step params (with_query req (writeProp (query req) (p_name param) paramVal))
    else if String.eqb (p_in param) "header" then
      fillRequest step params
        (with_headers req (writeProp (headers req) (p_name param) paramVal))
    else if String.eqb (p_in param) "body" then
      fillRequest step params (with_body req (Some paramVal))
    else
      throw (newError ("Parameter " +:+ String "034" ("in" +:+ String "034"
                       (" not supported: " +:+ p_in param)))).
Proof. unfold parameterValue. simpl. by destruct (readProp _ _). Qed.

(** A write keeps what the object holds, and makes it hold the name
    written, unless that name is [__proto__]. *)
Lemma holds_writeProp step o k name :
  holds step o name \/ (k = name /\ name <> "__proto__") ->
  holds step (writeProp o k (readProp (rc_parameters step) k)) name.
Proof.
  unfold holds, writeProp. destruct (String.eqb k "__proto__") eqn:Hproto.
  - apply String.eqb_eq in Hproto as ->. by intros [?|[<- ?]].
  - destruct (decide (k = name)) as [->|Hne].
    + intros _. apply lookupKey_setKey_eq.
    + intros [Ho|[? _]]; [|done]. by rewrite lookupKey_setKey_ne.
Qed.

Lemma fillRequest_keeps step params req st req' st' (Q : JsValue -> Prop) :
  fillRequest step params req st = (Ok req', st') ->
  method req' = method req /\ path req' = path req
  /\ (forall name, holds step (query req) name -> holds step (query req') name)
  /\ (forall name, holds step (headers req) name -> holds step (headers req') name)
  /\ (forall name vars, pathVariables req = Some vars -> holds step vars name ->
        exists vars', pathVariables req' = Some vars' /\ holds step vars' name)
  /\ ((forall p, p ∈ params -> p_in (resolveRefObj p) = "body" -> Q (parameterValue step p)) ->
      from_option Q False (body req) -> from_option Q False (body req')).
Proof.
  revert req. induction params as [|p params IH]; intros req.
  - simpl. unfold ret. intros ?; simplify_eq. repeat split; eauto.
  - rewrite fillRequest_cons. cbv zeta.
    assert (forall req0,
              method req0 = method req -> path req0 = path req ->
              (forall name, holds step (query req) name -> holds step (query req0) name) ->
              (forall name, holds step (headers req) name -> holds step (headers req0) name) ->
              (forall name vars, pathVariables req = Some vars -> holds step vars name ->
                 exists vars', pathVariables req0 = Some vars' /\ holds step vars' name) ->
              ((p_in (resolveRefObj p) = "body" -> Q (parameterValue step p)) ->
               from_option Q False (body req) -> from_option Q False (body req0)) ->
              fillRequest step params req0 st = (Ok req', st') ->
              method req' = method req /\ path req' = path req
              /\ (forall name, holds step (query req) name -> holds step (query req') name)
              /\ (forall name, holds step (headers req) name -> holds step (headers req') name)
              /\ (forall name vars, pathVariables req = Some vars -> holds step vars name ->
                    exists vars', pathVariables req' = Some vars' /\ holds step vars' name)
              /\ ((forall q, q ∈ p :: params -> p_in (resolveRefObj q) = "body" ->
                     Q (parameterValue step q)) ->
                  from_option Q False (body req) -> from_option Q False (body req'))) as Hstep.
    { intros req0 E1 E2 E3 E4 E5 E6 Hrun.
      destruct (IH _ Hrun) as (F1 & F2 & F3 & F4 & F5 & F6).
      split; [congruence|]. split; [congruence|]. split; [auto|]. split; [auto|]. split.
      - intros name vars Hv Hh. destruct (E5 _ _ Hv Hh) as (vars0 & Hv0 & Hh0). eauto.
      - intros HQ Hb. apply F6.
        + intros q Hq. apply HQ. by right.
        + apply E6; [|done]. apply HQ. by left. }
    destruct (isJsUndefined _).
    { destruct (p_required _); [done|]. apply Hstep; auto. eauto. }
    destruct (String.eqb (p_in _) "path") eqn:Hpath.
    { destruct (pathVariables req) as [vars|] eqn:Hvars; [|done].
      apply Hstep; auto.
      intros name vars0 ? Hh. simplify_eq. eexists. split; [done|].
      apply holds_writeProp. auto. }
    destruct (String.eqb (p_in _) "query") eqn:Hquery.
    { apply Hstep; auto; [|eauto]. intros name Hh. apply holds_writeProp. auto. }
    destruct (String.eqb (p_in _) "header") eqn:Hheader.
    { apply Hstep; auto; [|eauto]. intros name Hh. apply holds_writeProp. auto. }
    destruct (String.eqb (p_in _) "body") eqn:Hbody; [|done].
    apply Hstep; auto; [eauto|].
    intros HQ _. apply HQ. by apply String.eqb_eq.
Qed.

End Request2.

Section Request3.
Context `{Engine} `{Collaborators}.

Lemma fillRequest_sound step params req st req' st' :
  fillRequest step params req st = (Ok req', st') ->
  st' = st /\ method req' = method req /\ path req' = path req
  /\ forall p, p ∈ params ->
       if isJsUndefined (parameterValue step p) then p_required (resolveRefObj p) = false
       else p_name (resolveRefObj p) <> "__proto__" -> placed step params req' p.
Proof.
  intros Hrun. split.
  { pose proof (fillRequest_state step params req st) as Hst. by rewrite Hrun in Hst. }
  destruct (fillRequest_keeps _ _ _ _ _ _ (fun _ => True) Hrun) as (E1 & E2 & _).
  split; [done|]. split; [done|]. clear E1 E2.
  revert req Hrun. induction params as [|p params IH]; intros req Hrun q Hq.
  { by apply elem_of_nil in Hq. }
  rewrite fillRequest_cons in Hrun. cbv zeta in Hrun.
  assert (forall req0,
            fillRequest step params req0 st = (Ok req', st') ->
            q ∈ params ->
            if isJsUndefined (parameterValue step q) then p_required (resolveRefObj q) = false
            else p_name (resolveRefObj q) <> "__proto__" -> placed step (p :: params) req' q)
    as Htail.
  { intros req0 Hrun0 Hin. specialize (IH _ Hrun0 _ Hin).
    destruct (isJsUndefined (parameterValue step q)); [done|]. intros Hname.
    destruct (IH Hname) as [?|[?|[?|(? & q' & ? & ? & ?)]]];
      [by left|by right; left|by right; right; left|].
    right; right; right. split; [done|]. exists q'. split; [by right|done]. }
  apply elem_of_cons in Hq as [->|Hq].
  2:{ destruct (isJsUndefined (parameterValue step p)).
      { destruct (p_required _); [done|]. by eapply Htail. }
      destruct (String.eqb (p_in _) "path").
      { destruct (pathVariables req); [by eapply Htail|done]. }
      destruct (String.eqb (p_in _) "query"); [by eapply Htail|].
      destruct (String.eqb (p_in _) "header"); [by eapply Htail|].
      destruct (String.eqb (p_in _) "body"); [by eapply Htail|done]. }
  destruct (isJsUndefined (parameterValue step p)) eqn:Hundef.
  { by destruct (p_required _). }
  intros Hname.
  destruct (String.eqb (p_in _) "path") eqn:Hpath.
  { destruct (pathVariables req) as [vars|] eqn:Hvars; [|done].
    destruct (fillRequest_keeps _ _ _ _ _ _ (fun _ => True) Hrun) as (_ & _ & _ & _ & F5 & _).
    left. split; [by apply String.eqb_eq|]. eapply F5; [done|].
    apply holds_writeProp. auto. }
  destruct (String.eqb (p_in _) "query") eqn:Hquery.
  { destruct (fillRequest_keeps _ _ _ _ _ _ (fun _ => True) Hrun) as (_ & _ & F3 & _).
    right; left. split; [by apply String.eqb_eq|]. apply F3. apply holds_writeProp. auto. }
  destruct (String.eqb (p_in _) "header") eqn:Hheader.
  { destruct (fillRequest_keeps _ _ _ _ _ _ (fun _ => True) Hrun) as (_ & _ & _ & F4 & _).
    right; right; left. split; [by apply String.eqb_eq|]. apply F4. apply holds_writeProp. auto. }
  destruct (String.eqb (p_in _) "body") eqn:Hbody; [|done].
  right; right; right. split; [by apply String.eqb_eq|].
  destruct (fillRequest_keeps _ _ _ _ _ _
              (fun b => exists q, q ∈ p :: params /\ p_in (resolveRefObj q) = "body"
                                  /\ b = parameterValue step q) Hrun)
    as (_ & _ & _ & _ & _ & F6).
  assert (from_option
            (fun b => exists q, q ∈ p :: params /\ p_in (resolveRefObj q) = "body"
                                /\ b = parameterValue step q) False (body req')) as Hb.
  { apply F6.
    - intros q Hq Hqb. exists q. split; [by right|done].
    - simpl. exists p. split; [by left|]. split; [by apply String.eqb_eq|done]. }
  destruct (body req') as [b|]; [|done]. simpl in Hb.
  destruct Hb as (q & ? & ? & ->). eauto.
Qed.

(** A required parameter without a value stops the step before the client
    is called. *)
Lemma fillRequest_missing step params req st p :
  p ∈ params ->
  p_required (resolveRefObj p) = true ->
  parameterValue step p = JsUndefined ->
  exists e, fillRequest step params req st = (Throw e, st).
Proof.
  intros Hin Hreq Hundef.
  destruct (fillRequest step params req st) as [[req'|e] st'] eqn:Hrun.
  - destruct (fillRequest_sound _ _ _ _ _ _ Hrun) as (_ & _ & _ & Hall).
    specialize (Hall p Hin). rewrite Hundef in Hall. simpl in Hall. congruence.
  - pose proof (fillRequest_state step params req st) as Hst. rewrite Hrun in Hst.
    simpl in Hst. subst. eauto.
Qed.

End Request3.

Section RestCall.
Context `{Engine} `{Collaborators}.

Lemma executeRestCallStep_unfold ref step operation env st :
  rc_operation step = Some operation ->
  executeRestCallStep ref step env st
  = match fillRequest step (default [] (op_parameters operation)) (emptyRequest operation) st with
    | (Throw e, _) => (Throw e, st)
    | (Ok req0, _) =>
        match (if resolveVariables st then resolveRequest env req0 else Ok req0) with
        | Throw e => (Throw e, st)
        | Ok req =>
            let st1 := with_trace (trace st ++ [Client (sendRestCallRequest req step env)]) st in
            match client (trace st) (sendRestCallRequest req step env) with
            | Some e => (Throw e, st1)
            | None =>
                if resolveVariables st
                   && negb (bool_decide (is_Some (rc_resolvedParameters step)))
                then
                  match resolveParameters env (rc_parameters step) with
                  | Throw e => (Throw e, st1)
                  | Ok resolved =>
                      (Ok tt,
                       with_stepObjects
                         (<[ref := restCall (with_resolvedParameters step resolved)]>
                            (stepObjects st1)) st1)
                  end
                else (Ok tt, st1)
            end
        end
    end.
Proof.
  intros Hop. unfold executeRestCallStep. rewrite Hop. fold (emptyRequest operation).
  unfold bind at 1.
  pose proof (fillRequest_state step (default [] (op_parameters operation))
                (emptyRequest operation) st) as Hst.
  destruct (fillRequest _ _ _ st) as [[req0|e] st0]; simpl in Hst; subst st0; [|done].
  unfold bind at 1, this. unfold bind at 1.
  destruct (resolveVariables st) eqn:Hresolve.
  - unfold liftResult at 1. destruct (resolveRequest env req0) as [req|e]; [|done].
    unfold bind at 1, await. destruct (client _ _); [done|]. simpl.
    destruct (negb _); [|done]. unfold bind, liftResult.
    by destruct (resolveParameters _ _).
  - unfold ret at 1. unfold bind at 1, await. by destruct (client _ _).
Qed.

End RestCall.

Section RestCall2.
Context `{Engine} `{Collaborators}.

(** X3: a step with an operation either fails before anything is sent,
    leaving the runner as it was, or exactly one request is sent to the
    client, for this step and this environment, and nothing else is logged.
    The request that is sent is built from the operation: the method in
    upper case, the rewritten path template, and every parameter of the
    operation that the step has a value for placed by its [in] (path
    variables, query, headers, body); a parameter without a value is one that
    is not required. The value is the one that [step.parameters[name]]
    reads: the own property, or the member of [Object.prototype] of that
    name; a parameter named [__proto__] is the exception, a write under that
    name leaves no own property. The variables of the request are resolved
    exactly when [resolveVariables] is set. *)
Theorem executeRestCallStep_request ref step operation env st r st' :
  rc_operation step = Some operation ->
  executeRestCallStep ref step env st = (r, st') ->
  (st' = st /\ isOk r = false)
  \/ exists req0 req,
       trace st' = trace st ++ [Client (sendRestCallRequest req step env)]
       /\ (if resolveVariables st then resolveRequest env req0 = Ok req else req = req0)
       /\ method req0 = toUpperCase (_method operation)
       /\ path req0 = rewritePathTemplate (_pathTemplate operation)
       /\ forall p, p ∈ default [] (op_parameters operation) ->
            if isJsUndefined (parameterValue step p) then p_required (resolveRefObj p) = false
            else p_name (resolveRefObj p) <> "__proto__" ->
                 placed step (default [] (op_parameters operation)) req0 p.
Proof.
  intros Hop. rewrite (executeRestCallStep_unfold _ _ _ _ _ Hop).
  destruct (fillRequest _ _ _ st) as [[req0|e] st0] eqn:Hfill;
    [|intros ?; simplify_eq; by left].
  destruct (fillRequest_sound _ _ _ _ _ _ Hfill) as (_ & Hm & Hp & Hall).
  destruct (if resolveVariables st then resolveRequest env req0 else Ok req0)
    as [req|e] eqn:Hreq; [|intros ?; simplify_eq; by left].
  intros Hrun. right. exists req0, req.
  split.
  { cbv zeta in Hrun. destruct (client _ _); [by simplify_eq|].
    destruct (_ && _); [|by simplify_eq].
    destruct (resolveParameters _ _); by simplify_eq. }
  split; [|done].
  destruct (resolveVariables st); [done|by simplify_eq].
Qed.

(** X4: when the step has no value for a required parameter of its
    operation ([step.parameters[name]] is undefined: no own property of that
    name, and the name is not one that [Object.prototype] answers to),
    [executeRestCallStep] throws and the runner is as it was: no request
    reaches the client. *)
Theorem executeRestCallStep_missing_parameter ref step operation env st p :
  rc_operation step = Some operation ->
  p ∈ default [] (op_parameters operation) ->
  p_required (resolveRefObj p) = true ->
  parameterValue step p = JsUndefined ->
  exists e, executeRestCallStep ref step env st = (Throw e, st).
Proof.
  intros Hop Hin Hreq Hundef. rewrite (executeRestCallStep_unfold _ _ _ _ _ Hop).
  destruct (fillRequest_missing step _ (emptyRequest operation) st p Hin Hreq Hundef)
    as [e ->]. eauto.
Qed.

Lemma generateValueFromPrefix_state env st :
  exists env1 n, generateValueFromPrefix env st = (Ok env1, with_randomCount n st).
Proof.
  destruct (generateValues_run (getVariables env) st) as (vars' & Hrun & _).
  unfold generateValueFromPrefix, bind, ret. rewrite Hrun. eauto.
Qed.

End RestCall2.

#[global] Instance keepsVariables_refl ref vars : Reflexive (keepsVariables ref vars).
Proof. by intros st. Qed.

#[global] Instance keepsVariables_trans ref vars : Transitive (keepsVariables ref vars).
Proof.
  intros st1 st2 st3 [A1 A2] [B1 B2]. split.
  - intros l Hl. by rewrite B1, A1.
  - auto.
Qed.

#[global] Instance keepsDraws_refl : Reflexive keepsDraws.
Proof. by intros st. Qed.

#[global] Instance keepsDraws_trans : Transitive keepsDraws.
Proof. unfold keepsDraws. intros st1 st2 st3 A B. congruence. Qed.

Section Draws2.
Context `{Engine} `{Collaborators}.

Lemma draws_log ev : preserves keepsDraws (log ev).
Proof. by intros st. Qed.

Lemma draws_await call : preserves keepsDraws (await call).
Proof. intros st. unfold await. by destruct (client _ _). Qed.

Lemma draws_readScope l : preserves keepsDraws (readScope l).
Proof. intros st. unfold readScope. by destruct (scopes st !! l). Qed.

Lemma draws_writeStep l s : preserves keepsDraws (writeStep l s).
Proof. by intros st. Qed.

Lemma draws_fillRequest step params req : preserves keepsDraws (fillRequest step params req).
Proof. intros st. rewrite fillRequest_state. apply reflexivity. Qed.

Hint Resolve draws_log draws_await draws_readScope draws_writeStep draws_fillRequest
  : preserves.

(** A rest call draws no random string. *)
Lemma draws_executeRestCallStep ref step env0 :
  preserves keepsDraws (executeRestCallStep ref step env0).
Proof. unfold executeRestCallStep. preserves_tac. Qed.

(** A deployment draws at most one random string, for its name. *)
Lemma draws_executeArmTemplateStep ref step env0 scope st r st' :
  executeArmTemplateStep ref step env0 scope st = (r, st') ->
  randomCount st <= randomCount st' <= randomCount st + 1.
Proof.
  unfold executeArmTemplateStep. unfold bind at 1, liftResult at 1.
  destruct (getRequiredString env0 "subscriptionId") as [sub|?];
    [|intros ?; simplify_eq; lia].
  unfold bind at 1, liftResult at 1.
  destruct (getRequiredString env0 "resourceGroupName") as [rg|?];
    [|intros ?; simplify_eq; lia].
  unfold bind at 1, randomString. set (st1 := with_randomCount _ st).
  set (rest := bind _ _).
  assert (preserves keepsDraws rest) as Hrest by (subst rest; preserves_tac).
  specialize (Hrest st1). unfold keepsDraws in Hrest. intros Hrun. rewrite Hrun in Hrest.
  simpl in Hrest. rewrite Hrest. subst st1. simpl. lia.
Qed.

End Draws2.

Section Materialise.
Context `{Engine} `{Collaborators}.
Variable ref : StepRef.
Variable vars : list (string * Variable_).

Lemma variables_log ev : preserves (keepsVariables ref vars) (log ev).
Proof. by intros st. Qed.

Lemma variables_await call : preserves (keepsVariables ref vars) (await call).
Proof. intros st. unfold await. by destruct (client _ _). Qed.

Lemma variables_randomString : preserves (keepsVariables ref vars) randomString.
Proof. by intros st. Qed.

Lemma variables_readScope l : preserves (keepsVariables ref vars) (readScope l).
Proof. intros st. unfold readScope. by destruct (scopes st !! l). Qed.

Lemma variables_writeStep s :
  step_variables s = vars -> preserves (keepsVariables ref vars) (writeStep ref s).
Proof.
  intros Hs st. split; simpl.
  - intros l Hl. by rewrite list_lookup_insert_ne.
  - intros Hold. destruct (stepObjects st !! ref) as [old|] eqn:Hlook; [|done].
    rewrite list_lookup_insert_eq; [by rewrite <- Hs|].
    by eapply lookup_lt_Some.
Qed.

Lemma variables_fillRequest step params req :
  preserves (keepsVariables ref vars) (fillRequest step params req).
Proof. intros st. rewrite fillRequest_state. apply reflexivity. Qed.

Hint Resolve variables_log variables_await variables_randomString variables_readScope
  variables_writeStep variables_fillRequest : preserves.

Lemma variables_executeRestCallStep step env0 :
  variables (rc_scope step) = vars ->
  preserves (keepsVariables ref vars) (executeRestCallStep ref step env0).
Proof. intros Hs. unfold executeRestCallStep. preserves_tac. Qed.

Lemma variables_executeArmTemplateStep step env0 scope :
  variables (arm_scope step) = vars ->
  preserves (keepsVariables ref vars) (executeArmTemplateStep ref step env0 scope).
Proof. intros Hs. unfold executeArmTemplateStep. preserves_tac. Qed.

End Materialise.

Section Materialise2.
Context `{Engine} `{Collaborators}.

(** The layer of [setBatch] does not depend on the parent of the
    environment. *)
Lemma setBatch_layer acc base base' values :
  getVariables (setBatch (mkVariableEnv acc base) values)
  = getVariables (setBatch (mkVariableEnv acc base') values).
Proof.
  revert acc. induction values as [|[k v] values IH]; intros acc; [done|].
  change (setBatch (mkVariableEnv acc base) ((k, v) :: values))
    with (setBatch (mkVariableEnv (setKey acc k v) base) values).
  change (setBatch (mkVariableEnv acc base') ((k, v) :: values))
    with (setBatch (mkVariableEnv (setKey acc k v) base') values).
  apply IH.
Qed.

Lemma step_variables_with s values : step_variables (with_step_variables s values) = values.
Proof. by destruct s. Qed.

(** The variables of a step object after its values were generated: each
    Variable object of the step, in the order of the step. *)
Lemma stepAfter_variables s n :
  NoDup (step_variables s).*1 ->
  step_variables (stepAfter s n) = generated n (step_variables s).
Proof.
  intros Hnodup. unfold stepAfter, newVariableEnv. rewrite step_variables_with.
  rewrite (setBatch_new None [] (step_variables s) Hnodup). simpl.
  apply assigned_same; [done|]. apply generated_names.
Qed.

(** [executeStep], up to the dispatch on the type of the step. *)
Lemma executeStep_dispatch ref s env scope st :
  stepObjects st !! ref = Some s ->
  executeStep ref env scope st
  = (let layer := setBatch (newVariableEnv (Some env)) (step_variables s) in
     let s1 := stepAfter s (randomCount st) in
     let* stepEnv :=
       (if resolveVariables st then
          liftResult
            (resolve (withVariables layer (generated (randomCount st) (getVariables layer))))
        else ret (withVariables layer (generated (randomCount st) (getVariables layer)))) in
     tryCatch
       (match s1 with
        | restCall rc => executeRestCallStep ref rc stepEnv
        | armTemplateDeployment arm => executeArmTemplateStep ref arm stepEnv scope
        end)
       (fun error =>
          throw (newError ("Failed to execute step " +:+ step_name s1 +:+ ": "
                           +:+ message error +:+ " " +:+ newline +:+ stack error))))
      (with_stepObjects (<[ref := stepAfter s (randomCount st)]> (stepObjects st))
         (with_randomCount
            (randomCount st
             + awaiting (getVariables (setBatch (newVariableEnv (Some env)) (step_variables s))))
            (with_trace (trace st ++ [Enter_executeStep ref]) st))).
Proof.
  intros Hs. unfold executeStep. unfold bind at 1, log, update. cbn [fst snd].
  unfold bind at 1, readStep. cbn [stepObjects with_trace]. rewrite Hs.
  unfold bind at 1, generateValueFromPrefix. unfold bind at 1.
  rewrite generateValues_generated. unfold ret at 1. cbv zeta.
  unfold bind at 1, writeStep, update. cbn [fst snd].
  unfold bind at 1, this.
  unfold stepAfter, newVariableEnv.
  rewrite (setBatch_layer [] None (Some env)).
  reflexivity.
Qed.

(** After the values were generated, the step keeps the variables of its
    step object and of every other one. *)
Lemma executeStep_after ref s env scope st r st' :
  stepObjects st !! ref = Some s ->
  executeStep ref env scope st = (r, st') ->
  keepsVariables ref (step_variables (stepAfter s (randomCount st)))
    (with_stepObjects (<[ref := stepAfter s (randomCount st)]> (stepObjects st))
       (with_randomCount
          (randomCount st
           + awaiting (getVariables (setBatch (newVariableEnv (Some env)) (step_variables s))))
          (with_trace (trace st ++ [Enter_executeStep ref]) st)))
    st'
  /\ randomCount st
     + awaiting (getVariables (setBatch (newVariableEnv (Some env)) (step_variables s)))
     <= randomCount st'.
Proof.
  intros Hs. rewrite (executeStep_dispatch _ _ _ _ _ Hs). cbv zeta.
  set (st1 := with_stepObjects _ _). set (s1 := stepAfter s (randomCount st)).
  set (body := bind _ _). intros Hrun.
  assert (preserves (keepsVariables ref (step_variables s1)) body) as Hkeeps.
  { subst body. destruct s1 as [rc|arm] eqn:Hs1; preserves_tac.
    - by apply variables_executeRestCallStep.
    - by apply variables_executeArmTemplateStep. }
  assert (preserves (effect isStepCall) body) as Heffect.
  { subst body. destruct s1 as [rc|arm] eqn:Hs1; preserves_tac.
    - apply effect_executeRestCallStep.
    - apply effect_executeArmTemplateStep. }
  specialize (Hkeeps st1). specialize (Heffect st1). rewrite Hrun in Hkeeps, Heffect.
  split; [exact Hkeeps|]. by destruct Heffect as (_ & _ & _ & _ & Hcount & _).
Qed.

(** The random strings that [executeStep] draws: one for each variable of
    the step that awaits a value, and one more, at most, for the name of a
    deployment. *)
Lemma executeStep_draws ref s env scope st r st' :
  stepObjects st !! ref = Some s ->
  executeStep ref env scope st = (r, st') ->
  match s with
  | restCall _ =>
      randomCount st'
      = randomCount st
        + awaiting (getVariables (setBatch (newVariableEnv (Some env)) (step_variables s)))
  | armTemplateDeployment _ =>
      randomCount st
      + awaiting (getVariables (setBatch (newVariableEnv (Some env)) (step_variables s)))
      <= randomCount st'
      <= randomCount st
         + awaiting (getVariables (setBatch (newVariableEnv (Some env)) (step_variables s)))
         + 1
  end.
Proof.
  intros Hs. rewrite (executeStep_dispatch _ _ _ _ _ Hs). cbv zeta.
  set (st1 := with_stepObjects _ _).
  change (randomCount st
          + awaiting (getVariables (setBatch (newVariableEnv (Some env)) (step_variables s))))
    with (randomCount st1).
  unfold bind at 1.
  destruct ((if resolveVariables st then liftResult (resolve _) else ret _) st1)
    as [[stepEnv|e] st2] eqn:Henv.
  2:{ assert (st2 = st1) as ->
        by (destruct (resolveVariables st); unfold liftResult, ret in Henv; by simplify_eq).
      intros ?; simplify_eq. destruct s; lia. }
  assert (st2 = st1) as ->
    by (destruct (resolveVariables st); unfold liftResult, ret in Henv; by simplify_eq).
  clearbody st1. destruct s as [rc|arm]; unfold stepAfter; cbn [with_step_variables].
  - set (rc1 := mkStepRestCall _ _ _ _ _ _ _ _ _ _ _ _ _ _). unfold tryCatch.
    pose proof (draws_executeRestCallStep ref rc1 stepEnv st1) as Hdraws.
    unfold keepsDraws in Hdraws.
    destruct (executeRestCallStep ref rc1 stepEnv st1) as [[[]|e] st3]; simpl in Hdraws;
      unfold throw; intros ?; by simplify_eq.
  - set (arm1 := mkStepArmTemplate _ _ _ _ _ _ _). unfold tryCatch.
    destruct (executeArmTemplateStep ref arm1 stepEnv scope st1) as [[[]|e] st3] eqn:Harm;
      apply draws_executeArmTemplateStep in Harm; unfold throw; intros ?; by simplify_eq.
Qed.

(** X1: [executeStep] assigns the generated values to the Variable objects
    of the step themselves. For a step whose variables have distinct names,
    as the keys of an object have, the variables of the step object are
    afterwards those that [generateValueFromPrefix] made of them (a string or
    secureString variable with a prefix and no value has its prefix followed
    by the next random string, in the order of the step; every other variable
    is as it was), whether the step then succeeds or fails. None of them
    awaits a value any more, so a later execution of the step generates
    nothing for them and draws no random string for them. A rest call step
    draws exactly one random string per variable that awaited a value, a
    deployment at most one more, for its name. No other step object has
    changed. *)
Theorem executeStep_materialises ref s env scope st r st' :
  stepObjects st !! ref = Some s ->
  NoDup (step_variables s).*1 ->
  executeStep ref env scope st = (r, st') ->
  step_variables <$> stepObjects st' !! ref
  = Some (generated (randomCount st) (step_variables s))
  /\ awaiting (generated (randomCount st) (step_variables s)) = 0
  /\ (forall n, generated n (generated (randomCount st) (step_variables s))
                = generated (randomCount st) (step_variables s))
  /\ match s with
     | restCall _ => randomCount st' = randomCount st + awaiting (step_variables s)
     | armTemplateDeployment _ =>
         randomCount st + awaiting (step_variables s) <= randomCount st'
         <= randomCount st + awaiting (step_variables s) + 1
     end
  /\ forall l, l <> ref -> stepObjects st' !! l = stepObjects st !! l.
Proof.
  intros Hs Hnodup Hrun.
  pose proof (awaiting_generated (randomCount st) (step_variables s)) as Hidle.
  split; [|split; [done|split; [by intros n; apply generated_idle|]]].
  all: destruct (executeStep_after _ _ _ _ _ _ _ Hs Hrun) as [[Hothers Hsame] _].
  all: rewrite (stepAfter_variables _ _ Hnodup) in Hsame.
  all: assert (ref < length (stepObjects st)) as Hlt by by eapply lookup_lt_Some.
  - apply Hsame. simpl. rewrite list_lookup_insert_eq; [|done].
    simpl. by rewrite (stepAfter_variables _ _ Hnodup).
  - split.
    + pose proof (executeStep_draws _ _ _ _ _ _ _ Hs Hrun) as Hcount.
      unfold newVariableEnv in Hcount.
      rewrite (setBatch_new (Some env) [] (step_variables s) Hnodup) in Hcount. exact Hcount.
    + intros l Hl. rewrite (Hothers l Hl). simpl. by rewrite list_lookup_insert_ne.
Qed.

(** X5: [executeStep] of a rest call step leaves in the place of the step
    object the same step with the generated values assigned to its variables,
    and changes no other step object. One more change is possible: when
    [resolveVariables] is set, the step object has no resolved parameters yet
    and the call succeeds, the resolved parameters are stored in that step
    object, and in that one only. A step object that has resolved parameters
    keeps them, and its parameters are never changed. *)
Theorem executeStep_resolvedParameters ref step env scope st r st' :
  stepObjects st !! ref = Some (restCall step) ->
  executeStep ref env scope st = (r, st') ->
  exists step1,
    stepAfter (restCall step) (randomCount st) = restCall step1
    /\ rc_parameters step1 = rc_parameters step
    /\ rc_resolvedParameters step1 = rc_resolvedParameters step
    /\ (stepObjects st' = <[ref := restCall step1]> (stepObjects st)
        \/ (rc_resolvedParameters step = None /\ resolveVariables st = true /\ r = Ok tt
            /\ exists stepEnv resolved,
                 resolveParameters stepEnv (rc_parameters step) = Ok resolved
                 /\ stepObjects st'
                    = <[ref := restCall (with_resolvedParameters step1 resolved)]>
                        (stepObjects st))).
Proof.
  intros Hs. rewrite (executeStep_dispatch _ _ _ _ _ Hs). cbv zeta.
  destruct (stepAfter (restCall step) (randomCount st)) as [step1|arm] eqn:Hafter;
    [|discriminate Hafter].
  assert (rc_parameters step1 = rc_parameters step
          /\ rc_resolvedParameters step1 = rc_resolvedParameters step
          /\ rc_operation step1 = rc_operation step) as (Hp & Hrp & Hop1).
  { unfold stepAfter in Hafter. simpl in Hafter. by simplify_eq. }
  exists step1. split; [done|]. split; [done|]. split; [done|]. revert H1.
  set (st1 := with_stepObjects _ _).
  assert (stepObjects st1 = <[ref := restCall step1]> (stepObjects st)) as Hobjs by done.
  assert (resolveVariables st1 = resolveVariables st) as Hres by done.
  clearbody st1. rewrite <- Hres.
  unfold bind at 1.
  destruct ((if resolveVariables st1 then liftResult (resolve _) else ret _) st1)
    as [[stepEnv|e] st2] eqn:Henv.
  2:{ destruct (resolveVariables st1); unfold liftResult, ret in Henv; simplify_eq.
      intros ?; simplify_eq. by left. }
  assert (st2 = st1) as ->.
  { by destruct (resolveVariables st1); unfold liftResult, ret in Henv; simplify_eq. }
  unfold tryCatch.
  destruct (rc_operation step1) as [operation|] eqn:Hop.
  2:{ unfold executeRestCallStep. rewrite Hop. unfold throw. intros ?; simplify_eq. by left. }
  rewrite (executeRestCallStep_unfold _ _ _ _ _ Hop).
  destruct (fillRequest _ _ _ st1) as [[req0|e] st0];
    [|unfold throw; intros ?; simplify_eq; by left].
  destruct (if resolveVariables st1 then resolveRequest stepEnv req0 else Ok req0)
    as [req|e]; [|unfold throw; intros ?; simplify_eq; by left].
  cbv zeta. destruct (client _ _); [unfold throw; intros ?; simplify_eq; by left|].
  destruct (resolveVariables st1) eqn:Hr; simpl;
    [|intros ?; simplify_eq; by left].
  rewrite Hrp, Hp.
  destruct (rc_resolvedParameters step) as [old|] eqn:Hold; simpl.
  { intros ?; simplify_eq. by left. }
  destruct (resolveParameters stepEnv (rc_parameters step)) as [resolved|e] eqn:Hparams;
    [|unfold throw; intros ?; simplify_eq; by left].
  intros ?; simplify_eq. right. split; [done|]. split; [congruence|]. split; [done|].
  exists stepEnv, resolved. split; [done|]. cbn. by rewrite Hobjs, list_insert_insert_eq.
Qed.

End Materialise2.


(** The first step of the fixtures: one request, [GET] on the rewritten
    path. *)
Lemma executeRestCallStep_request_witness :
  exists req,
    trace sent.2 = trace ready.2 ++ [Client (sendRestCallRequest req firstCall readyEnv)]
    /\ method req = "GET"
    /\ path req = "/subscriptions/$(subscriptionId)/things".
Proof.
  destruct (@executeRestCallStep_request engine (collaborators accepting) 0 firstCall
              listOperation readyEnv ready.2 sent.1 sent.2)
    as [[_ Hfails]|(req0 & req & Htrace & Hresolved & Hmethod & Hpath & _)];
    [reflexivity | vm_compute; reflexivity | discriminate Hfails |].
  change (Ok req0 = Ok req) in Hresolved. injection Hresolved as <-.
  exists req0. split; [exact Htrace|]. split; [exact Hmethod | exact Hpath].
Defined.

(** A step without a value for the required [subscriptionId]. *)
Lemma executeRestCallStep_missing_parameter_witness :
  exists e,
    @executeRestCallStep engine (collaborators accepting) 0 bareCall readyEnv ready.2
    = (Throw e, ready.2).
Proof.
  apply (@executeRestCallStep_missing_parameter engine (collaborators accepting) 0 bareCall
           listOperation readyEnv ready.2 (mkParameter "subscriptionId" "path" true));
    [reflexivity | apply list_elem_of_singleton; reflexivity | reflexivity | reflexivity].
Defined.

(** A parameter named like a member of [Object.prototype]: the step, which
    gives it no value of its own, reads the inherited member, and that is
    what the request gets. *)
Lemma fillRequest_inherited_parameter :
  query
    <$> returned
          (@fillRequest engine (collaborators accepting) bareCall
             [mkParameter "constructor" "query" false] (emptyRequest listOperation)
             ready.2).1
  = Some [("constructor", JsInherited "constructor")].
Proof. vm_compute. reflexivity. Qed.

(** A step whose variable [name] awaits a value: after the step, the step
    object has the generated value. *)
Lemma executeStep_materialises_witness :
  step_variables <$> stepObjects named.2 !! 0
  = Some (@generated (collaborators accepting) (randomCount naming)
            (step_variables namingStep)).
Proof.
  apply (@executeStep_materialises engine (collaborators accepting) 0 namingStep readyEnv 0
           naming named.1 named.2);
    [reflexivity | apply (NoDup_singleton "name") | vm_compute; reflexivity].
Defined.

(** The first step of the fixtures, executed with [resolveVariables]: its
    step object gets resolved parameters. *)
Lemma executeStep_resolvedParameters_witness :
  exists resolved,
    stepObjects ran.2
    = <[0 := restCall (with_resolvedParameters firstCall resolved)]> (stepObjects ready.2).
Proof.
  destruct (@executeStep_resolvedParameters engine (collaborators accepting) 0 firstCall
              readyEnv 0 ready.2 ran.1 ran.2)
    as (step1 & Hafter & _ & _ & [Hsame|(_ & _ & _ & stepEnv & resolved & _ & Hstored)]);
    [vm_compute; reflexivity | vm_compute; reflexivity | | ].
  - vm_compute in Hafter. injection Hafter as <-. vm_compute in Hsame. discriminate Hsame.
  - vm_compute in Hafter. injection Hafter as <-. exists resolved. exact Hstored.
Defined.

#[global] Instance keepsOptions_refl : Reflexive keepsOptions.
Proof. by intros st. Qed.

#[global] Instance keepsOptions_trans : Transitive keepsOptions.
Proof. intros st1 st2 st3 (A1 & A2 & A3) (B1 & B2 & B3). repeat split; congruence. Qed.

Section Options.
Context `{Engine} `{Collaborators}.

Lemma options_log ev : preserves keepsOptions (log ev).
Proof. by intros st. Qed.

Lemma options_await call : preserves keepsOptions (await call).
Proof. intros st. unfold await. by destruct (client _ _). Qed.

Lemma options_randomString : preserves keepsOptions randomString.
Proof. by intros st. Qed.

Lemma options_readScope l : preserves keepsOptions (readScope l).
Proof. intros st. unfold readScope. by destruct (scopes st !! l). Qed.

Lemma options_readStep l : preserves keepsOptions (readStep l).
Proof. intros st. unfold readStep. by destruct (stepObjects st !! l). Qed.

Lemma options_writeStep l s : preserves keepsOptions (writeStep l s).
Proof. by intros st. Qed.

Lemma options_allocScope s : preserves keepsOptions (allocScope s).
Proof. by intros st. Qed.

#[local] Hint Resolve options_log options_await options_randomString options_readScope
  options_readStep options_writeStep options_allocScope : preserves.

Lemma options_generateValues vars : preserves keepsOptions (generateValues vars).
Proof.
  induction vars as [|[k v] vars IH]; simpl; [preserves_tac|].
  unfold generateValue. preserves_tac.
Qed.

#[local] Hint Resolve options_generateValues : preserves.

Lemma options_generateValueFromPrefix env0 :
  preserves keepsOptions (generateValueFromPrefix env0).
Proof. unfold generateValueFromPrefix. preserves_tac. Qed.

#[local] Hint Resolve options_generateValueFromPrefix : preserves.

Lemma options_fillRequest step params req : preserves keepsOptions (fillRequest step params req).
Proof. intros st. rewrite fillRequest_state. reflexivity. Qed.

#[local] Hint Resolve options_fillRequest : preserves.

Lemma options_executeStep step env0 scope : preserves keepsOptions (executeStep step env0 scope).
Proof.
  unfold executeStep, executeRestCallStep, executeArmTemplateStep. preserves_tac.
Qed.

#[local] Hint Resolve options_executeStep : preserves.

Lemma options_doProvisionScope scope : preserves keepsOptions (doProvisionScope scope).
Proof.
  intros st. unfold doProvisionScope, getLazyBuilder, bind, readScope.
  destruct (scopes st !! scope) as [e|]; [|reflexivity].
  destruct (provisioned e); [reflexivity|].
  assert (preserves keepsOptions (provisionScope scope)) as Hb.
  { unfold provisionScope. preserves_tac. }
  specialize (Hb st). by destruct (provisionScope scope st).
Qed.

Lemma options_prepareScope def scn : preserves keepsOptions (prepareScope def scn).
Proof.
  unfold prepareScope, scopeName. preserves_tac.
Qed.

Lemma options_cleanUpScope scope : preserves keepsOptions (cleanUpScope scope).
Proof. unfold cleanUpScope. preserves_tac. Qed.

#[local] Hint Resolve options_doProvisionScope options_prepareScope options_cleanUpScope
  : preserves.

Lemma options_startScenario def scn : preserves keepsOptions (startScenario def scn).
Proof. unfold startScenario. preserves_tac. Qed.

Lemma options_runSteps scn env0 scope : preserves keepsOptions (runSteps scn env0 scope).
Proof. unfold runSteps. preserves_tac. Qed.

Lemma options_executeScenario def scn : preserves keepsOptions (executeScenario def scn).
Proof.
  pose proof options_startScenario. pose proof options_runSteps.
  unfold executeScenario, cleanUpUnlessSkipped. preserves_tac.
Qed.

End Options.

Section Lifecycle.
Context `{Engine} `{Collaborators}.

#[local] Hint Resolve effect_randomString effect_readScope effect_readStep effect_writeStep
  effect_generateValue effect_generateValues effect_generateValueFromPrefix
  effect_fillRequest effect_await effect_log effect_executeStep : preserves.

Lemma groupRequests_app a b : groupRequests (a ++ b) = groupRequests a ++ groupRequests b.
Proof. apply List.filter_app. Qed.

Lemma groupRequests_steps events : Forall isStepEvent events -> groupRequests events = [].
Proof.
  induction 1 as [|ev events Hev _ IH]; [done|].
  unfold groupRequests in *. simpl. rewrite IH. by destruct ev as [| |[]].
Qed.

Lemma effect_runSteps scn env0 scope :
  preserves (effect isStepEvent) (runSteps scn env0 scope).
Proof. unfold runSteps. preserves_tac. Qed.

(** X6: no run of a scenario changes the options of the runner ([env],
    [resolveVariables], [skipCleanUp]); and with [skipCleanUp] set,
    [executeScenario] never enters [cleanUpScope] and never asks for the
    deletion of a resource group, whether the scenario succeeds or fails. *)
Theorem executeScenario_skipped def scn st :
  keepsOptions st (executeScenario def scn st).2
  /\ (skipCleanUp st = true ->
      logged (fun ev => ~ isCleanUp ev) st (executeScenario def scn st).2).
Proof.
  split; [apply options_executeScenario|].
  intros Hskip. unfold executeScenario, bind.
  pose proof (options_startScenario def scn st) as Hopt.
  pose proof (advances_startScenario def scn st) as (_ & _ & Hlog).
  destruct (startScenario def scn st) as [[[l env0]|e] st0]; [|done]. simpl in *.
  unfold tryFinally.
  pose proof (options_runSteps scn env0 l st0) as Hopt1.
  pose proof (effect_runSteps scn env0 l st0) as (_ & _ & _ & _ & _ & Hlog1).
  destruct (runSteps scn env0 l st0) as [r st1]. simpl in *.
  assert (keepsOptions st st1) as Hopt2 by by etrans.
  unfold cleanUpUnlessSkipped, bind, this.
  destruct Hopt2 as (? & ? & Hs). rewrite Hs, Hskip. unfold ret. simpl.
  etrans; [exact Hlog|].
  eapply logged_weaken; [|exact Hlog1]. intros ev Hev Hc. by destruct ev as [| |[]].
Qed.

End Lifecycle.

(** A run with [skipCleanUp]: the prepare step and the three steps, no
    clean-up step. *)
Lemma executeScenario_skipped_witness :
  logged (fun ev => ~ isCleanUp ev) skipping
    (@executeScenario engine (collaborators accepting) definition (scenarioNamed "S" true)
       skipping).2
  /\ executed
       (trace (@executeScenario engine (collaborators accepting) definition
                 (scenarioNamed "S" true) skipping).2)
     = [3; 0; 1; 2].
Proof.
  destruct (@executeScenario_skipped engine (collaborators accepting) definition
              (scenarioNamed "S" true) skipping) as [_ Hlogged].
  split; [exact (Hlogged eq_refl) | vm_compute; reflexivity].
Defined.

Section Group.
Context `{Engine} `{Collaborators}.

#[local] Hint Resolve effect_randomString effect_readScope effect_readStep effect_writeStep
  effect_generateValue effect_generateValues effect_generateValueFromPrefix
  effect_fillRequest effect_await effect_log effect_executeStep : preserves.

Lemma forOf_executeStep_trace steps env0 scope st r st' :
  forOf steps (fun step => executeStep step env0 scope) st = (r, st') ->
  exists added, trace st' = trace st ++ added /\ Forall isStepEvent added
                /\ scopes st' = scopes st.
Proof.
  intros Hrun.
  pose proof (preserves_forOf (effect isStepEvent) steps
                (fun step => executeStep step env0 scope)
                (fun step => effect_executeStep step env0 scope) st) as Heff.
  rewrite Hrun in Heff. destruct Heff as (A1 & _ & _ & _ & _ & added & A6 & A7). eauto.
Qed.

(** What the builder of [doProvisionScope] logs. *)
Lemma provisionScope_trace scope sc st r st' :
  scopes st !! scope = Some sc ->
  provisionScope scope st = (r, st') ->
  exists head tail,
    trace st' = trace st ++ head ++ tail
    /\ Forall isStepEvent tail
    /\ (scope_type sc <> ResourceGroup -> head = [])
    /\ (scope_type sc = ResourceGroup ->
        match groupOf sc with
        | Throw e => head = [] /\ tail = [] /\ r = Throw e
        | Ok (sub, rg, loc) =>
            head = [Client (createResourceGroup sub rg loc)]
            /\ match client (trace st) (createResourceGroup sub rg loc) with
               | Some e => tail = [] /\ r = Throw e
               | None => True
               end
        end).
Proof.
  intros Hsc. unfold provisionScope. unfold bind at 1, readScope. rewrite Hsc.
  unfold groupOf.
  destruct (decide (scope_type sc = ResourceGroup)) as [Hrg|Hrg].
  - rewrite bool_decide_true by done. unfold bind at 1. unfold bind at 1, liftResult at 1.
    destruct (getRequiredString (scope_env sc) "subscriptionId") as [sub|e].
    2:{ intros ?; simplify_eq. exists [], []. rewrite !app_nil_r. by repeat split. }
    unfold bind at 1, liftResult at 1.
    destruct (getRequiredString (scope_env sc) "resourceGroupName") as [rg|e].
    2:{ intros ?; simplify_eq. exists [], []. rewrite !app_nil_r. by repeat split. }
    unfold bind at 1, liftResult at 1.
    destruct (getRequiredString (scope_env sc) "location") as [loc|e].
    2:{ intros ?; simplify_eq. exists [], []. rewrite !app_nil_r. by repeat split. }
    unfold await. destruct (client (trace st) _) as [e|].
    { intros ?; simplify_eq. exists [Client (createResourceGroup sub rg loc)], [].
      cbn. by repeat split. }
    unfold bind at 1. set (st1 := with_trace _ st).
    destruct (forOf _ _ st1) as [r1 st2] eqn:Hloop.
    destruct (forOf_executeStep_trace _ _ _ _ _ _ Hloop) as (added & Htrace & Hall & _).
    intros Hr. exists [Client (createResourceGroup sub rg loc)], added.
    assert (st' = st2) as -> by (destruct r1 as [[]|]; unfold bind, ret in Hr; by simplify_eq).
    rewrite Htrace. cbn. rewrite <- app_assoc. by repeat split.
  - rewrite bool_decide_false by done. unfold bind at 1, ret at 1. unfold bind at 1.
    destruct (forOf _ _ st) as [r1 st2] eqn:Hloop.
    destruct (forOf_executeStep_trace _ _ _ _ _ _ Hloop) as (added & Htrace & Hall & _).
    intros Hr. exists [], added.
    assert (st' = st2) as -> by (destruct r1 as [[]|]; unfold bind, ret in Hr; by simplify_eq).
    by repeat split.
Qed.

(** What [cleanUpScope] logs after its entry. *)
Lemma cleanUpScope_trace scope sc st r st' :
  scopes st !! scope = Some sc ->
  cleanUpScope scope st = (r, st') ->
  exists body tail,
    trace st' = trace st ++ Enter_cleanUpScope scope :: body ++ tail
    /\ Forall isStepEvent body
    /\ (tail = []
        \/ exists sub rg,
             tail = [Client (deleteResourceGroup sub rg)]
             /\ scope_type sc = ResourceGroup
             /\ executed body = scope_cleanUpSteps sc
             /\ getRequiredString (scope_env sc) "subscriptionId" = Ok sub
             /\ getRequiredString (scope_env sc) "resourceGroupName" = Ok rg)
    /\ (isOk r = true -> scope_type sc = ResourceGroup -> tail <> []).
Proof.
  intros Hsc. unfold cleanUpScope. unfold bind at 1, log, update. cbn [fst snd].
  set (st0 := with_trace _ st).
  unfold bind at 1, readScope. change (scopes st0) with (scopes st). rewrite Hsc.
  unfold bind at 1.
  destruct (forOf _ _ st0) as [r1 st1] eqn:Hloop.
  destruct (forOf_executeStep_trace _ _ _ _ _ _ Hloop) as (added & Htrace & Hall & _).
  destruct (forOf_executeStep_executed _ _ _ _ _ _ Hloop) as (done & _ & Hex & Hok & _).
  assert (executed added = done) as Hdone.
  { rewrite Htrace, executed_app in Hex. by apply app_inv_head in Hex. }
  assert (trace st1 = trace st ++ Enter_cleanUpScope scope :: added) as Htrace'.
  { rewrite Htrace. subst st0. cbn. by rewrite <- app_assoc. }
  destruct r1 as [[]|e1].
  2:{ intros ?; simplify_eq. exists added, []. rewrite app_nil_r. split; [done|].
      split; [done|]. split; [by left|]. done. }
  specialize (Hok eq_refl).
  destruct (decide (scope_type sc = ResourceGroup)) as [Hrg|Hrg].
  - rewrite bool_decide_true by done. unfold bind at 1, liftResult at 1.
    destruct (getRequiredString (scope_env sc) "subscriptionId") as [sub|e] eqn:Hsub.
    2:{ intros ?; simplify_eq. exists added, []. rewrite app_nil_r.
        split; [done|]. split; [done|]. split; [by left|]. done. }
    unfold bind at 1, liftResult at 1.
    destruct (getRequiredString (scope_env sc) "resourceGroupName") as [rg|e] eqn:Hname.
    2:{ intros ?; simplify_eq. exists added, []. rewrite app_nil_r.
        split; [done|]. split; [done|]. split; [by left|]. done. }
    unfold await. intros Hr.
    exists added, [Client (deleteResourceGroup sub rg)].
    assert (st' = with_trace (trace st1 ++ [Client (deleteResourceGroup sub rg)]) st1) as ->.
    { by destruct (client _ _); simplify_eq. }
    cbn. rewrite Htrace'. split; [by rewrite <- app_assoc|]. split; [done|].
    split; [|done]. right. exists sub, rg. by rewrite Hdone, Hok.
  - rewrite bool_decide_false by done. unfold ret. intros ?; simplify_eq.
    exists added, []. rewrite app_nil_r. split; [done|]. split; [done|]. split; [by left|]. done.
Qed.

(** X7: the first [doProvisionScope] of a scope object logs, for a scope
    of type [ResourceGroup], the request to create the resource group first,
    with the three required strings of the environment of the scope, and
    then events of prepare steps only. When one of the three strings is
    missing nothing is logged and the error is the result; when the client
    rejects the request no prepare step is run and the rejection is the
    result. For a scope of another type no request is made. *)
Theorem doProvisionScope_creates_first scope sc st r st' :
  scopes st !! scope = Some sc -> provisioned sc = None ->
  doProvisionScope scope st = (r, st') ->
  exists head tail,
    trace st' = trace st ++ head ++ tail
    /\ Forall isStepEvent tail
    /\ (scope_type sc <> ResourceGroup -> head = [])
    /\ (scope_type sc = ResourceGroup ->
        match groupOf sc with
        | Throw e => head = [] /\ tail = [] /\ r = Throw e
        | Ok (sub, rg, loc) =>
            head = [Client (createResourceGroup sub rg loc)]
            /\ match client (trace st) (createResourceGroup sub rg loc) with
               | Some e => tail = [] /\ r = Throw e
               | None => True
               end
        end).
Proof.
  intros Hsc Hp Hrun. destruct (provisionScope scope st) as [r0 st0] eqn:Hbuild.
  rewrite (doProvisionScope_first _ _ _ _ _ Hsc Hp Hbuild) in Hrun.
  injection Hrun as <- <-. exact (provisionScope_trace _ _ _ _ _ Hsc Hbuild).
Qed.

(** A loop that throws stopped at the first element whose body threw. *)
Lemma forOf_stops {S A : Type} (xs : list A) (f : A -> Call S unit) st e st' :
  forOf xs f st = (Throw e, st') ->
  exists done x rest st1,
    xs = done ++ x :: rest
    /\ forOf done f st = (Ok tt, st1)
    /\ f x st1 = (Throw e, st').
Proof.
  revert st. induction xs as [|x xs IH]; intros st; simpl.
  - unfold ret. intros ?; simplify_eq.
  - unfold bind. destruct (f x st) as [[[]|e1] s1] eqn:Hx.
    + intros Hrun. destruct (IH s1 Hrun) as (done & y & rest & st1 & -> & Hdone & Hy).
      exists (x :: done), y, rest, st1. split; [done|]. split; [|done].
      simpl. unfold bind. by rewrite Hx.
    + intros ?; simplify_eq. by exists [], x, xs, st.
Qed.

(** X8: [cleanUpScope] logs its entry, then events of clean-up steps only,
    and at most one more event: the request to delete the resource group.
    The loop over the clean-up steps stops at the first step that fails:
    the steps after it are not executed, no request is made, the resource
    group stays in place and the error of that step is the result. When
    every clean-up step succeeded, a scope of type [ResourceGroup] makes the
    request, with the subscription and the resource group of the environment
    of the scope, and the answer of the client is the result (without one of
    the two strings no request is made and the error is the result); a scope
    of another type makes no request and succeeds. *)
Theorem cleanUpScope_deletes_last scope sc st r st' :
  scopes st !! scope = Some sc ->
  cleanUpScope scope st = (r, st') ->
  exists body tail loop st1,
    forOf (scope_cleanUpSteps sc) (fun step => executeStep step (scope_env sc) scope)
      (with_trace (trace st ++ [Enter_cleanUpScope scope]) st) = (loop, st1)
    /\ trace st1 = trace st ++ Enter_cleanUpScope scope :: body
    /\ trace st' = trace st1 ++ tail
    /\ Forall isStepEvent body
    /\ match loop with
       | Throw e =>
           tail = [] /\ r = Throw e /\ st' = st1
           /\ exists done step rest st2,
                scope_cleanUpSteps sc = done ++ step :: rest
                /\ executed body = done ++ [step]
                /\ executeStep step (scope_env sc) scope st2 = (Throw e, st1)
       | Ok _ =>
           executed body = scope_cleanUpSteps sc
           /\ if bool_decide (scope_type sc = ResourceGroup) then
                match getRequiredString (scope_env sc) "subscriptionId",
                      getRequiredString (scope_env sc) "resourceGroupName" with
                | Ok sub, Ok rg =>
                    tail = [Client (deleteResourceGroup sub rg)]
                    /\ r = match client (trace st1) (deleteResourceGroup sub rg) with
                           | Some e => Throw e
                           | None => Ok tt
                           end
                | Throw e, _ | Ok _, Throw e => tail = [] /\ r = Throw e
                end
              else tail = [] /\ r = Ok tt
       end.
Proof.
  intros Hsc. unfold cleanUpScope. unfold bind at 1, log, update. cbn [fst snd].
  set (st0 := with_trace _ st).
  unfold bind at 1, readScope. change (scopes st0) with (scopes st). rewrite Hsc.
  unfold bind at 1.
  destruct (forOf _ _ st0) as [loop st1] eqn:Hloop.
  destruct (forOf_executeStep_trace _ _ _ _ _ _ Hloop) as (added & Htrace & Hall & _).
  destruct (forOf_executeStep_executed _ _ _ _ _ _ Hloop) as (done & _ & Hex & Hok & _).
  assert (executed added = done) as Hdone.
  { rewrite Htrace, executed_app in Hex. by apply app_inv_head in Hex. }
  assert (trace st1 = trace st ++ Enter_cleanUpScope scope :: added) as Htrace'.
  { rewrite Htrace. subst st0. cbn. by rewrite <- app_assoc. }
  destruct loop as [[]|e1].
  2:{ intros ?; simplify_eq. exists added, [], (Throw e1), st'. rewrite app_nil_r.
      split; [done|]. split; [done|]. split; [done|]. split; [done|].
      split; [done|]. split; [done|]. split; [done|].
      destruct (forOf_stops _ _ _ _ _ Hloop) as (before & step & rest & st2 & Hsteps & Hbefore & Hstep).
      exists before, step, rest, st2. split; [done|]. split; [|done].
      destruct (forOf_executeStep_executed _ _ _ _ _ _ Hbefore) as (done' & _ & Hex' & Hok' & _).
      rewrite (Hok' eq_refl) in Hex'.
      pose proof (executeStep_executed step (scope_env sc) scope st2) as Hlast.
      rewrite Hstep in Hlast. simpl in Hlast. rewrite Hex' in Hlast.
      rewrite Hex, <- app_assoc in Hlast. by apply app_inv_head in Hlast. }
  specialize (Hok eq_refl).
  intros Hrun. exists added.
  destruct (decide (scope_type sc = ResourceGroup)) as [Hrg|Hrg].
  - rewrite bool_decide_true in Hrun by done. rewrite bool_decide_true by done.
    unfold bind at 1, liftResult at 1 in Hrun.
    destruct (getRequiredString (scope_env sc) "subscriptionId") as [sub|e] eqn:Hsub.
    2:{ simplify_eq. exists [], (Ok tt), st'. rewrite app_nil_r. by repeat split. }
    unfold bind at 1, liftResult at 1 in Hrun.
    destruct (getRequiredString (scope_env sc) "resourceGroupName") as [rg|e] eqn:Hname.
    2:{ simplify_eq. exists [], (Ok tt), st'. rewrite app_nil_r. by repeat split. }
    unfold await in Hrun.
    exists [Client (deleteResourceGroup sub rg)], (Ok tt), st1.
    split; [done|]. split; [done|].
    split; [by destruct (client _ _); simplify_eq|]. split; [done|].
    split; [congruence|]. split; [done|]. by destruct (client _ _); simplify_eq.
  - rewrite bool_decide_false in Hrun by done. rewrite bool_decide_false by done.
    unfold ret in Hrun. simplify_eq.
    exists [], (Ok tt), st'. rewrite app_nil_r. by repeat split.
Qed.

End Group.

(** The shared scope of the fixtures: the resource group is asked for before
    the prepare step. *)
Lemma doProvisionScope_creates_first_witness :
  exists tail,
    trace (@doProvisionScope engine (collaborators accepting) 0 preparedRunner).2
    = trace preparedRunner ++ Client (createResourceGroup "sub" "apiTest-0" "westus") :: tail
    /\ Forall isStepEvent tail.
Proof.
  destruct (@doProvisionScope_creates_first engine (collaborators accepting) 0 preparedScope
              preparedRunner
              (@doProvisionScope engine (collaborators accepting) 0 preparedRunner).1
              (@doProvisionScope engine (collaborators accepting) 0 preparedRunner).2)
    as (head & tail & Htrace & Hsteps & _ & Hgroup);
    [vm_compute; reflexivity | reflexivity | vm_compute; reflexivity |].
  destruct (Hgroup eq_refl) as [-> _]. exists tail. split; [exact Htrace | exact Hsteps].
Defined.

(** The clean-up of the scope of the fixtures: the clean-up step, then the
    deletion of the resource group. *)
Lemma cleanUpScope_deletes_last_witness :
  exists body,
    trace (@cleanUpScope engine (collaborators accepting) 0 ready.2).2
    = trace ready.2
      ++ Enter_cleanUpScope 0 :: body ++ [Client (deleteResourceGroup "sub" "apiTest-0")]
    /\ executed body = [4].
Proof.
  destruct (@cleanUpScope_deletes_last engine (collaborators accepting) 0 readyScope ready.2
              (@cleanUpScope engine (collaborators accepting) 0 ready.2).1
              (@cleanUpScope engine (collaborators accepting) 0 ready.2).2)
    as (body & tail & loop & st1 & Hloop & Hbody & Htrace & _ & Hresult);
    [vm_compute; reflexivity | vm_compute; reflexivity |].
  destruct loop as [[]|e]; [|vm_compute in Hloop; discriminate Hloop].
  destruct Hresult as [Hexecuted [-> _]].
  exists body. split; [|exact Hexecuted].
  rewrite Htrace, Hbody. symmetry.
  exact (app_assoc (trace ready.2) (Enter_cleanUpScope 0 :: body)
           [Client (deleteResourceGroup "sub" "apiTest-0")]).
Defined.

Section Start.
Context `{Engine} `{Collaborators}.

Lemma logged_nothing st st' : logged (fun _ => False) st st' -> trace st' = trace st.
Proof.
  intros (added & -> & Hall). destruct added as [|ev added]; [by rewrite app_nil_r|].
  by apply Forall_cons in Hall as [[] _].
Qed.

(** [startScenario] once [prepareScope] returned the scope. *)
Lemma startScenario_after def scn st l sa sc :
  prepareScope def scn st = (Ok l, sa) -> scopes sa !! l = Some sc ->
  exists env1 n,
    startScenario def scn st
    = let sb := with_trace (trace sa ++ [Client (prepareScenario scn env1)])
                  (with_randomCount n sa) in
      match client (trace sa) (prepareScenario scn env1) with
      | Some e => (Throw e, sb)
      | None =>
          match doProvisionScope l sb with
          | (Ok _, sd) => (Ok (l, env1), sd)
          | (Throw e, sd) => (Throw e, sd)
          end
      end.
Proof.
  intros Hprep Hsc. unfold startScenario. unfold bind at 1. rewrite Hprep.
  unfold bind at 1, readScope. rewrite Hsc. unfold bind at 1.
  destruct (generateValueFromPrefix_state
              (setBatch (newVariableEnv (Some (scope_env sc))) (variables (sc_scope scn))) sa)
    as (env1 & n & Hgen).
  rewrite Hgen. exists env1, n. unfold bind at 1, await. cbn [trace with_randomCount].
  destruct (client (trace sa) _); [done|]. cbv zeta. unfold bind, ret.
  by destruct (doProvisionScope l _) as [[?|?] ?].
Qed.

(** [prepareScope] of a tracked name changes nothing that the rest of the
    run looks at. *)
Lemma prepareScope_found_state def scn st l :
  scopeTracking st !! scopeNameIn scn st = Some l ->
  exists sa, prepareScope def scn st = (Ok l, sa)
             /\ scopes sa = scopes st /\ trace sa = trace st
             /\ skipCleanUp sa = skipCleanUp st.
Proof.
  intros Hl. rewrite (prepareScope_found _ _ _ _ Hl). eexists. split; [done|].
  pose proof (scopeName_effect (shareScope scn) st) as (A1 & _ & A3 & _ & _ & A6).
  split; [done|]. split; [by apply logged_nothing|done].
Qed.

(** X9: a scenario whose scope is tracked and failed to provision is not
    run and the provisioning is not tried again: [executeScenario] logs the
    [prepareScenario] call of the client and nothing else (no request for a
    resource group, no step, no clean-up) and fails, with the error that
    the provisioning failed with, or with the rejection of [prepareScenario]
    when the client rejects it. *)
Theorem executeScenario_failed_provisioning def scn st l e :
  scopeTracking st !! scopeNameIn scn st = Some l ->
  provisionedAt st l = Some (Throw e) ->
  exists e' env1 st',
    executeScenario def scn st = (Throw e', st')
    /\ trace st' = trace st ++ [Client (prepareScenario scn env1)]
    /\ (e' = e \/ client (trace st) (prepareScenario scn env1) = Some e').
Proof.
  intros Hl Hp.
  destruct (prepareScope_found_state def scn st l Hl) as (sa & Hprep & Hscopes & Htrace & _).
  apply provisionedAt_Some in Hp as (sc & Hsc & Hp).
  rewrite <- Hscopes in Hsc.
  destruct (startScenario_after _ _ _ _ _ _ Hprep Hsc) as (env1 & n & Hstart).
  unfold executeScenario, bind. rewrite Hstart. cbv zeta. rewrite Htrace.
  destruct (client (trace st) _) as [e'|] eqn:Hclient.
  - exists e', env1. eexists. split; [done|]. split; [done|]. by right.
  - rewrite (doProvisionScope_memo l _ (Throw e)).
    + exists e, env1. eexists. split; [done|]. split; [done|]. by left.
    + apply provisionedAt_Some. exists sc. done.
Qed.

End Start.

(** After a scenario whose resource group was refused, a second scenario on
    the shared scope fails with that refusal and executes nothing. *)
Lemma executeScenario_failed_provisioning_witness :
  (@executeScenario engine (collaborators rejectingCreate) definition
     (scenarioNamed "T" true) rejected).1
  = Throw rejection
  /\ executed
       (trace (@executeScenario engine (collaborators rejectingCreate) definition
                 (scenarioNamed "T" true) rejected).2)
     = [].
Proof.
  destruct (@executeScenario_failed_provisioning engine (collaborators rejectingCreate)
              definition (scenarioNamed "T" true) rejected 0 rejection)
    as (e & env1 & st' & Hrun & _ & [->|Hrejected]);
    [vm_compute; reflexivity | vm_compute; reflexivity | |].
  - split; [by rewrite Hrun | vm_compute; reflexivity].
  - discriminate Hrejected.
Defined.

Section Provisioned.
Context `{Engine} `{Collaborators}.

(** The state and the outcome of [tryFinally] around the steps of a
    scenario. *)
Lemma runSteps_state scn env0 l st0 r1 st1 :
  forOf (steps scn) (fun step => executeStep step env0 l) st0 = (r1, st1) ->
  exists r, runSteps scn env0 l st0 = (r, st1) /\ isOk r = isOk r1.
Proof.
  intros Hloop. unfold runSteps, tryCatch. rewrite Hloop.
  destruct r1 as [[]|e]; unfold throw; eauto.
Qed.

(** X10: a scenario whose scope is tracked and provisioned does not
    provision it again: whatever the outcome, the run makes no request to
    create a resource group and executes no prepare step; the steps it
    executes are steps of the scenario, in order from the first, followed by
    clean-up steps of the scope, in order from the first. *)
Theorem executeScenario_provisioned def scn st l sc b :
  scopeTracking st !! scopeNameIn scn st = Some l ->
  scopes st !! l = Some sc ->
  provisioned sc = Some (Ok b) ->
  exists added a c,
    trace (executeScenario def scn st).2 = trace st ++ added
    /\ Forall (fun ev => ~ isCreate ev) added
    /\ executed added = a ++ c
    /\ a `prefix_of` steps scn
    /\ c `prefix_of` scope_cleanUpSteps sc.
Proof.
  intros Hl Hsc Hp.
  destruct (prepareScope_found_state def scn st l Hl) as (sa & Hprep & Hscopes & Htrace & _).
  assert (scopes sa !! l = Some sc) as Hsa by by rewrite Hscopes.
  destruct (startScenario_after _ _ _ _ _ _ Hprep Hsa) as (env1 & n & Hstart).
  unfold executeScenario, bind. rewrite Hstart. cbv zeta. rewrite Htrace.
  set (call := Client (prepareScenario scn env1)).
  destruct (client (trace st) _) as [e'|].
  { exists [call], [], []. cbn. split; [done|].
    split; [constructor; [by intros []|constructor]|].
    split; [done|]. split; apply prefix_nil. }
  set (sb := with_trace _ _).
  assert (scopes sb !! l = Some sc) as Hsb by done.
  rewrite (doProvisionScope_memo l sb (Ok b)) by (apply provisionedAt_Some; eauto).
  cbn [fst snd]. unfold tryFinally.
  destruct (forOf (steps scn) (fun step => executeStep step env1 l) sb) as [r1 st1] eqn:Hloop.
  destruct (runSteps_state _ _ _ _ _ _ Hloop) as (r & -> & _).
  destruct (forOf_executeStep_trace _ _ _ _ _ _ Hloop) as (added1 & Ht1 & Hall1 & Hscopes1).
  destruct (forOf_executeStep_executed _ _ _ _ _ _ Hloop) as (a & Ha & Hex1 & _).
  assert (executed added1 = a) as Hadded1.
  { rewrite Ht1, executed_app in Hex1. by apply app_inv_head in Hex1. }
  assert (Forall (fun ev => ~ isCreate ev) added1) as Hno1.
  { eapply Forall_impl; [done|]. intros ev Hev Hc. by destruct ev as [| |[]]. }
  unfold cleanUpUnlessSkipped, bind, this.
  destruct (skipCleanUp st1).
  { unfold ret. exists (call :: added1), a, []. cbn. rewrite Ht1. subst sb. cbn.
    rewrite <- app_assoc. split; [done|]. split; [constructor; [by intros []|done]|].
    rewrite app_nil_r. split; [|split; [done|apply prefix_nil]].
    exact Hadded1. }
  assert (scopes st1 !! l = Some sc) as Hst1 by by rewrite Hscopes1.
  destruct (cleanUpScope l st1) as [r3 st3] eqn:Hclean.
  destruct (cleanUpScope_trace _ _ _ _ _ Hst1 Hclean) as (body & tail & Ht3 & Hbody & Htail & _).
  destruct (cleanUpScope_executed _ _ _ _ _ Hst1 Hclean) as (c & Hc & Hex3 & _).
  exists (call :: added1 ++ Enter_cleanUpScope l :: body ++ tail), a, c.
  assert (trace st3 = trace st ++ call :: added1 ++ Enter_cleanUpScope l :: body ++ tail) as Ht.
  { rewrite Ht3, Ht1. subst sb. cbn. by rewrite <- !app_assoc. }
  assert (Forall (fun ev => ~ isCreate ev) (Enter_cleanUpScope l :: body ++ tail)) as Hno3.
  { constructor; [by intros []|]. apply Forall_app. split.
    - eapply Forall_impl; [done|]. intros ev Hev Hcr. by destruct ev as [| |[]].
    - destruct Htail as [->|(sub & rg & -> & _)]; [constructor|].
      constructor; [by intros []|constructor]. }
  assert (executed (call :: added1 ++ Enter_cleanUpScope l :: body ++ tail) = a ++ c) as Hex.
  { rewrite Ht3, !executed_app in Hex3. apply app_inv_head in Hex3.
    rewrite executed_cons. cbn [call]. rewrite executed_app, Hadded1. by f_equal. }
  destruct r as [[]|e]; destruct r3 as [[]|e3]; cbn [snd];
    (split; [done|]; split; [constructor; [by intros []|by apply Forall_app]|done]).
Qed.

End Provisioned.

(** A second scenario on the shared scope: no resource group is created,
    and the prepare step is not executed again. *)
Lemma executeScenario_provisioned_witness :
  (exists added,
     trace (@executeScenario engine (collaborators accepting) definition
              (scenarioNamed "T" true) finished.2).2
     = trace finished.2 ++ added
     /\ Forall (fun ev => ~ isCreate ev) added)
  /\ executed
       (trace (@executeScenario engine (collaborators accepting) definition
                 (scenarioNamed "T" true) finished.2).2)
     = [3; 0; 1; 2; 4; 0; 1; 2; 4].
Proof.
  destruct (@executeScenario_provisioned engine (collaborators accepting) definition
              (scenarioNamed "T" true) finished.2 0
              (default preparedScope (scopes finished.2 !! 0)) true)
    as (added & _ & _ & Htrace & Hnone & _);
    [vm_compute; reflexivity | vm_compute; reflexivity | vm_compute; reflexivity |].
  split; [|vm_compute; reflexivity]. exists added. split; [exact Htrace | exact Hnone].
Defined.

Section NewScope.
Context `{Engine} `{Collaborators}.

Lemma provisionScope_true scope st b st' :
  provisionScope scope st = (Ok b, st') -> b = true.
Proof.
  unfold provisionScope. unfold bind at 1.
  destruct (readScope scope st) as [[sc|?] s0]; [|done].
  unfold bind at 1. destruct (_ s0) as [[[]|?] s1]; [|done].
  unfold bind, ret. destruct (forOf _ _ s1) as [[[]|?] s2]; [|done].
  by intros ?; simplify_eq.
Qed.

Lemma executed_app_inv (events added : list Event) done :
  executed (events ++ added) = executed events ++ done -> executed added = done.
Proof. rewrite executed_app. apply app_inv_head. Qed.

(** X11: a successful run of a scenario whose scope is new, without
    [skipCleanUp]: the steps executed are the prepare steps of the
    definition, the steps of the scenario and the clean-up steps of the
    definition, in that order; for a definition of scope [ResourceGroup] one
    resource group is created and that same resource group is deleted, in
    that order, and for another scope no such request is made; the scope is
    stored under the name of the scenario's scope, provisioned. *)
Theorem executeScenario_new_scope def scn st st' :
  scopeTracking st !! scopeNameIn scn st = None ->
  skipCleanUp st = false ->
  executeScenario def scn st = (Ok tt, st') ->
  exists added,
    trace st' = trace st ++ added
    /\ executed added = prepareSteps def ++ steps scn ++ cleanUpSteps def
    /\ match scope def with
       | ResourceGroup =>
           exists sub rg loc,
             groupRequests added
             = [Client (createResourceGroup sub rg loc); Client (deleteResourceGroup sub rg)]
       | _ => groupRequests added = []
       end
    /\ provisionedAt st' (length (scopes st)) = Some (Ok true)
    /\ scopeTracking st' !! scopeNameIn scn st = Some (length (scopes st)).
Proof.
  intros Hnew Hskip Hrun.
  pose proof (options_startScenario def scn st) as Hopt.
  pose proof (advances_startScenario def scn st) as ((Hsub & _) & Hstay & _).
  destruct (prepareScope_new def scn st Hnew)
    as [(_ & e & Hprep)|(sc & s0 & Heff & _ & Hp & Htype & Hprepare & Hclean & Hprep)].
  { unfold executeScenario, startScenario, bind in Hrun. by rewrite Hprep in Hrun. }
  set (l := length (scopes st)) in *.
  set (sa := with_scopeTracking _ _) in Hprep.
  destruct Heff as (_ & _ & _ & _ & _ & Hlog). apply logged_nothing in Hlog.
  assert (trace sa = trace st) as Htrace by done.
  assert (scopes sa !! l = Some sc) as Hsa.
  { subst sa l. cbn. rewrite lookup_app_r by done. by rewrite Nat.sub_diag. }
  assert (scopeTracking sa !! scopeNameIn scn st = Some l) as Htracked.
  { subst sa. cbn. apply lookup_insert_eq. }
  destruct (startScenario_after _ _ _ _ _ _ Hprep Hsa) as (env1 & n & Hstart).
  rewrite Hstart in Hopt, Hsub, Hstay. unfold executeScenario, bind in Hrun.
  rewrite Hstart in Hrun. cbv zeta in Hrun, Hopt, Hsub, Hstay. rewrite Htrace in *.
  set (call := Client (prepareScenario scn env1)) in *.
  destruct (client (trace st) _) as [e|]; [done|].
  set (sb := with_trace _ _) in *.
  assert (scopes sb !! l = Some sc) as Hsb by done.
  destruct (provisionScope l sb) as [r0 s2] eqn:Hbuild.
  rewrite (doProvisionScope_first _ _ _ _ _ Hsb Hp Hbuild) in Hrun, Hopt, Hsub, Hstay.
  destruct r0 as [b|e]; [|done].
  apply provisionScope_true in Hbuild as Hb. subst b.
  destruct (provisionScope_executed _ _ _ _ _ Hsb Hbuild) as (done0 & _ & Hex0 & Hall0).
  rewrite (Hall0 eq_refl), Hprepare in Hex0. clear Hall0 done0.
  destruct (provisionScope_trace _ _ _ _ _ Hsb Hbuild) as (head & tail0 & Ht2 & Hsteps0 & Hhead).
  rewrite Ht2 in Hex0. apply executed_app_inv in Hex0.
  pose proof (effect_provisionScope l sb) as (Hscopes2 & Htr2 & _).
  rewrite Hbuild in Hscopes2, Htr2. cbn [snd] in Hscopes2, Htr2.
  set (sd := with_scopes _ s2) in *. cbn [fst snd] in *.
  set (sc' := set_provisioned sc (Ok true)).
  assert (scopes sd !! l = Some sc') as Hsd.
  { subst sd. cbn. by rewrite list_lookup_alter_eq, Hscopes2, Hsb. }
  assert (trace sd = trace st ++ call :: head ++ tail0) as Htd.
  { subst sd. cbn. rewrite Ht2. subst sb. cbn. by rewrite <- app_assoc. }
  unfold tryFinally in Hrun.
  destruct (forOf (steps scn) (fun step => executeStep step env1 l) sd) as [r1 st1] eqn:Hloop.
  destruct (runSteps_state _ _ _ _ _ _ Hloop) as (r & Hr & Hok).
  pose proof (options_runSteps scn env1 l sd) as Hopt1.
  rewrite Hr in Hrun, Hopt1. simpl in Hopt1.
  destruct (forOf_executeStep_trace _ _ _ _ _ _ Hloop) as (added1 & Ht1 & Hall1 & Hscopes1).
  destruct (forOf_executeStep_executed _ _ _ _ _ _ Hloop) as (a & _ & Hex1 & Ha & _).
  rewrite Ht1 in Hex1. apply executed_app_inv in Hex1.
  assert (skipCleanUp st1 = false) as Hskip1.
  { destruct Hopt as (_ & _ & Hs). destruct Hopt1 as (_ & _ & Hs1). congruence. }
  assert (scopeTracking st1 = scopeTracking sd) as Htr1.
  { pose proof (effect_runSteps scn env1 l sd) as (_ & Htr & _). by rewrite Hr in Htr. }
  unfold cleanUpUnlessSkipped, bind, this in Hrun. rewrite Hskip1 in Hrun.
  assert (scopes st1 !! l = Some sc') as Hst1 by by rewrite Hscopes1.
  destruct (cleanUpScope l st1) as [r3 st3] eqn:Hcleanup.
  assert (r3 = Ok tt /\ r = Ok tt /\ st3 = st') as (-> & -> & ->).
  { destruct r3 as [[]|]; destruct r as [[]|]; by simplify_eq. }
  simpl in Hok. rewrite <- (Ha (eq_sym Hok)) in *. clear Ha.
  destruct (cleanUpScope_trace _ _ _ _ _ Hst1 Hcleanup) as (body & tail & Ht3 & Hbody & Htail & Hreq).
  destruct (cleanUpScope_executed _ _ _ _ _ Hst1 Hcleanup) as (c & _ & Hex3 & Hc).
  destruct Hc as [->|[_ ?]]; [|done].
  rewrite Ht3 in Hex3. apply executed_app_inv in Hex3.
  pose proof (effect_cleanUpScope l st1) as (Hscopes3 & Htr3 & _).
  rewrite Hcleanup in Hscopes3, Htr3. simpl in Hscopes3, Htr3.
  exists (call :: head ++ tail0 ++ added1 ++ Enter_cleanUpScope l :: body ++ tail).
  split; [|split; [|split; [|split]]].
  - rewrite Ht3, Ht1, Htd. rewrite <- !app_assoc. cbn. by rewrite <- !app_assoc.
  - rewrite executed_cons. cbn [call]. rewrite app_assoc, executed_app, Hex0.
    rewrite executed_app, Hex1, Hex3. subst sc'. cbn. by rewrite Hclean.
  - assert (groupRequests (call :: head ++ tail0 ++ added1 ++ Enter_cleanUpScope l :: body ++ tail)
            = groupRequests head ++ groupRequests tail) as ->.
    { change (call :: ?x) with ([call] ++ x).
      change (Enter_cleanUpScope l :: ?x) with ([Enter_cleanUpScope l] ++ x).
      rewrite !groupRequests_app.
      rewrite (groupRequests_steps tail0), (groupRequests_steps added1),
        (groupRequests_steps body) by done.
      reflexivity. }
    destruct Hhead as [Hother Hgroup].
    destruct (decide (scope_type sc = ResourceGroup)) as [Hrg|Hrg].
    + rewrite <- Htype, Hrg. specialize (Hgroup Hrg). unfold groupOf in Hgroup.
      destruct Htail as [->|(sub & rg & -> & _ & _ & Hsub' & Hname')];
        [by destruct (Hreq eq_refl Hrg)|].
      change (scope_env sc') with (scope_env sc) in *. rewrite Hsub', Hname' in Hgroup.
      destruct (getRequiredString (scope_env sc) "location") as [loc|e];
        [|by destruct Hgroup as (_ & _ & ?)].
      destruct Hgroup as [-> _]. by exists sub, rg, loc.
    + rewrite (Hother Hrg).
      destruct Htail as [->|(sub & rg & _ & Hrg' & _)]; [|done].
      rewrite <- Htype. by destruct (scope_type sc).
  - apply provisionedAt_Some. exists sc'. by rewrite Hscopes3.
  - rewrite Htr3, Htr1. subst sd. cbn [scopeTracking with_scopes]. by rewrite Htr2.
Qed.

End NewScope.

(** A scenario on a new runner: the prepare step, the three steps, the
    clean-up step. *)
Lemma executeScenario_new_scope_witness :
  exists added,
    trace finished.2 = trace runner ++ added
    /\ executed added = [3; 0; 1; 2; 4]
    /\ exists sub rg loc,
         groupRequests added
         = [Client (createResourceGroup sub rg loc); Client (deleteResourceGroup sub rg)].
Proof.
  destruct (@executeScenario_new_scope engine (collaborators accepting) definition
              (scenarioNamed "S" true) runner finished.2)
    as (added & Htrace & Hsteps & Hgroup & _);
    [vm_compute; reflexivity | reflexivity | vm_compute; reflexivity |].
  exists added. split; [exact Htrace|]. split; [exact Hsteps | exact Hgroup].
Defined.

Section Unsupported.
Context `{Engine} `{Collaborators}.

(** X12: for a definition of scope [None], a scenario whose scope is not
    tracked fails with [Scope is not supported yet: None], before anything
    is logged; no scope object is created and no name is tracked. *)
Theorem executeScenario_unsupported_scope def scn st :
  scope def = NoScope ->
  scopeTracking st !! scopeNameIn scn st = None ->
  exists st',
    executeScenario def scn st
    = (Throw (newError "Scope is not supported yet: None"), st')
    /\ trace st' = trace st
    /\ scopes st' = scopes st
    /\ scopeTracking st' = scopeTracking st.
Proof.
  intros Hnone Hl.
  destruct (scopeName_ok (shareScope scn) st) as (name & Hname).
  pose proof (scopeName_effect (shareScope scn) st) as (A1 & A2 & _ & _ & _ & A6).
  apply logged_nothing in A6.
  rewrite (scopeNameIn_eq _ _ _ _ Hname) in Hl.
  exists (scopeName (shareScope scn) st).2. split; [|done].
  unfold executeScenario, startScenario, prepareScope.
  unfold bind at 1. unfold bind at 1. unfold bind at 1. rewrite Hname.
  unfold bind at 1, this. rewrite A2, Hl.
  cbn [newScope scope_type]. rewrite bool_decide_true by done. by rewrite Hnone.
Qed.

End Unsupported.

(** A definition of scope [None] on a new runner. *)
Lemma executeScenario_unsupported_scope_witness :
  (@executeScenario engine (collaborators accepting) unscoped (scenarioNamed "S" true)
     runner).1
  = Throw (@newError engine "Scope is not supported yet: None").
Proof.
  destruct (@executeScenario_unsupported_scope engine (collaborators accepting) unscoped
              (scenarioNamed "S" true) runner) as (st' & Hrun & _);
    [reflexivity | vm_compute; reflexivity |].
  by rewrite Hrun.
Defined.

Section Deployment.
Context `{Engine} `{Collaborators}.

(** X24: [executeArmTemplateStep] fails, leaving the runner as it was, when
    the environment has no [subscriptionId] or no [resourceGroupName].
    Otherwise it draws one random string, and either the template fails to
    resolve, in which case nothing is sent and no step object changes, or
    exactly one deployment is sent to the client: it is named
    [<resourceGroupName>-deploy-<random string>], carries the type of the
    scope, the subscription and the resource group, and the step; with
    [resolveVariables] the payload sent is the resolved one and the step
    object holds it, without it the step is sent as it is and no step object
    changes. *)
Theorem executeArmTemplateStep_deployment ref step env scope sc st r st' :
  scopes st !! scope = Some sc ->
  executeArmTemplateStep ref step env scope st = (r, st') ->
  match getRequiredString env "subscriptionId" with
  | Throw e => r = Throw e /\ st' = st
  | Ok sub =>
      match getRequiredString env "resourceGroupName" with
      | Throw e => r = Throw e /\ st' = st
      | Ok rg =>
          randomCount st' = S (randomCount st)
          /\ ((resolveVariables st = true
               /\ trace st' = trace st /\ stepObjects st' = stepObjects st
               /\ exists e, resolveArmTemplate env (arm_armTemplatePayload step) = Throw e
                            /\ r = Throw e)
              \/ exists sent,
                   (if resolveVariables st then
                      exists payload,
                        resolveArmTemplate env (arm_armTemplatePayload step) = Ok payload
                        /\ sent = with_armTemplatePayload step payload
                        /\ stepObjects st'
                           = <[ref := armTemplateDeployment sent]> (stepObjects st)
                    else sent = step /\ stepObjects st' = stepObjects st)
                   /\ trace st'
                      = trace st
                        ++ [Client (sendArmTemplateDeployment (arm_armTemplatePayload sent)
                                      (deploymentOf sent sc sub rg
                                         (getRandomString (randomCount st)))
                                      sent env)])
      end
  end.
Proof.
  intros Hsc. unfold executeArmTemplateStep. unfold bind at 1, liftResult at 1.
  destruct (getRequiredString env "subscriptionId") as [sub|e];
    [|by intros ?; simplify_eq].
  unfold bind at 1, liftResult at 1.
  destruct (getRequiredString env "resourceGroupName") as [rg|e];
    [|by intros ?; simplify_eq].
  unfold bind at 1, randomString. cbn [fst snd].
  unfold bind at 1, readScope. cbn [scopes with_randomCount]. rewrite Hsc.
  unfold bind at 1, this. cbn [resolveVariables with_randomCount].
  destruct (resolveVariables st) eqn:Hresolve.
  - unfold bind at 1. unfold bind at 1, liftResult at 1.
    destruct (resolveArmTemplate env (arm_armTemplatePayload step)) as [payload|e] eqn:Hpayload.
    + unfold bind, writeStep, update, ret, await. cbn.
      intros Hrun. split; [by destruct (client _ _); simplify_eq|].
      right. exists (with_armTemplatePayload step payload). split.
      * exists payload. split; [done|]. split; [done|]. by destruct (client _ _); simplify_eq.
      * by destruct (client _ _); simplify_eq.
    + intros ?; simplify_eq. split; [done|]. left. eauto 10.
  - unfold bind, ret, await. cbn. intros Hrun.
    split; [by destruct (client _ _); simplify_eq|].
    right. exists step. split; [by destruct (client _ _); simplify_eq|].
    by destruct (client _ _); simplify_eq.
Qed.

End Deployment.

(** A deployment after [startScenario] on the fixtures: it is named after
    the resource group of the scope and the second random string. *)
Lemma executeArmTemplateStep_deployment_witness :
  exists sent,
    trace deployed.2
    = trace ready.2
      ++ [Client (sendArmTemplateDeployment (arm_armTemplatePayload sent)
                    (deploymentOf sent readyScope "sub" "apiTest-0" "1") sent readyEnv)].
Proof.
  pose proof (@executeArmTemplateStep_deployment engine (collaborators accepting) 0 deployStep
                readyEnv 0 readyScope ready.2 deployed.1 deployed.2) as Hsent.
  change (@getRequiredString (collaborators accepting) readyEnv "subscriptionId")
    with (@Ok string "sub") in Hsent.
  change (@getRequiredString (collaborators accepting) readyEnv "resourceGroupName")
    with (@Ok string "apiTest-0") in Hsent.
  destruct Hsent as (_ & [(_ & _ & _ & e & Hfails & _)|(sent & _ & Htrace)]);
    [vm_compute; reflexivity | vm_compute; reflexivity | discriminate Hfails |].
  exists sent. exact Htrace.
Defined.

End RunnerLaws.

(** ** More on the loader *)

Module LoaderLaws.

Import Loader Spec CallFacts Fixtures LoaderFacts Words LoaderSpec LoaderCases JsFacts.
Local Open Scope call_scope.

Section Convert.
Context `{Engine}.




End Convert.

Section Convert2.
Context `{Engine}.



End Convert2.

Lemma includes_elem_of xs x : includes xs x = true <-> x ∈ xs.
Proof.
  unfold includes. rewrite existsb_exists. split.
  - intros (y & Hin & ->%String.eqb_eq). by apply list_elem_of_In.
  - intros Hin. exists x. split; [by apply list_elem_of_In|apply String.eqb_refl].
Qed.

Lemma includes_not_elem_of xs x : includes xs x = false <-> x ∉ xs.
Proof.
  rewrite <- includes_elem_of. by destruct (includes xs x).
Qed.

Lemma hasProp_own {A : Type} (o : list (string * A)) k :
  hasProp o k = false <-> lookupKey o k = None /\ inherited k = false.
Proof.
  unfold hasProp. rewrite orb_false_iff, bool_decide_eq_false.
  by rewrite <- eq_None_not_Some.
Qed.

Lemma declareOutputVariables_sound outs scope :
  let scope' := declareOutputVariables outs scope in
  requiredVariables scope' = requiredVariables scope
  /\ secretVariables scope'
     = secretVariables scope ++ (List.filter (fun kv => secureOutput kv.2) outs).*1
  /\ (forall k v, lookupKey (variables scope) k = Some v ->
        lookupKey (variables scope') k = Some v)
  /\ (forall k, k ∉ outs.*1 ->
        lookupKey (variables scope') k = lookupKey (variables scope) k)
  /\ (forall k, k ∈ outs.*1 -> lookupKey (variables scope) k = None ->
        inherited k = false ->
        exists type, (k, type) ∈ outs
                     /\ lookupKey (variables scope') k = Some (outputVariable type))
  /\ (forall k, inherited k = true ->
        lookupKey (variables scope') k = lookupKey (variables scope) k).
Proof.
  cbv zeta. revert scope. induction outs as [|[key type] outs IH]; intros scope.
  - simpl. rewrite app_nil_r. repeat split; try done. by intros k ?%elem_of_nil.
  - simpl. fold (secureOutput type).
    set (scope1 := if hasProp (variables scope) key then scope else _).
    set (scope2 := if secureOutput type then _ else scope1).
    assert (requiredVariables scope2 = requiredVariables scope) as R.
    { subst scope2 scope1. by destruct (secureOutput type), (hasProp _ key). }
    assert (secretVariables scope2
            = secretVariables scope ++ (if secureOutput type then [key] else [])) as S.
    { subst scope2 scope1. destruct (secureOutput type), (hasProp _ key); simpl;
        by rewrite ?app_nil_r. }
    assert (variables scope2
            = if hasProp (variables scope) key then variables scope
              else setKey (variables scope) key (outputVariable type)) as V.
    { subst scope2 scope1. by destruct (secureOutput type), (hasProp _ key). }
    clearbody scope2. clear scope1.
    destruct (IH scope2) as (E1 & E2 & E3 & E4 & E5 & E6).
    split; [congruence|]. split; [|split; [|split; [|split]]].
    + rewrite E2, S. rewrite <- app_assoc. f_equal. by destruct (secureOutput type).
    + intros k v Hk. apply E3. rewrite V.
      destruct (hasProp (variables scope) key) eqn:Hkey; [done|].
      apply hasProp_own in Hkey as [Hkey _].
      rewrite lookupKey_setKey_ne; [done|]. intros ->. congruence.
    + intros k [Hne Hk]%not_elem_of_cons. rewrite (E4 k Hk), V.
      destruct (hasProp (variables scope) key); [done|]. by rewrite lookupKey_setKey_ne.
    + intros k Hk Hnone Hown. destruct (decide (key = k)) as [->|Hne].
      * exists type. split; [by left|]. apply E3. rewrite V.
        assert (hasProp (variables scope) k = false) as -> by by apply hasProp_own.
        apply lookupKey_setKey_eq.
      * apply elem_of_cons in Hk as [?|Hk]; [congruence|].
        destruct (E5 k Hk) as (type' & Hin & Hlook); [|done|].
        { rewrite V. destruct (hasProp (variables scope) key); [done|].
          by rewrite lookupKey_setKey_ne. }
        exists type'. split; [by right|done].
    + intros k Hk. rewrite (E6 k Hk), V.
      destruct (hasProp (variables scope) key) eqn:Hkey; [done|].
      apply hasProp_own in Hkey as [_ Hkey].
      rewrite lookupKey_setKey_ne; [done|]. intros ->. congruence.
Qed.

(** X14: [declareOutputVariables] leaves the required variables alone,
    keeps every variable that the scope has (an output never overwrites a
    declaration), and appends the names of the secure outputs to the secret
    variables, in order. An output is declared, with the type given, [string]
    when none is, and without value, when [scope.variables[key]] is
    undefined: the scope has no variable of that name and the name is not one
    that [Object.prototype] answers to. An output named like a member of
    [Object.prototype] ([constructor], [toString], ...) is never declared. *)
Theorem declareOutputVariables_declares outs scope :
  let scope' := declareOutputVariables outs scope in
  requiredVariables scope' = requiredVariables scope
  /\ secretVariables scope'
     = secretVariables scope ++ (List.filter (fun kv => secureOutput kv.2) outs).*1
  /\ (forall k v, lookupKey (variables scope) k = Some v ->
        lookupKey (variables scope') k = Some v)
  /\ (forall k, k ∉ outs.*1 ->
        lookupKey (variables scope') k = lookupKey (variables scope) k)
  /\ (forall k, k ∈ outs.*1 -> lookupKey (variables scope) k = None ->
        inherited k = false ->
        exists type, (k, type) ∈ outs
                     /\ lookupKey (variables scope') k = Some (outputVariable type))
  /\ (forall k, inherited k = true ->
        lookupKey (variables scope') k = lookupKey (variables scope) k).
Proof. apply declareOutputVariables_sound. Qed.

Section Require.
Context `{Engine} `{Collaborators}.

Lemma owningScope_with ctx v : owningScope (with_owningScope ctx v) = v.
Proof.
  unfold owningScope, with_owningScope. destruct ctx as [t d s i j g]. by destruct s.
Qed.

Lemma with_owningScope_same ctx : with_owningScope ctx (owningScope ctx) = ctx.
Proof.
  unfold owningScope, with_owningScope. destruct ctx as [t d s i j g]. simpl.
  destruct s as [[]|]; simpl; [done|]. by destruct d.
Qed.

Lemma requireVariable_run name ctx :
  requireVariable name ctx
  = (Ok tt,
     if exempt ctx name || includes (requiredVariables (owningScope ctx)) name then ctx
     else with_owningScope ctx
            (with_requiredVariables (owningScope ctx)
               (push (requiredVariables (owningScope ctx)) name))).
Proof.
  unfold requireVariable, bind, this, exempt.
  destruct (_ && _); [done|]. simpl. by destruct (includes _ name).
Qed.

Lemma exempt_with ctx v name : exempt (with_owningScope ctx v) name = exempt ctx name.
Proof.
  unfold exempt, with_owningScope. destruct ctx as [t d s i j g]. by destruct s.
Qed.

(** X15: [requireVariable] is idempotent: a second call for the same name
    changes nothing. A call appends at most the name to the required
    variables of the owning scope, never introduces a duplicate, and leaves
    the name required, unless the name is [resourceGroupName] in a definition
    of scope [ResourceGroup], in which case the context is as it was. *)
Theorem requireVariable_once name ctx :
  let ctx1 := (requireVariable name ctx).2 in
  requireVariable name ctx1 = (Ok tt, ctx1)
  /\ requiredVariables (owningScope ctx) `prefix_of` requiredVariables (owningScope ctx1)
  /\ (NoDup (requiredVariables (owningScope ctx)) ->
      NoDup (requiredVariables (owningScope ctx1)))
  /\ (exempt ctx name = false -> name ∈ requiredVariables (owningScope ctx1))
  /\ (exempt ctx name = true -> ctx1 = ctx).
Proof.
  cbv zeta. rewrite (requireVariable_run name ctx). cbn [snd].
  destruct (exempt ctx name) eqn:Hex; simpl.
  { rewrite requireVariable_run, Hex. simpl. by repeat split. }
  destruct (includes (requiredVariables (owningScope ctx)) name) eqn:Hin.
  { rewrite requireVariable_run, Hex, Hin. simpl. repeat split; try done.
    intros _. by apply includes_elem_of. }
  set (ctx1 := with_owningScope _ _).
  assert (requiredVariables (owningScope ctx1)
          = requiredVariables (owningScope ctx) ++ [name]) as Hreq.
  { subst ctx1. by rewrite owningScope_with. }
  rewrite Hreq. split; [|split; [|split; [|split; [|done]]]].
  - rewrite requireVariable_run. subst ctx1. rewrite exempt_with, Hex, owningScope_with.
    simpl. unfold push.
    assert (includes (requiredVariables (owningScope ctx) ++ [name]) name = true) as ->; [|done].
    apply includes_elem_of, elem_of_app. right. by left.
  - by apply prefix_app_r.
  - intros Hnodup. apply NoDup_app. split; [done|]. split; [|apply NoDup_singleton].
    intros x Hx ->%list_elem_of_singleton. by apply includes_not_elem_of in Hin.
  - intros _. apply elem_of_app. right. by left.
Qed.

End Require.

#[global] Instance scopeGrows_refl : Reflexive scopeGrows.
Proof. by intros s. Qed.

#[global] Instance scopeGrows_trans : Transitive scopeGrows.
Proof.
  intros s1 s2 s3 (A1 & A2 & A3) (B1 & B2 & B3).
  split; [by etrans|]. split; [by etrans|]. auto.
Qed.

#[global] Instance scenarioGrows_refl : Reflexive scenarioGrows.
Proof. by intros x. Qed.

#[global] Instance scenarioGrows_trans : Transitive scenarioGrows.
Proof.
  intros x1 x2 x3 (A1 & A2 & A3 & A4 & A5) (B1 & B2 & B3 & B4 & B5).
  repeat split; try congruence; by destruct (transitivity A5 B5) as (? & ? & ?).
Qed.

#[global] Instance definitionGrows_refl : Reflexive definitionGrows.
Proof. by intros d. Qed.

#[global] Instance definitionGrows_trans : Transitive definitionGrows.
Proof.
  intros d1 d2 d3 (A1 & A2 & A3 & A4 & A5 & A6 & A7) (B1 & B2 & B3 & B4 & B5 & B6 & B7).
  repeat split; try congruence; by destruct (transitivity A7 B7) as (? & ? & ?).
Qed.

#[global] Instance framed_refl : Reflexive framed.
Proof. intros ctx. split; [done|]. split; [done|]. split; [apply reflexivity|done]. Qed.

#[global] Instance framed_trans : Transitive framed.
Proof.
  intros c1 c2 c3 (A1 & A2 & A3 & A4 & A5 & A6) (B1 & B2 & B3 & B4 & B5 & B6).
  split; [by etrans|]. split; [by etrans|]. split; [by etrans|].
  simpl in *. split; [congruence|]. split; congruence.
Qed.

Lemma framed_owningScope ctx v :
  scopeGrows (owningScope ctx) v -> framed ctx (with_owningScope ctx v).
Proof.
  intros Hv. unfold owningScope, with_owningScope in *.
  destruct ctx as [t d s i j g]. simpl in *. destruct s as [x|]; simpl.
  - split; [done|]. split; [done|]. split; [|done]. constructor. by destruct x.
  - split; [done|]. split; [by destruct d|]. split; [constructor|done].
Qed.

Lemma framed_stepTracking ctx names :
  stepTracking ctx ⊆ names -> framed ctx (with_stepTracking ctx names).
Proof.
  intros Hn. split; [done|]. split; [done|]. split; [apply reflexivity|done].
Qed.

Lemma scopeGrows_require s name :
  scopeGrows s (with_requiredVariables s (push (requiredVariables s) name)).
Proof. split; [by apply prefix_app_r|done]. Qed.

Lemma scopeGrows_declare outs s : scopeGrows s (declareOutputVariables outs s).
Proof.
  destruct (declareOutputVariables_sound outs s) as (E1 & E2 & E3 & _).
  split; [by rewrite E1|]. split; [|done]. rewrite E2. by apply prefix_app_r.
Qed.

Ltac framed_update :=
  apply preserves_update; intros ?;
  first [ apply framed_owningScope; first [apply scopeGrows_require | apply scopeGrows_declare]
        | apply framed_stepTracking; set_solver ].

Ltac framed_tac := preserves_tac; try framed_update.

Section Framed.
Context `{Engine} `{Collaborators}.

Lemma framed_requireVariable name : preserves framed (requireVariable name).
Proof. unfold requireVariable. framed_tac. Qed.

#[local] Hint Resolve framed_requireVariable : preserves.

Lemma framed_loadStepVariables entries step :
  preserves framed (loadStepVariables entries step).
Proof.
  revert step. induction entries as [|[name [value|value]] entries IH]; intros step; simpl;
    framed_tac.
Qed.

#[local] Hint Resolve framed_loadStepVariables : preserves.

Lemma framed_loadStepParameters self rawStep params step :
  preserves framed (loadStepParameters self rawStep params step).
Proof.
  revert step. induction params as [|param params IH]; intros step; simpl; framed_tac.
Qed.

#[local] Hint Resolve framed_loadStepParameters : preserves.

Lemma framed_applyPatches step rawStep operation :
  preserves framed (applyPatches step rawStep operation).
Proof. unfold applyPatches. framed_tac. Qed.

#[local] Hint Resolve framed_applyPatches : preserves.

Lemma framed_loadExampleOperation self step path content :
  preserves framed (loadExampleOperation self step path content).
Proof. unfold loadExampleOperation. framed_tac. Qed.

#[local] Hint Resolve framed_loadExampleOperation : preserves.

Lemma framed_checkStepName name : preserves framed (checkStepName name).
Proof. unfold checkStepName. framed_tac. Qed.

#[local] Hint Resolve framed_checkStepName : preserves.

Lemma framed_loadStepRestCall self rawStep : preserves framed (loadStepRestCall self rawStep).
Proof. unfold loadStepRestCall. framed_tac. Qed.

#[local] Hint Resolve framed_loadStepRestCall : preserves.

Lemma framed_requireTemplateParameters params step :
  preserves framed (requireTemplateParameters params step).
Proof. induction params as [|[paramName param] params IH]; simpl; framed_tac. Qed.

#[local] Hint Resolve framed_requireTemplateParameters : preserves.

Lemma framed_loadStepArmTemplate self rawStep :
  preserves framed (loadStepArmTemplate self rawStep).
Proof. unfold loadStepArmTemplate. framed_tac. Qed.

#[local] Hint Resolve framed_loadStepArmTemplate : preserves.

Lemma framed_loadStepArmDeploymentScript self rawStep :
  preserves framed (loadStepArmDeploymentScript self rawStep).
Proof. unfold loadStepArmDeploymentScript, typeError. framed_tac. Qed.

#[local] Hint Resolve framed_loadStepArmDeploymentScript : preserves.

End Framed.

Section LoadStep.
Context `{Engine} `{Collaborators}.

#[local] Hint Resolve framed_loadStepRestCall framed_loadStepArmTemplate
  framed_loadStepArmDeploymentScript : preserves.

Lemma framed_dispatch self rawStep : preserves framed (dispatch self rawStep).
Proof. unfold dispatch. preserves_tac. Qed.

Lemma loadStep_run self rawStep ctx :
  loadStep self rawStep ctx
  = match dispatch self rawStep ctx with
    | (Ok step, ctx1) => (Ok step, counted step ctx1)
    | (Throw error, ctx1) =>
        (Throw (newError ("Failed to load step " +:+ stringify rawStep +:+ ": "
                          +:+ message error)), ctx1)
    end.
Proof.
  unfold loadStep. fold (dispatch self rawStep). unfold bind at 1, tryCatch.
  destruct (dispatch self rawStep ctx) as [[step|e] ctx1]; [|done].
  unfold counted, bind, update, ret. by destruct (step_outputVariables step).
Qed.

Lemma loaded_counted step ctx : loaded 1 ctx (counted step ctx).
Proof.
  unfold counted.
  set (ctx1 := match step_outputVariables step with Some _ => _ | None => ctx end).
  assert (framed ctx ctx1) as (A1 & A2 & A3 & A4 & A5 & A6).
  { subst ctx1. destruct (step_outputVariables step); [|reflexivity].
    apply framed_owningScope, scopeGrows_declare. }
  simpl in A5. split; [done|]. split; [done|]. split; [done|]. simpl.
  split; [done|]. split; [by rewrite A5|done].
Qed.

Lemma loaded_trans n m c1 c2 c3 : loaded n c1 c2 -> loaded m c2 c3 -> loaded (m + n) c1 c3.
Proof.
  intros (A1 & A2 & A3 & A4 & A5 & A6) (B1 & B2 & B3 & B4 & B5 & B6).
  split; [by etrans|]. split; [by etrans|]. split; [by etrans|].
  split; [congruence|]. split; [lia|congruence].
Qed.

Lemma loadStep_loaded self rawStep ctx :
  loaded (if isOk (loadStep self rawStep ctx).1 then 1 else 0) ctx
    (loadStep self rawStep ctx).2.
Proof.
  rewrite loadStep_run. pose proof (framed_dispatch self rawStep ctx) as Hf.
  destruct (dispatch self rawStep ctx) as [[step|e] ctx1]; simpl in *; [|done].
  apply (loaded_trans 0 1 _ _ _ Hf), loaded_counted.
Qed.

(** X16: [loadStep] only adds to the context: the names tracked stay
    tracked; the definition and the scenario being loaded keep their steps
    and their fields, and their variable scopes keep what they require, hide
    and declare; the index of the step advances by one when the step loads,
    and not at all when it fails. *)
Theorem loadStep_accumulates self rawStep ctx :
  loaded (if isOk (loadStep self rawStep ctx).1 then 1 else 0) ctx
    (loadStep self rawStep ctx).2.
Proof. apply loadStep_loaded. Qed.

(** X17: an error of [loadStep] is the error of the loader of the step
    wrapped with the raw step: [Failed to load step <raw step>: <message>];
    the step is not counted. A raw step that is none of the four kinds fails
    with [Invalid step], and the context is as it was. *)
Theorem loadStep_error self rawStep ctx e ctx' :
  loadStep self rawStep ctx = (Throw e, ctx') ->
  (exists inner,
     e = newError ("Failed to load step " +:+ stringify rawStep +:+ ": " +:+ inner))
  /\ stepIndex ctx' = stepIndex ctx
  /\ (forall s, rawStep = RawStepOther s ->
        e = newError ("Failed to load step " +:+ stringify rawStep +:+ ": Invalid step")
        /\ ctx' = ctx).
Proof.
  pose proof (loadStep_loaded self rawStep ctx) as Hl.
  rewrite loadStep_run in *.
  destruct (dispatch self rawStep ctx) as [[step|error] ctx1] eqn:Hd; [done|].
  intros ?; simplify_eq. split; [eauto|]. split; [apply Hl|].
  intros s ->. unfold dispatch, throw in Hd. by simplify_eq.
Qed.

End LoadStep.

(** A raw step of no kind. *)
Lemma loadStep_error_witness :
  thrown
    (@loadStep engine loaderCollaborators loader (RawStepOther (named "odd")) loadContext).1
  = @newError engine "Failed to load step {...}: Invalid step"
  /\ (@loadStep engine loaderCollaborators loader (RawStepOther (named "odd")) loadContext).2
     = loadContext.
Proof.
  destruct (@loadStep_error engine loaderCollaborators loader (RawStepOther (named "odd"))
              loadContext
              (thrown (@loadStep engine loaderCollaborators loader
                         (RawStepOther (named "odd")) loadContext).1)
              (@loadStep engine loaderCollaborators loader (RawStepOther (named "odd"))
                 loadContext).2)
    as (_ & _ & Hother); [vm_compute; reflexivity|].
  exact (Hother (named "odd") eq_refl).
Defined.

Section Names.
Context `{Engine} `{Collaborators}.

#[local] Hint Resolve framed_requireVariable framed_loadStepVariables
  framed_loadStepParameters framed_applyPatches framed_loadExampleOperation
  framed_checkStepName : preserves.

Lemma loadStepRestCall_tracks self rawStep ctx step ctx' :
  loadStepRestCall self rawStep ctx = (Ok step, ctx') ->
  default (positionName ctx) (raw_step (baseOfRestCall rawStep)) ∈ stepTracking ctx'.
Proof.
  unfold loadStepRestCall. cbv zeta. unfold bind at 1.
  destruct (checkStepName _ ctx) as [[[]|?] ctx0] eqn:Hcheck; [|done].
  apply checkStepName_state in Hcheck as ->.
  unfold bind at 1, this. unfold bind at 1, liftResult at 1.
  destruct (convertVariables _) as [variableScope|?]; [|done].
  unfold bind at 1, update. cbn [fst snd].
  set (ctx1 := with_stepTracking ctx _). set (rest := match rawStep with inl _ => _ | inr _ => _ end).
  assert (preserves framed rest) as Hrest by (subst rest; framed_tac).
  intros Hrun. specialize (Hrest ctx1). rewrite Hrun in Hrest.
  destruct Hrest as (Hsub & _). apply Hsub. subst ctx1. cbn. set_solver.
Qed.

Lemma loadStepRestCall_duplicate self rawStep ctx name :
  raw_step (baseOfRestCall rawStep) = Some name ->
  name ∈ stepTracking ctx ->
  loadStepRestCall self rawStep ctx
  = (Throw (newError ("Duplicated step name: " +:+ name)), ctx).
Proof.
  intros Hname Hin. unfold loadStepRestCall. cbv zeta. unfold bind at 1.
  unfold checkStepName, bind, this. rewrite Hname. by rewrite bool_decide_true.
Qed.

Lemma dispatch_restCall self rawStep ctx :
  isRestCallStep rawStep = true ->
  exists raw, rawStepName rawStep = raw_step (baseOfRestCall raw)
    /\ dispatch self rawStep ctx
       = (let* step := loadStepRestCall self raw in ret (restCall step)) ctx.
Proof.
  destruct rawStep as [s|s| | |]; try done; intros _; [exists (inl s)|exists (inr s)]; done.
Qed.

Lemma counted_stepTracking step ctx : stepTracking (counted step ctx) = stepTracking ctx.
Proof.
  unfold counted, with_owningScope. destruct ctx as [t d x i j g].
  destruct (step_outputVariables step); [|done]. by destruct x.
Qed.

(** X18: once a rest call step (operation or example) loaded under a
    name, a rest call step with that name fails to load in every later
    context that tracks the names of that one, with
    [Duplicated step name: <name>] wrapped by [loadStep], and leaves the
    context as it was. *)
Theorem loadStep_duplicate self rawA rawB name ctx s ctx1 ctx2 :
  isRestCallStep rawA = true -> isRestCallStep rawB = true ->
  rawStepName rawA = Some name -> rawStepName rawB = Some name ->
  loadStep self rawA ctx = (Ok s, ctx1) ->
  stepTracking ctx1 ⊆ stepTracking ctx2 ->
  loadStep self rawB ctx2
  = (Throw (newError ("Failed to load step " +:+ stringify rawB
                      +:+ ": Duplicated step name: " +:+ name)), ctx2).
Proof.
  intros HA HB HnA HnB Hload Hsub.
  destruct (dispatch_restCall self rawA ctx HA) as (a & Ha & Hda).
  destruct (dispatch_restCall self rawB ctx2 HB) as (b & Hb & Hdb).
  rewrite loadStep_run, Hda in Hload. rewrite loadStep_run, Hdb.
  unfold bind in *.
  destruct (loadStepRestCall self a ctx) as [[step|?] ctx0] eqn:Hrun; [|done].
  apply loadStepRestCall_tracks in Hrun. rewrite <- Ha, HnA in Hrun. simpl in Hrun.
  unfold ret in Hload. simplify_eq.
  assert (name ∈ stepTracking ctx2) as Hin.
  { apply Hsub. by rewrite counted_stepTracking. }
  rewrite (loadStepRestCall_duplicate self b ctx2 name); [done| |done]. congruence.
Qed.

End Names.

(** The operation step [list] loaded twice. *)
Lemma loadStep_duplicate_witness :
  @loadStep engine loaderCollaborators loader (operationStep "list") loadedList.2
  = (Throw (@newError engine "Failed to load step {...}: Duplicated step name: list"),
     loadedList.2).
Proof.
  apply (@loadStep_duplicate engine loaderCollaborators loader (operationStep "list")
           (operationStep "list") "list" loadContext listStep loadedList.2 loadedList.2);
    [reflexivity | reflexivity | reflexivity | reflexivity | vm_compute; reflexivity
    | reflexivity].
Defined.

Lemma setOf_from xs acc :
  NoDup acc ->
  let result := fold_left (fun acc x => if includes acc x then acc else push acc x) xs acc in
  NoDup result /\ acc `prefix_of` result /\ forall x, x ∈ result <-> x ∈ acc \/ x ∈ xs.
Proof.
  cbv zeta. revert acc. induction xs as [|y xs IH]; intros acc Hacc; simpl.
  - split; [done|]. split; [done|]. intros x. split; [by left|]. by intros [?|?%elem_of_nil].
  - destruct (includes acc y) eqn:Hy.
    + destruct (IH acc Hacc) as (E1 & E2 & E3). split; [done|]. split; [done|].
      intros x. rewrite E3, elem_of_cons. apply includes_elem_of in Hy.
      split; [intros [?|?]; auto|]. intros [?|[-> |?]]; auto.
    + apply includes_not_elem_of in Hy.
      assert (NoDup (push acc y)) as Hpush.
      { apply NoDup_app. split; [done|]. split; [|apply NoDup_singleton].
        by intros x Hx ->%list_elem_of_singleton. }
      destruct (IH _ Hpush) as (E1 & E2 & E3). split; [done|]. split.
      * etrans; [|exact E2]. by apply prefix_app_r.
      * intros x. rewrite E3. unfold push. rewrite elem_of_app, list_elem_of_singleton, elem_of_cons.
        split; [intros [[?|?]|?]; auto|]. intros [?|[?|?]]; auto.
Qed.

Lemma setOf_spec xs : NoDup (setOf xs) /\ forall x, x ∈ setOf xs <-> x ∈ xs.
Proof.
  destruct (setOf_from xs [] (NoDup_nil_2)) as (E1 & _ & E3). split; [done|].
  intros x. rewrite E3. split; [by intros [?%elem_of_nil|?]|by right].
Qed.

Lemma setAdd_spec xs y :
  (NoDup xs -> NoDup (setAdd xs y)) /\ forall x, x ∈ setAdd xs y <-> x ∈ xs \/ x = y.
Proof.
  unfold setAdd. destruct (includes xs y) eqn:Hy.
  - apply includes_elem_of in Hy. split; [done|]. intros x. split; [by left|].
    by intros [?| ->].
  - apply includes_not_elem_of in Hy. split.
    + intros Hxs. apply NoDup_app. split; [done|]. split; [|apply NoDup_singleton].
      by intros x Hx ->%list_elem_of_singleton.
    + intros x. unfold push. by rewrite elem_of_app, list_elem_of_singleton.
Qed.

Section Shape.
Context `{Engine} `{Collaborators}.

Lemma loadScenario_loop self raws ctx x ctx' :
  ctx_scenario ctx = Some x ->
  forOf raws (loadScenarioStep self) ctx = (Ok tt, ctx') ->
  exists x' new,
    ctx_scenario ctx' = Some x'
    /\ steps x' = steps x ++ new /\ length new = length raws
    /\ scenario x' = scenario x /\ description x' = description x
    /\ shareScope x' = shareScope x
    /\ scopeGrows (sc_scope x) (sc_scope x')
    /\ definitionGrows (ctx_scenarioDef ctx) (ctx_scenarioDef ctx')
    /\ stepIndex ctx' = length raws + stepIndex ctx
    /\ scenarioIndex ctx' = scenarioIndex ctx.
Proof.
  revert ctx x. induction raws as [|raw raws IH]; intros ctx x Hx.
  - simpl. unfold ret. intros ?; simplify_eq. exists x, []. rewrite app_nil_r.
    by repeat split.
  - simpl. unfold bind at 1. unfold loadScenarioStep at 1. unfold bind at 1.
    pose proof (loadStep_loaded self raw ctx) as Hl.
    destruct (loadStep self raw ctx) as [[step|e] ctx1]; [|done]. simpl in Hl.
    destruct Hl as (A1 & A2 & A3 & A4 & A5 & A6). rewrite Hx in A3.
    inversion A3 as [? x1 (B1 & B2 & B3 & B4 & B5) Heq1 Heq2|]; subst.
    unfold update. cbn [fst snd]. rewrite <- Heq2. cbn [fmap option_fmap option_map].
    set (ctx2 := with_scenario ctx1 _). intros Hrun.
    destruct (IH ctx2 _ eq_refl Hrun) as (x' & new & C1 & C2 & C3 & C4 & C5 & C6 & C7 & C8 & C9 & C10).
    exists x', (step :: new). cbn in *. split; [done|].
    split; [by rewrite C2, B4; unfold push; rewrite <- app_assoc|].
    split; [by rewrite C3|]. split; [congruence|]. split; [congruence|]. split; [congruence|].
    split; [by etrans|]. split; [by etrans|]. split; [lia|congruence].
Qed.

Lemma loadScenario_sound self rawScenario ctx scn ctx' :
  loadScenario self rawScenario ctx = (Ok scn, ctx') ->
  length (steps scn) = length (rs_steps rawScenario)
  /\ scenario scn
     = default ("scenario_" +:+ from_option pretty "undefined" (scenarioIndex ctx))
         (rs_scenario rawScenario)
  /\ description scn = default "" (rs_description rawScenario)
  /\ shareScope scn = default true (rs_shareScope rawScenario)
  /\ (forall name, name ∈ requiredVariables (def_scope (ctx_scenarioDef ctx)) ->
        name ∈ requiredVariables (sc_scope scn))
  /\ definitionGrows (ctx_scenarioDef ctx) (ctx_scenarioDef ctx')
  /\ ctx_scenario ctx' = Some scn
  /\ stepIndex ctx' = length (rs_steps rawScenario)
  /\ scenarioIndex ctx' = scenarioIndex ctx.
Proof.
  unfold loadScenario. unfold bind at 1, update. cbn [fst snd].
  unfold bind at 1, this. unfold bind at 1.
  destruct (convertVariables (rs_variables rawScenario)) as [variableScope|e]; [|done].
  unfold liftResult. unfold bind at 1, update. cbn [fst snd].
  set (scenario0 := newScenario _ _ _).
  set (ctx1 := with_stepIndex _ 0).
  fold (loadScenarioStep self). unfold bind at 1.
  destruct (forOf _ _ ctx1) as [[[]|e] ctx2] eqn:Hloop; [|done].
  destruct (loadScenario_loop self _ ctx1 scenario0 _ eq_refl Hloop)
    as (x' & new & C1 & C2 & C3 & C4 & C5 & C6 & C7 & C8 & C9 & C10).
  unfold bind, this, ret. intros ?; simplify_eq. rewrite C1. simpl.
  split; [by rewrite C2|]. split.
  { rewrite C4. subst scenario0. unfold newScenario. simpl.
    by destruct (scenarioIndex ctx). }
  split; [done|]. split; [done|]. split; [|split; [done|split; [done|split; [|done]]]].
  - intros name Hname. destruct C7 as (P & _). eapply elem_of_prefix; [|exact P].
    subst scenario0. simpl. apply setOf_spec, elem_of_app. by left.
  - rewrite C9. simpl. lia.
Qed.

(** X19: a scenario that loads has one step per raw step; its name is the
    name given, [scenario_<index>] when none is; its description defaults to
    the empty string and [shareScope] to true; it requires every variable
    that the definition required when it was loaded. The context holds the
    scenario, counted as many steps as the scenario has, and the definition
    kept its steps and scenarios. *)
Theorem loadScenario_shape self rawScenario ctx scn ctx' :
  loadScenario self rawScenario ctx = (Ok scn, ctx') ->
  length (steps scn) = length (rs_steps rawScenario)
  /\ scenario scn
     = default ("scenario_" +:+ from_option pretty "undefined" (scenarioIndex ctx))
         (rs_scenario rawScenario)
  /\ description scn = default "" (rs_description rawScenario)
  /\ shareScope scn = default true (rs_shareScope rawScenario)
  /\ (forall name, name ∈ requiredVariables (def_scope (ctx_scenarioDef ctx)) ->
        name ∈ requiredVariables (sc_scope scn))
  /\ definitionGrows (ctx_scenarioDef ctx) (ctx_scenarioDef ctx')
  /\ ctx_scenario ctx' = Some scn
  /\ stepIndex ctx' = length (rs_steps rawScenario)
  /\ scenarioIndex ctx' = scenarioIndex ctx.
Proof. apply loadScenario_sound. Qed.

End Shape.

(** The scenario of the fixtures: one step, the name given. *)
Lemma loadScenario_shape_witness :
  length (steps compiledScenario) = 1
  /\ scenario compiledScenario = "deploy"
  /\ stepIndex loadedScenario.2 = 1.
Proof.
  destruct (@loadScenario_shape engine loaderCollaborators loader
              (rawScenarioOf [operationStep "list"]) loadContext compiledScenario
              loadedScenario.2)
    as (Hsteps & Hname & _ & _ & _ & _ & _ & Hindex & _); [vm_compute; reflexivity|].
  split; [exact Hsteps|]. split; [exact Hname | exact Hindex].
Defined.

Section Load.
Context `{Engine} `{Collaborators}.

Lemma definitionExtends_grows d d' : definitionGrows d d' -> definitionExtends d d' [] [] [].
Proof.
  intros (A1 & A2 & A3 & A4 & A5 & A6 & A7). unfold definitionExtends.
  rewrite !app_nil_r. repeat (split; [done|]). done.
Qed.

Lemma definitionExtends_trans d1 d2 d3 p1 c1 s1 p2 c2 s2 :
  definitionExtends d1 d2 p1 c1 s1 -> definitionExtends d2 d3 p2 c2 s2 ->
  definitionExtends d1 d3 (p1 ++ p2) (c1 ++ c2) (s1 ++ s2).
Proof.
  intros (A1 & A2 & A3 & A4 & A5 & A6 & A7) (B1 & B2 & B3 & B4 & B5 & B6 & B7).
  unfold definitionExtends. rewrite !app_assoc. split; [congruence|]. split; [congruence|]. split; [congruence|].
  split; [by etrans|]. split; [congruence|]. split; congruence.
Qed.

Lemma markPrepareStep_flag step : isPrepareStep (markPrepareStep step) = Some true.
Proof. by destruct step. Qed.

Lemma markCleanUpStep_flag step : isCleanUpStep (markCleanUpStep step) = Some true.
Proof. by destruct step. Qed.

Lemma loadPrepareSteps_loop self raws ctx ctx' :
  forOf raws (loadPrepareStep self) ctx = (Ok tt, ctx') ->
  exists new,
    definitionExtends (ctx_scenarioDef ctx) (ctx_scenarioDef ctx') new [] []
    /\ length new = length raws
    /\ Forall (fun s => isPrepareStep s = Some true) new.
Proof.
  revert ctx. induction raws as [|raw raws IH]; intros ctx.
  - simpl. unfold ret. intros ?; simplify_eq. exists [].
    split; [by apply definitionExtends_grows|done].
  - simpl. unfold bind at 1. unfold loadPrepareStep at 1. unfold bind at 1.
    pose proof (loadStep_loaded self raw ctx) as Hl.
    destruct (loadStep self raw ctx) as [[step|e] ctx1]; [|done]. simpl in Hl.
    destruct Hl as (_ & A2 & _). unfold update. cbn [fst snd].
    set (ctx2 := with_scenarioDef ctx1 _). intros Hrun.
    destruct (IH ctx2 Hrun) as (new & B1 & B2 & B3).
    exists (markPrepareStep step :: new). split; [|split].
    + apply definitionExtends_grows in A2.
      assert (definitionExtends (ctx_scenarioDef ctx1) (ctx_scenarioDef ctx2)
                [markPrepareStep step] [] []) as Hpush.
      { subst ctx2. unfold definitionExtends. cbn. rewrite !app_nil_r.
        repeat (split; [done|]). done. }
      apply (definitionExtends_trans _ _ _ _ _ _ _ _ _ A2) in Hpush.
      by apply (definitionExtends_trans _ _ _ _ _ _ _ _ _ Hpush) in B1.
    + simpl. by rewrite B2.
    + constructor; [apply markPrepareStep_flag|done].
Qed.

Lemma loadCleanUpSteps_loop self raws ctx ctx' :
  forOf raws (loadCleanUpStep self) ctx = (Ok tt, ctx') ->
  exists new,
    definitionExtends (ctx_scenarioDef ctx) (ctx_scenarioDef ctx') [] new []
    /\ length new = length raws
    /\ Forall (fun s => isCleanUpStep s = Some true) new.
Proof.
  revert ctx. induction raws as [|raw raws IH]; intros ctx.
  - simpl. unfold ret. intros ?; simplify_eq. exists [].
    split; [by apply definitionExtends_grows|done].
  - simpl. unfold bind at 1. unfold loadCleanUpStep at 1. unfold bind at 1.
    pose proof (loadStep_loaded self raw ctx) as Hl.
    destruct (loadStep self raw ctx) as [[step|e] ctx1]; [|done]. simpl in Hl.
    destruct Hl as (_ & A2 & _). unfold update. cbn [fst snd].
    set (ctx2 := with_scenarioDef ctx1 _). intros Hrun.
    destruct (IH ctx2 Hrun) as (new & B1 & B2 & B3).
    exists (markCleanUpStep step :: new). split; [|split].
    + apply definitionExtends_grows in A2.
      assert (definitionExtends (ctx_scenarioDef ctx1) (ctx_scenarioDef ctx2)
                [] [markCleanUpStep step] []) as Hpush.
      { subst ctx2. unfold definitionExtends. cbn. rewrite !app_nil_r.
        repeat (split; [done|]). done. }
      apply (definitionExtends_trans _ _ _ _ _ _ _ _ _ A2) in Hpush.
      by apply (definitionExtends_trans _ _ _ _ _ _ _ _ _ Hpush) in B1.
    + simpl. by rewrite B2.
    + constructor; [apply markCleanUpStep_flag|done].
Qed.

Lemma loadScenarios_loop self raws ctx ctx' :
  forOf raws (loadScenarioOf self) ctx = (Ok tt, ctx') ->
  exists new,
    definitionExtends (ctx_scenarioDef ctx) (ctx_scenarioDef ctx') [] [] new
    /\ Forall2 (scenarioOf (requiredVariables (def_scope (ctx_scenarioDef ctx)))) raws new.
Proof.
  revert ctx. induction raws as [|raw raws IH]; intros ctx.
  - simpl. unfold ret. intros ?; simplify_eq. exists [].
    split; [by apply definitionExtends_grows|constructor].
  - simpl. unfold bind at 1. unfold loadScenarioOf at 1. unfold bind at 1, update at 1.
    cbn [fst snd]. unfold bind at 1.
    destruct (loadScenario self raw _) as [[scn|e] ctx1] eqn:Hload; [|done].
    destruct (loadScenario_sound _ _ _ _ _ Hload) as (A1 & A2 & A3 & A4 & A5 & A6 & _).
    cbn in A5, A6. unfold update. cbn [fst snd].
    set (ctx2 := with_scenarioIndex _ _). intros Hrun.
    destruct (IH ctx2 Hrun) as (new & B1 & B2).
    exists (scn :: new). split.
    + apply definitionExtends_grows in A6.
      assert (definitionExtends (ctx_scenarioDef ctx1) (ctx_scenarioDef ctx2) [] [] [scn])
        as Hpush.
      { subst ctx2. unfold definitionExtends. cbn. rewrite !app_nil_r.
        repeat (split; [done|]). done. }
      apply (definitionExtends_trans _ _ _ _ _ _ _ _ _ A6) in Hpush.
      by apply (definitionExtends_trans _ _ _ _ _ _ _ _ _ Hpush) in B1.
    + constructor.
      * split; [done|]. split; [done|]. split; [done|]. split; [|done].
        intros name Hname. by rewrite A2, Hname.
      * eapply Forall2_impl; [exact B2|].
        intros r s (C1 & C2 & C3 & C4 & C5). split; [done|]. split; [done|].
        split; [done|]. split; [done|]. intros name Hname. apply C5.
        subst ctx2. cbn. destruct A6 as (_ & _ & _ & _ & _ & _ & P & _).
        eapply elem_of_prefix; [exact Hname|exact P].
Qed.

End Load.

Section LoadShape.
Context `{Engine} `{Collaborators}.

Lemma newScenarioDefinition_required self filePath rawDef variableScope name :
  name ∈ builtinRequired (default ResourceGroup (rd_scope rawDef)) ->
  name ∈ requiredVariables
           (def_scope (newScenarioDefinition self filePath rawDef variableScope)).
Proof.
  unfold newScenarioDefinition. cbv zeta. cbn [def_scope].
  destruct (default ResourceGroup (rd_scope rawDef)) eqn:Hscope; simpl.
  - intros [->|[->|[]%elem_of_nil]%elem_of_cons]%elem_of_cons.
    + apply setAdd_spec. left. apply setAdd_spec. by right.
    + apply setAdd_spec. by right.
  - intros [->|[]%elem_of_nil]%elem_of_cons. apply setAdd_spec. by right.
  - by intros ?%elem_of_nil.
  - by intros ?%elem_of_nil.
Qed.

(** X20: a definition that loads has the scope given, [ResourceGroup]
    when none is, and the file path it was loaded from; one prepare step per
    raw prepare step, each flagged as a prepare step, and one clean-up step
    per raw clean-up step, each flagged as a clean-up step; one scenario per
    raw scenario, in order, each with one step per raw step, the name,
    description and [shareScope] of its raw scenario; and the variables that
    the scope needs ([subscriptionId] and [location] for a resource group,
    [subscriptionId] for a subscription) are required by the definition and
    by every scenario. *)
Theorem load_shape self filePath rawDef def :
  load self filePath rawDef = Ok def ->
  scope def = default ResourceGroup (rd_scope rawDef)
  /\ _filePath def = filePath
  /\ length (prepareSteps def) = length (default [] (rd_prepareSteps rawDef))
  /\ Forall (fun s => isPrepareStep s = Some true) (prepareSteps def)
  /\ length (cleanUpSteps def) = length (default [] (rd_cleanUpSteps rawDef))
  /\ Forall (fun s => isCleanUpStep s = Some true) (cleanUpSteps def)
  /\ Forall2 (scenarioOf (builtinRequired (scope def))) (rd_scenarios rawDef) (scenarios def)
  /\ (forall name, name ∈ builtinRequired (scope def) ->
        name ∈ requiredVariables (def_scope def)).
Proof.
  unfold load. destruct (convertVariables (rd_variables rawDef)) as [variableScope|e]; [|done].
  set (def0 := newScenarioDefinition self filePath rawDef variableScope).
  set (ctx0 := mkContext _ _ _ _ _ _).
  unfold bind at 1. unfold loadPrepareSteps at 1. unfold bind at 1, update at 1.
  cbn [fst snd]. fold (loadPrepareStep self).
  destruct (forOf (default [] (rd_prepareSteps rawDef)) _ _) as [[[]|e] ctx1] eqn:Hprepare;
    [|done].
  destruct (loadPrepareSteps_loop _ _ _ _ Hprepare) as (prepare & P1 & P2 & P3).
  unfold bind at 1. unfold loadCleanUpSteps at 1. unfold bind at 1, update at 1.
  cbn [fst snd]. fold (loadCleanUpStep self).
  destruct (forOf (default [] (rd_cleanUpSteps rawDef)) _ _) as [[[]|e] ctx2] eqn:HcleanUp;
    [|done].
  destruct (loadCleanUpSteps_loop _ _ _ _ HcleanUp) as (cleanUp & C1 & C2 & C3).
  unfold loadScenarios. unfold bind at 1, update at 1. cbn [fst snd].
  fold (loadScenarioOf self).
  destruct (forOf (rd_scenarios rawDef) _ _) as [[[]|e] ctx3] eqn:Hscenarios; [|done].
  destruct (loadScenarios_loop _ _ _ _ Hscenarios) as (added & S1 & S2).
  intros ?; simplify_eq. cbn in P1, C1, S1, S2.
  pose proof (definitionExtends_trans _ _ _ _ _ _ _ _ _
                (definitionExtends_trans _ _ _ _ _ _ _ _ _ P1 C1) S1)
    as (E1 & E2 & E3 & E4 & E5 & E6 & E7).
  rewrite !app_nil_r in *. simpl in *.
  assert (scope (ctx_scenarioDef ctx3) = default ResourceGroup (rd_scope rawDef)) as Hscope.
  { by rewrite E1. }
  assert (forall name, name ∈ builtinRequired (scope (ctx_scenarioDef ctx3)) ->
            name ∈ requiredVariables (def_scope def0)) as Hbase.
  { intros name Hname. rewrite Hscope in Hname.
    by apply newScenarioDefinition_required. }
  split; [done|]. split; [done|]. split; [by rewrite E5|]. split; [by rewrite E5|].
  split; [by rewrite E6|]. split; [by rewrite E6|]. split.
  - rewrite E7. simpl. eapply Forall2_impl; [exact S2|].
    intros r s (A1 & A2 & A3 & A4 & A5). repeat (split; [done|]).
    intros name Hname. apply A5.
    destruct (definitionExtends_trans _ _ _ _ _ _ _ _ _ P1 C1) as (_ & _ & _ & (Q & _) & _).
    eapply elem_of_prefix; [|exact Q]. by apply Hbase.
  - intros name Hname. destruct E4 as (Q & _).
    eapply elem_of_prefix; [|exact Q]. by apply Hbase.
Qed.

End LoadShape.

(** A definition without a scope: a resource group, that requires a
    location. *)
Lemma load_shape_witness :
  scope compiledDefinition = ResourceGroup
  /\ length (scenarios compiledDefinition) = 1
  /\ "location" ∈ requiredVariables (def_scope compiledDefinition).
Proof.
  destruct (@load_shape engine loaderCollaborators loader "things.yaml"
              (rawDefinitionOf [operationStep "list"]) compiledDefinition)
    as (Hscope & _ & _ & _ & _ & _ & Hscenarios & Hrequired); [vm_compute; reflexivity|].
  split; [exact Hscope|]. split.
  - symmetry. exact (Forall2_length _ _ _ Hscenarios).
  - apply Hrequired. rewrite Hscope. right. left.
Defined.

Section Operation.
Context `{Engine} `{Collaborators}.






End Operation.

Section Operation2.
Context `{Engine} `{Collaborators}.




End Operation2.


Lemma takeWord_word word rest :
  allChars isWordChar word = true ->
  (match rest with String c _ => isWordChar c = false | EmptyString => True end) ->
  takeWord (word +:+ rest) = (word, rest).
Proof.
  intros Hw Hr. induction word as [|c word IH].
  - change ("" +:+ rest) with rest. destruct rest as [|c rest]; [done|]. simpl. by rewrite Hr.
  - simpl in Hw. apply andb_prop in Hw as [Hc Hw]. rewrite append_cons. simpl.
    by rewrite Hc, (IH Hw).
Qed.

Lemma takeWord_inv s word rest :
  takeWord s = (word, rest) -> s = word +:+ rest /\ allChars isWordChar word = true.
Proof.
  revert word rest. induction s as [|c s IH]; intros word rest; simpl.
  - by intros ?; simplify_eq.
  - destruct (isWordChar c) eqn:Hc.
    + destruct (takeWord s) as [w r]. intros ?; simplify_eq.
      destruct (IH _ _ eq_refl) as [-> Hw]. simpl. by rewrite Hc, Hw.
    + by intros ?; simplify_eq.
Qed.

Lemma matchVariableAt_reference name post :
  isIdentifier name = true ->
  matchVariableAt ("$(" +:+ name +:+ ")" +:+ post) = Some name.
Proof.
  destruct name as [|c word]; [done|]. simpl. intros [Hc Hw]%andb_prop.
  change ("$(" +:+ String c word +:+ ")" +:+ post)
    with (String "$" (String "(" (String c (word +:+ String ")" post)))).
  simpl. rewrite Hc, (takeWord_word word (")" +:+ post)); [reflexivity|done|reflexivity].
Qed.

Lemma matchVariableAt_inv s name :
  matchVariableAt s = Some name ->
  isIdentifier name = true /\ exists post, s = "$(" +:+ name +:+ ")" +:+ post.
Proof.
  destruct s as [|a s]; [done|].
  destruct a as [[] [] [] [] [] [] [] []]; try done.
  destruct s as [|b s]; [done|].
  destruct b as [[] [] [] [] [] [] [] []]; try done.
  destruct s as [|c s]; [done|]. cbn [matchVariableAt].
  destruct (isIdentStart c) eqn:Hc; [|done].
  destruct (takeWord s) as [word rest] eqn:Hword.
  destruct rest as [|d rest]; [done|].
  destruct d as [[] [] [] [] [] [] [] []]; try done.
  intros ?; simplify_eq. apply takeWord_inv in Hword as [-> Hw].
  split; [simpl; by rewrite Hc, Hw|]. by exists rest.
Qed.

Lemma variableReferences_app pre s name :
  matchVariableAt s = Some name -> name ∈ variableReferences (pre +:+ s).
Proof.
  intros Hm. induction pre as [|c pre IH].
  - change ("" +:+ s) with s. destruct s as [|c s]; [done|].
    cbn [variableReferences]. rewrite Hm. by left.
  - rewrite append_cons. cbn [variableReferences].
    destruct (matchVariableAt (String c (pre +:+ s))); [by right|done].
Qed.

Lemma variableReferences_inv s name :
  name ∈ variableReferences s ->
  exists pre rest, s = pre +:+ rest /\ matchVariableAt rest = Some name.
Proof.
  induction s as [|c s IH]; [by intros ?%elem_of_nil|].
  cbn [variableReferences].
  destruct (matchVariableAt (String c s)) as [k|] eqn:Hm.
  - intros [->|Hin]%elem_of_cons.
    + by exists "", (String c s).
    + destruct (IH Hin) as (pre & rest & -> & Hrest). by exists (String c pre), rest.
  - intros Hin. destruct (IH Hin) as (pre & rest & -> & Hrest). by exists (String c pre), rest.
Qed.

Section Secret.
Context `{Engine} `{Collaborators}.

(** X22: [isSecretVariable] holds of a text exactly when the text has a
    reference [$(name)], with [name] an identifier, to a secret variable of
    the step, of the scenario being loaded or of the definition. *)
Theorem isSecretVariable_reference variable step ctx :
  isSecretVariable variable step ctx = true
  <-> exists pre name post,
        variable = pre +:+ "$(" +:+ name +:+ ")" +:+ post
        /\ isIdentifier name = true
        /\ secretIn step ctx name = true.
Proof.
  unfold isSecretVariable. rewrite existsb_exists. split.
  - intros (name & Hin%list_elem_of_In & Hsecret).
    destruct (variableReferences_inv _ _ Hin) as (pre & rest & -> & Hm).
    apply matchVariableAt_inv in Hm as [Hid [post ->]]. by exists pre, name, post.
  - intros (pre & name & post & -> & Hid & Hsecret). exists name. split; [|done].
    apply list_elem_of_In, variableReferences_app. by apply matchVariableAt_reference.
Qed.

End Secret.

Section Template.
Context `{Engine} `{Collaborators}.

Lemma requiring_same ctx : requiring ctx (requiredVariables (owningScope ctx)) = ctx.
Proof.
  unfold requiring, owningScope, with_owningScope. destruct ctx as [t d x i j g]. simpl.
  destruct x as [x|]; simpl.
  - destruct x as [a b c e s]. by destruct s.
  - destruct d as [a b c e f k s]. by destruct s.
Qed.

Lemma requiring_requiring ctx a b : requiring (requiring ctx a) b = requiring ctx b.
Proof.
  unfold requiring, owningScope, with_owningScope. destruct ctx as [t d x i j g]. simpl.
  destruct x as [x|]; simpl; [by destruct x|by destruct d].
Qed.

Lemma requiring_required ctx a : requiredVariables (owningScope (requiring ctx a)) = a.
Proof. unfold requiring. by rewrite owningScope_with. Qed.

Lemma unbound_requiring step ctx a kv : unbound step (requiring ctx a) kv = unbound step ctx kv.
Proof.
  unfold unbound, requiring, owningScope, with_owningScope.
  destruct ctx as [t d x i j g]. simpl. destruct x as [x|]; simpl; [done|]. by destruct d.
Qed.

Lemma requireTemplateParameters_cons paramName param params step ctx :
  requireTemplateParameters ((paramName, param) :: params) step ctx
  = if negb (unbound step ctx (paramName, param)) then
      requireTemplateParameters params step ctx
    else if negb (isStringParameter param)
            && negb (includes (requiredVariables (owningScope ctx)) paramName)
    then
      (Throw (newError ("Only string and securestring type is supported in arm template params, please specify defaultValue for: " +:+ paramName)), ctx)
    else
      requireTemplateParameters params step
        (requiring ctx (push (requiredVariables (owningScope ctx)) paramName)).
Proof.
  cbn [requireTemplateParameters]. unfold bind at 1, this. unfold unbound, isStringParameter.
  cbn [fst snd].
  destruct (Runner.isUndefined (defaultValue param)); [|done]. simpl.
  destruct (hasProp (variables (arm_scope step)) paramName); [done|]. simpl.
  destruct (hasProp (variables (owningScope ctx)) paramName); [done|]. simpl.
  destruct (hasProp (variables (def_scope (ctx_scenarioDef ctx))) paramName); [done|]. simpl.
  rewrite negb_orb.
  destruct (negb (String.eqb (ap_type param) "string") && _ && _); [done|].
  by unfold bind, update.
Qed.

Lemma requireTemplateParameters_sound params step ctx r ctx' :
  requireTemplateParameters params step ctx = (r, ctx') ->
  exists added,
    ctx' = requiring ctx (requiredVariables (owningScope ctx) ++ added)
    /\ (forall name, name ∈ added ->
          exists param, (name, param) ∈ params /\ unbound step ctx (name, param) = true)
    /\ match r with
       | Ok _ =>
           forall name param, (name, param) ∈ params ->
             unbound step ctx (name, param) = true ->
             name ∈ requiredVariables (owningScope ctx')
       | Throw e =>
           exists name param,
             (name, param) ∈ params /\ unbound step ctx (name, param) = true
             /\ isStringParameter param = false
             /\ e = newError ("Only string and securestring type is supported in arm template params, please specify defaultValue for: " +:+ name)
       end.
Proof.
  revert ctx. induction params as [|[paramName param] params IH]; intros ctx.
  - simpl. unfold ret. intros ?; simplify_eq. exists []. rewrite app_nil_r, requiring_same.
    split; [done|]. split; [by intros name ?%elem_of_nil|]. by intros name param ?%elem_of_nil.
  - rewrite requireTemplateParameters_cons.
    destruct (unbound step ctx (paramName, param)) eqn:Hun; simpl.
    + destruct (negb (isStringParameter param) && _) eqn:Hcheck.
      * intros ?; simplify_eq. exists []. rewrite app_nil_r, requiring_same.
        split; [done|]. split; [by intros name ?%elem_of_nil|].
        apply andb_prop in Hcheck as [Hs%negb_true_iff _].
        exists paramName, param. split; [by left|done].
      * intros Hrun. destruct (IH _ Hrun) as (added & Hctx' & Hadded & Hr). clear IH.
        unfold push in Hctx'.
        rewrite requiring_requiring, requiring_required, <- app_assoc in Hctx'.
        exists (paramName :: added). split; [done|]. split.
        -- intros name [->|Hin]%elem_of_cons; [exists param; split; [by left|done]|].
           destruct (Hadded name Hin) as (param' & Hin' & Hun').
           rewrite unbound_requiring in Hun'. exists param'. split; [by right|done].
        -- destruct r as [[]|e].
           ++ intros name param' [?|Hin]%elem_of_cons Hun'.
              ** simplify_eq. rewrite requiring_required, !elem_of_app. right; left. by left.
              ** apply (Hr name param' Hin). by rewrite unbound_requiring.
           ++ destruct Hr as (name & param' & Hin & Hun' & Hs & ->).
              rewrite unbound_requiring in Hun'.
              exists name, param'. split; [by right|done].
    + intros Hrun. destruct (IH _ Hrun) as (added & Hctx' & Hadded & Hr). clear IH.
      exists added. split; [done|]. split.
      * intros name Hin. destruct (Hadded name Hin) as (param' & Hin' & Hun').
        exists param'. split; [by right|done].
      * destruct r as [[]|e].
        -- intros name param' [?|Hin]%elem_of_cons Hun'; [by simplify_eq; congruence|].
           by apply (Hr name param').
        -- destruct Hr as (name & param' & Hin & Hun' & Hs & ->).
           exists name, param'. split; [by right|done].
Qed.

End Template.

Section Template2.
Context `{Engine} `{Collaborators}.

Lemma declareOutputVariables_declared outs scope k :
  k ∈ outs.*1 -> inherited k = false ->
  is_Some (lookupKey (variables (declareOutputVariables outs scope)) k).
Proof.
  intros Hk Hown.
  destruct (declareOutputVariables_sound outs scope) as (_ & _ & E3 & _ & E5 & _).
  destruct (lookupKey (variables scope) k) as [v|] eqn:Hlook.
  - exists v. by apply E3.
  - destruct (E5 k Hk Hlook Hown) as (type & _ & ->). by eexists.
Qed.

(** X23: a template step requires the parameters of its template that
    have no default value and that no variable of the step, of the owning
    scope or of the definition binds, and nothing else; such a parameter
    that is not a string or secure string makes the load fail with an error
    that names a parameter of that kind. A name is bound when
    [variables[name]] is not undefined in one of the three plain objects: an
    own variable, or a name that [Object.prototype] answers to
    ([constructor], [toString], ...), so a parameter of such a name is never
    required. When the step loads, every output of the template whose name
    is not one of [Object.prototype] is a variable of the owning scope. *)
Theorem loadStepArmTemplate_requires self rawStep ctx r ctx' variableScope payload :
  loadStepArmTemplate self rawStep ctx = (r, ctx') ->
  convertVariables (raw_variables (rst_base rawStep)) = Ok variableScope ->
  loadArmTemplate
    (pathJoin (pathDirName (_filePath (ctx_scenarioDef ctx))) (armTemplate rawStep))
  = Ok payload ->
  let params := default [] (at_parameters payload) in
  let built :=
    {| arm_step :=
         default (positionName ctx +:+ "_ArmTemplate") (raw_step (rst_base rawStep));
       arm_outputVariables := Some (default [] (raw_outputVariables (rst_base rawStep)));
       arm_armTemplate := armTemplate rawStep;
       arm_armTemplatePayload := payload;
       arm_scope := variableScope;
       arm_isPrepareStep := None;
       arm_isCleanUpStep := None |} in
  (forall name, name ∈ requiredVariables (owningScope ctx') ->
     name ∈ requiredVariables (owningScope ctx)
     \/ exists param, (name, param) ∈ params /\ unbound built ctx (name, param) = true)
  /\ match r with
     | Ok step =>
         step = armTemplateParameterConvention built (getVariableFunction variableScope ctx')
         /\ (forall name param, (name, param) ∈ params ->
               unbound built ctx (name, param) = true ->
               name ∈ requiredVariables (owningScope ctx'))
         /\ (forall name output, (name, output) ∈ default [] (at_outputs payload) ->
               inherited name = false ->
               is_Some (lookupKey (variables (owningScope ctx')) name))
     | Throw e =>
         exists name param,
           (name, param) ∈ params /\ unbound built ctx (name, param) = true
           /\ isStringParameter param = false
           /\ e = newError ("Only string and securestring type is supported in arm template params, please specify defaultValue for: " +:+ name)
     end.
Proof.
  intros Hrun Hvars Hfile. cbv zeta.
  unfold loadStepArmTemplate in Hrun. cbv zeta in Hrun.
  unfold bind at 1, this in Hrun. unfold bind at 1, liftResult at 1 in Hrun.
  rewrite Hvars in Hrun. unfold bind at 1, liftResult at 1 in Hrun. rewrite Hfile in Hrun.
  set (built := mkStepArmTemplate _ _ _ _ _ _ _) in *.
  unfold bind at 1 in Hrun.
  destruct ((match at_parameters payload with
             | Some params => requireTemplateParameters params built
             | None => ret tt
             end) ctx) as [r1 ctx1] eqn:Hparams.
  assert (requireTemplateParameters (default [] (at_parameters payload)) built ctx
          = (r1, ctx1)) as Hparams'.
  { by destruct (at_parameters payload). }
  destruct (requireTemplateParameters_sound _ _ _ _ _ Hparams') as (added & Hctx1 & Hadded & Hr1).
  assert (forall name, name ∈ requiredVariables (owningScope ctx1) ->
            name ∈ requiredVariables (owningScope ctx)
            \/ exists param, (name, param) ∈ default [] (at_parameters payload)
                             /\ unbound built ctx (name, param) = true) as Hreq.
  { intros name. rewrite Hctx1, requiring_required, elem_of_app. intros [?|?]; auto. }
  clear Hctx1 Hadded Hparams Hparams'.
  destruct r1 as [[]|e]; [|by simplify_eq].
  unfold bind at 1 in Hrun.
  destruct (at_outputs payload) as [outputs|] eqn:Houts.
  - unfold update, bind, this, ret in Hrun. simplify_eq.
    rewrite !owningScope_with.
    destruct (declareOutputVariables_sound
                (map (fun kv => (kv.1, Some (ao_type kv.2))) outputs)
                (owningScope ctx1)) as (E1 & _).
    rewrite E1. split; [done|]. split; [done|]. split; [done|].
    intros name output Hin Hown. apply declareOutputVariables_declared; [|done].
    rewrite <- list_fmap_compose. apply list_elem_of_fmap. by exists (name, output).
  - unfold bind, this, ret in Hrun. simplify_eq. split; [done|]. split; [done|].
    split; [done|]. by intros name output ?%elem_of_nil.
Qed.

End Template2.

(** The template of the fixtures: [storageName] has no default value. *)
Lemma loadStepArmTemplate_requires_witness :
  "storageName" ∈ requiredVariables (owningScope loadedStorage.2).
Proof.
  destruct (@loadStepArmTemplate_requires engine loaderCollaborators loader storageStep
              loadContext (Ok storageLoaded) loadedStorage.2 noVariables template)
    as (_ & _ & Hrequired & _);
    [vm_compute; reflexivity | reflexivity | reflexivity |].
  apply (Hrequired "storageName" {| ap_type := "string"; defaultValue := None |});
    [left | reflexivity].
Defined.

(** A template parameter and an output named like members of
    [Object.prototype]: the parameter is not required and the output is not
    declared, although no variable of these names exists. *)
Lemma inherited_names_are_bound :
  requiredVariables
    (owningScope
       (@requireTemplateParameters engine
          [("constructor", {| ap_type := "string"; defaultValue := None |})]
          storageLoaded loadContext).2)
  = requiredVariables (owningScope loadContext)
  /\ variables (declareOutputVariables [("toString", Some "string")] noVariables) = [].
Proof. split; vm_compute; reflexivity. Qed.

Section Script.
Context `{Engine} `{Collaborators}.

Lemma pushEnvironmentVariables_some entries step ctx target :
  pushEnvironmentVariables entries step ctx (Some target)
  = Some (Some (target ++ map (scriptVariable step ctx) entries)).
Proof.
  revert target. induction entries as [|[name value] entries IH]; intros target; simpl.
  - by rewrite app_nil_r.
  - rewrite IH. unfold push. by rewrite <- app_assoc.
Qed.

Lemma pushEnvironmentVariables_sound entries step ctx target variables :
  pushEnvironmentVariables entries step ctx target = Some variables ->
  variables = (fun old => old ++ map (scriptVariable step ctx) entries) <$> target.
Proof.
  destruct target as [target|].
  - rewrite pushEnvironmentVariables_some. by intros ?; simplify_eq.
  - destruct entries as [|[name value] entries]; simpl; by intros ?; simplify_eq.
Qed.

(** X25: a script step that loads leaves the context as it was. Its
    payload is the script template with its first resource changed: the
    resource is named after the step; it is an [AzurePowerShell] resource of
    version 6.2 when the script file ends in [.ps1] and an [AzureCLI]
    resource of version 2.0.80 otherwise; it has the content of the script
    file and the arguments of the raw step; and the environment variables of
    the raw step are appended to those of the template, in order, each as a
    secure value when its text refers to a secret variable and as a plain
    value otherwise. *)
Theorem loadStepArmDeploymentScript_resource self rawStep ctx step ctx' :
  loadStepArmDeploymentScript self rawStep ctx = (Ok step, ctx') ->
  let powershell := endsWith (armDeploymentScript rawStep) ".ps1" in
  ctx' = ctx
  /\ exists variableScope built resource properties content,
       convertVariables (raw_variables (rss_base rawStep)) = Ok variableScope
       /\ loadFile (pathJoin (pathDirName (_filePath (ctx_scenarioDef ctx)))
                      (armDeploymentScript rawStep)) = Ok content
       /\ step = armTemplateParameterConvention built (getVariableFunction variableScope ctx)
       /\ arm_scope built = variableScope
       /\ arm_step built
          = default (positionName ctx +:+ "_ArmDeploymentScript") (raw_step (rss_base rawStep))
       /\ head (default [] (at_resources (arm_armTemplatePayload built))) = Some resource
       /\ r_name resource = arm_step built
       /\ r_kind resource = Some (if powershell then "AzurePowerShell" else "AzureCLI")
       /\ r_properties resource = Some properties
       /\ scriptContent properties = Some content
       /\ arguments properties = rss_arguments rawStep
       /\ (if powershell then azPowerShellVersion properties = Some "6.2"
           else azCliVersion properties = Some "2.0.80")
       /\ environmentVariables properties
          = (fun old =>
               old ++ map (scriptVariable variableScope ctx)
                        (default [] (rss_environmentVariables rawStep)))
            <$> scriptTemplateVariables.
Proof.
  unfold loadStepArmDeploymentScript, scriptTemplateVariables. cbv zeta.
  unfold bind at 1, this. unfold bind at 1, liftResult at 1.
  destruct (convertVariables _) as [variableScope|?]; [|done].
  destruct (at_resources armDeploymentScriptTemplate) as [[|resource resources]|]; [done| |done].
  destruct (r_properties resource) as [properties|]; [|done].
  unfold bind at 1, liftResult at 1.
  destruct (loadFile _) as [content|?] eqn:Hfile; [|done].
  destruct (pushEnvironmentVariables _ _ _ _) as [variables|] eqn:Hpush; [|done].
  apply pushEnvironmentVariables_sound in Hpush as ->.
  unfold ret. intros ?; simplify_eq. split; [done|].
  eexists variableScope, _, _, _, content.
  split; [done|]. split; [done|]. split; [done|]. cbn.
  repeat (split; [done|]). split; [|done].
  by destruct (endsWith _ _).
Qed.

End Script.

(** A PowerShell script with two environment variables, one of which
    refers to the secret of the step. *)
Lemma loadStepArmDeploymentScript_resource_witness :
  exists resource properties,
    head (default [] (at_resources (arm_armTemplatePayload seedLoaded))) = Some resource
    /\ r_kind resource = Some "AzurePowerShell"
    /\ r_properties resource = Some properties
    /\ environmentVariables properties
       = Some [mkScriptEnvironmentVariable "PASSWORD" None (Some "$(password)");
               mkScriptEnvironmentVariable "REGION" (Some "$(location)") None].
Proof.
  destruct (@loadStepArmDeploymentScript_resource engine scriptCollaborators loader seedStep
              loadContext seedLoaded loadedSeed.2)
    as (_ & variableScope & built & resource & properties & content & Hscope & _ & Hstep
        & _ & _ & Hresource & _ & Hkind & Hproperties & _ & _ & _ & Hvariables);
    [vm_compute; reflexivity|].
  vm_compute in Hscope. injection Hscope as <-.
  change (seedLoaded = built) in Hstep. rewrite <- Hstep in Hresource.
  exists resource, properties. split; [exact Hresource|]. split; [exact Hkind|].
  split; [exact Hproperties|]. rewrite Hvariables. vm_compute. reflexivity.
Defined.

Section Unknown.
Context `{Engine} `{Collaborators}.

(** X26: an operation step for an operation that the index does not have
    fails with [Operation not found for <operation id> in step <name>],
    where the name is the one given, or the position followed by the
    operation id when none is given; and the failed step leaves the name it
    was given, or its position, among the tracked names. *)
Theorem loadStepRestCall_unknown_operation self rawStep ctx variableScope :
  (forall name, raw_step (rso_base rawStep) = Some name -> name ∉ stepTracking ctx) ->
  convertVariables (raw_variables (rso_base rawStep)) = Ok variableScope ->
  operationOf self (readmeTag rawStep) (rso_operationId rawStep) = None ->
  let given := default (positionName ctx) (raw_step (rso_base rawStep)) in
  let name :=
    if truthyString (raw_step (rso_base rawStep)) then given
    else given +:+ "_" +:+ rso_operationId rawStep in
  loadStepRestCall self (inl rawStep) ctx
  = (Throw (newError ("Operation not found for " +:+ rso_operationId rawStep
                      +:+ " in step " +:+ name)),
     with_stepTracking ctx ({[given]} ∪ stepTracking ctx)).
Proof.
  intros Hnew Hscope Hnone. cbv zeta.
  unfold loadStepRestCall. cbn [baseOfRestCall]. cbv zeta. unfold bind at 1.
  assert (checkStepName (raw_step (rso_base rawStep)) ctx = (Ok tt, ctx)) as ->.
  { unfold checkStepName, bind, this. destruct (raw_step (rso_base rawStep)) as [name|]; [|done].
    by rewrite bool_decide_false by by apply Hnew. }
  unfold bind at 1, this. unfold bind at 1, liftResult at 1. rewrite Hscope.
  unfold bind at 1, update. cbn [fst snd].
  destruct (truthyString (raw_step (rso_base rawStep))); cbn; by rewrite Hnone.
Qed.

End Unknown.

(** The index of the fixtures has no [Things_Purge]. *)
Lemma loadStepRestCall_unknown_operation_witness :
  (@loadStepRestCall engine loaderCollaborators loader (inl unknownStep) loadContext).1
  = Throw (@newError engine "Operation not found for Things_Purge in step purge")
  /\ "purge" ∈ stepTracking
                 (@loadStepRestCall engine loaderCollaborators loader (inl unknownStep)
                    loadContext).2.
Proof.
  rewrite (@loadStepRestCall_unknown_operation engine loaderCollaborators loader unknownStep
             loadContext noVariables);
    [|intros name _; apply not_elem_of_empty | reflexivity | reflexivity].
  split; [reflexivity|]. apply elem_of_union_l, elem_of_singleton. reflexivity.
Defined.

Section Patches.
Context `{Engine} `{Collaborators}.

Lemma patchResponse_kept operation patch statusCode response :
  keptResponse statusCode response = true ->
  patchResponse operation patch statusCode response = response.
Proof.
  unfold keptResponse, patchResponse. destruct (String.leb "400" statusCode); [done|].
  destruct response as [| | | | | |props|]; try done.
  by destruct (truthy (getProp props "body")).
Qed.

(** X27: [applyPatches] leaves the context as it was and changes nothing
    of the step but its parameters and its responses. The parameters are
    those that the request update gives, and the ones the step had when
    there is no request update. Without a response update the step has a
    response for the same status codes in the same order, and a response is
    as it was when it is an error response (status code from 400 on) or has
    no body, when there is no request update, and when the operation has no
    body parameter or is not a [put] or a [patch]. *)
Theorem applyPatches_responses step rawStep operation ctx step' ctx' :
  applyPatches step rawStep operation ctx = (Ok step', ctx') ->
  ctx' = ctx
  /\ step' = with_rc_responses (with_rc_parameters step (rc_parameters step'))
               (rc_responses step')
  /\ match requestUpdate rawStep with
     | None => rc_parameters step' = rc_parameters step
     | Some patches => jsonPatchApply (rc_parameters step) patches = Ok (rc_parameters step')
     end
  /\ (responseUpdate rawStep = None ->
      (rc_responses step').*1 = (rc_responses step).*1
      /\ (forall statusCode response,
            (statusCode, response) ∈ rc_responses step ->
            keptResponse statusCode response = true
            \/ requestUpdate rawStep = None
            \/ getBodyParam operation = None
            \/ includes ["put"; "patch"] (_method operation) = false ->
            (statusCode, response) ∈ rc_responses step')).
Proof.
  unfold applyPatches. unfold bind at 1.
  set (first := match requestUpdate rawStep with Some _ => _ | None => _ end).
  destruct (first ctx) as [[step1|e] ctx1] eqn:Hfirst; [|done].
  assert (ctx1 = ctx
          /\ step1 = with_rc_responses (with_rc_parameters step (rc_parameters step1))
                       (rc_responses step1)
          /\ match requestUpdate rawStep with
             | None => rc_parameters step1 = rc_parameters step
             | Some patches =>
                 jsonPatchApply (rc_parameters step) patches = Ok (rc_parameters step1)
             end
          /\ (rc_responses step1).*1 = (rc_responses step).*1
          /\ (forall statusCode response,
                (statusCode, response) ∈ rc_responses step ->
                keptResponse statusCode response = true
                \/ requestUpdate rawStep = None
                \/ getBodyParam operation = None
                \/ includes ["put"; "patch"] (_method operation) = false ->
                (statusCode, response) ∈ rc_responses step1)) as (-> & Hstep & Hparams & Hcodes & Hkept).
  { subst first. destruct (requestUpdate rawStep) as [patches|].
    - cbv zeta in Hfirst. unfold bind at 1, liftResult at 1 in Hfirst.
      destruct (jsonPatchApply (rc_parameters step) patches) as [parameters|?]; [|done].
      destruct (getBodyParam operation) as [bodyParam|] eqn:Hbody.
      + destruct (includes ["put"; "patch"] (_method operation)) eqn:Hmethod.
        * unfold ret in Hfirst. simplify_eq. cbn.
          split; [done|]. split; [by destruct step|]. split; [done|]. split.
          { rewrite <- list_fmap_compose. by apply list_fmap_ext. }
          intros statusCode response Hin [Hk|[?|[?|?]]]; try done.
          apply list_elem_of_fmap. exists (statusCode, response). split; [|done].
          simpl. by rewrite patchResponse_kept.
        * unfold ret in Hfirst. simplify_eq. cbn.
          split; [done|]. split; [by destruct step|]. by repeat split.
      + unfold ret in Hfirst. simplify_eq. cbn.
        split; [done|]. split; [by destruct step|]. by repeat split.
    - unfold ret in Hfirst. simplify_eq. split; [done|]. split; [by destruct step1|].
      by repeat split. }
  destruct (responseUpdate rawStep) as [patches|].
  - unfold bind, liftResult, ret. destruct (jsonPatchApply _ _) as [responses|]; [|done].
    intros ?; simplify_eq. split; [done|]. cbn. split.
    { rewrite Hstep. by destruct step. }
    split; [|done]. by destruct (requestUpdate rawStep).
  - unfold ret. intros ?; simplify_eq. split; [done|]. split; [done|]. split; [done|].
    intros _. split; [done|]. exact Hkept.
Qed.

End Patches.

(** A [put] step with a request update: the response of status 404 is as
    it was. *)
Lemma applyPatches_responses_witness :
  ("404", JsObject [("body", JsObject [])]) ∈ rc_responses putPatched
  /\ (rc_responses putPatched).*1 = ["200"; "404"].
Proof.
  destruct (@applyPatches_responses loaderCollaborators putStep putUpdate putOperation
              loadContext putPatched patched.2)
    as (_ & _ & _ & Hresponses); [vm_compute; reflexivity|].
  destruct (Hresponses eq_refl) as [Hcodes Hkept].
  split; [|exact Hcodes]. apply Hkept; [right; left | left; reflexivity].
Defined.

End LoaderLaws.
